(** * XTouch_to_Wing: the state synchronisation engine of [ruedigerc_v7.py]

    A shallow embedding of the bridge between a Behringer Wing console
    (OSC over UDP), an X-Touch Extender control surface (MIDI) and a DMX
    lighting interface (serial), and the properties of its specification
    that can be decided on it.

    Modelling conventions.
    - Python [int] is [Z]; Python [float] is IEEE binary64, here Rocq's
      primitive [float], so every float expression of the source is
      evaluated bit for bit.
    - Python exceptions are a result type [res]; code that threads the
      objects [device], [wing] and [dmx] lives in a state-and-exception
      monad [M] over the record [World].
    - Everything outside the process (console replies, socket and serial
      outcomes, MIDI liveness) is read from an environment [Env], indexed
      by a clock that counts the interactions so far, so an arbitrary
      sequence of outcomes can be supplied.
    - Calls into the surface, the console sender and the lighting sink are
      recorded in a trace of [event]s, most recent first.
    - [time.sleep] and logging have no counterpart. *)

From Stdlib Require Import ZArith List Ascii String Lia Uint63.
From Stdlib Require Import Floats.PrimFloat Floats.FloatOps Floats.SpecFloat
  Floats.FloatAxioms.
From stdpp Require Import gmap list.
Import ListNotations.

#[local] Set Warnings "-inexact-float".
#[local] Open Scope string_scope.
#[local] Open Scope Z_scope.

(** ** Constants (module level of the source) *)

Definition FADER_MIN : Z := 0.
Definition FADER_MAX : Z := 1000.
Definition FADER_SILENT_THRESHOLD : Z := 5.
Definition FADER_DEADBAND : Z := 15.
Definition GAIN_MIN : float := (-2.5)%float.
Definition GAIN_MAX : float := 45.0%float.
Definition GAIN_STEP : float := 1.0%float.
Definition MAX_SYNC_RETRIES : Z := 3.

(** ** Python values and exceptions *)

Inductive exn : Type :=
| KeyError | IndexError | ValueError | TypeError | OverflowError | OSError.

Inductive res (A : Type) : Type :=
| Ok (a : A)
| Raise (e : exn).
Arguments Ok {A} a.
Arguments Raise {A} e.

(** [float(n)] for an [int]; exact for [|n| < 2^53], which covers every
    integer the program converts (fader positions, their squares, pitch
    values, 32-bit OSC integers). *)
Definition float_of_Z (z : Z) : float :=
  match z with
  | Z0 => PrimFloat.zero
  | Zpos _ => PrimFloat.of_uint63 (Uint63.of_Z z)
  | Zneg p => PrimFloat.opp (PrimFloat.of_uint63 (Uint63.of_Z (Zpos p)))
  end.

(** [int(x)] for a [float]: truncation toward zero of the exact value
    [m * 2^e]; [ValueError] on NaN, [OverflowError] on an infinity. *)
Definition py_int (x : float) : res Z :=
  match Prim2SF x with
  | S754_zero _ => Ok 0
  | S754_finite s m e =>
      let mag := Z.shiftl (Zpos m) e in
      Ok (if s then - mag else mag)
  | S754_infinity _ => Raise OverflowError
  | S754_nan => Raise ValueError
  end.

(** [round(x)] for a [float]: the integer nearest to the exact value
    [m * 2^e], a tie going to the even one; the errors of [int(x)]. *)
Definition py_round (x : float) : res Z :=
  match Prim2SF x with
  | S754_zero _ => Ok 0
  | S754_finite s m e =>
      let mag :=
        if 0 <=? e then Zpos m * 2 ^ e
        else
          let d := 2 ^ (- e) in
          let q := Zpos m / d in
          let r := Zpos m mod d in
          if 2 * r <? d then q
          else if d <? 2 * r then q + 1
          else if Z.even q then q else q + 1 in
      Ok (if s then - mag else mag)
  | S754_infinity _ => Raise OverflowError
  | S754_nan => Raise ValueError
  end.

(** [2^e] in units of [2^-2200], an integer for every exponent a binary64
    operation meets. *)
Definition pow2s (e : Z) : Z := 2 ^ (e + 2200).

(** [min(a, b)] and [max(a, b)] as CPython computes them: the first
    argument is kept unless the second compares strictly below (above). *)
Definition py_min (a b : float) : float := if PrimFloat.ltb b a then b else a.
Definition py_max (a b : float) : float := if PrimFloat.ltb a b then b else a.

(** The arguments an OSC reply of the console carries: integer, 32-bit
    float (widened to a Python float) or string. *)
Inductive osc_arg : Type :=
| OInt (n : Z)
| OFloat (f : float)
| OStr (s : string).

(** A decimal integer literal as [float()] reads it; an instance of the
    string-to-float conversion the development is parameterised by. *)
Fixpoint digits_value (acc : Z) (s : string) : option Z :=
  match s with
  | EmptyString => Some acc
  | String c r =>
      let n := Z.of_N (Ascii.N_of_ascii c) in
      if (48 <=? n) && (n <=? 57) then digits_value (10 * acc + (n - 48)) r
      else None
  end.

Definition float_of_digits (s : string) : option float :=
  match s with
  | EmptyString => None
  | String "-"%char r =>
      match r with
      | EmptyString => None
      | _ => option_map (fun n => PrimFloat.opp (float_of_Z n)) (digits_value 0 r)
      end
  | _ => option_map float_of_Z (digits_value 0 s)
  end.

Definition ascii_upper (c : Ascii.ascii) : Ascii.ascii :=
  let n := Ascii.N_of_ascii c in
  if ((97 <=? n) && (n <=? 122))%N then Ascii.ascii_of_N (n - 32) else c.

Fixpoint str_upper (s : string) : string :=
  match s with
  | EmptyString => EmptyString
  | String c r => String (ascii_upper c) (str_upper r)
  end.

Definition ascii_lower (c : Ascii.ascii) : Ascii.ascii :=
  let n := Ascii.N_of_ascii c in
  if ((65 <=? n) && (n <=? 90))%N then Ascii.ascii_of_N (n + 32) else c.

Fixpoint str_lower (s : string) : string :=
  match s with
  | EmptyString => EmptyString
  | String c r => String (ascii_lower c) (str_lower r)
  end.

Definition range (lo hi : Z) : list Z :=
  List.map (fun k => lo + Z.of_nat k) (List.seq 0 (Z.to_nat (hi - lo))).

(** Python sequence indexing: a negative index counts from the end, and an
    index outside [-len, len) raises [IndexError]. *)
Definition py_index {A : Type} (l : list A) (i : Z) : res nat :=
  let n := Z.of_nat (length l) in
  if (0 <=? i) && (i <? n) then Ok (Z.to_nat i)
  else if (- n <=? i) && (i <? 0) then Ok (Z.to_nat (n + i))
  else Raise IndexError.

Definition py_getitem {A : Type} (l : list A) (i : Z) : res A :=
  match py_index l i with
  | Ok k => match l !! k with Some x => Ok x | None => Raise IndexError end
  | Raise e => Raise e
  end.

Definition py_setitem {A : Type} (l : list A) (i : Z) (x : A) : res (list A) :=
  match py_index l i with
  | Ok k => Ok (<[k := x]> l)
  | Raise e => Raise e
  end.

(** [text.ljust(7)[:7]] as character codes; a character of a text stands
    for one code point, below 256. *)
Fixpoint str_codes (s : string) : list Z :=
  match s with
  | EmptyString => []
  | String c r => Z.of_N (Ascii.N_of_ascii c) :: str_codes r
  end.

Definition ljust7 (text : string) : list Z :=
  take 7 (str_codes text ++ replicate 7 32).

(** ** Protocol vocabulary *)

(** The two [target_type] strings the program uses, ["ch"] and ["mtx"]. *)
Inductive target : Type := Ch | Mtx.

(** The four button classes ["rec"], ["solo"], ["mute"], ["select"]. *)
Inductive button : Type := Rec | Solo | Mute | Select.

(** The OSC addresses the program formats. *)
Inductive address : Type :=
| AddrFdr (t : target) (n : Z)          (* /{t}/{n}/fdr *)
| AddrMute (t : target) (n : Z)         (* /{t}/{n}/mute *)
| AddrGain (grp : osc_arg) (num : Z)    (* /io/in/{str(grp)}/{num}/g *)
| AddrConnGrp (channel : Z)             (* /ch/{channel}/in/conn/grp *)
| AddrConnIn (channel : Z)              (* /ch/{channel}/in/conn/in *)
| AddrPath (path : string).             (* a connectivity probe path *)

(** What [recvfrom] brings after a query: nothing within 0.3 s, a datagram
    that does not decode to a first parameter, or that parameter. *)
Inductive reply : Type :=
| Timeout
| Garbled
| Answer (v : osc_arg).

Inductive midi_msg : Type :=
| Pitchwheel (channel pitch : Z)
| ControlChange (control value : Z)
| NoteOn (note velocity : Z)
| NoteOff (note velocity : Z)
| Sysex (data : list Z).

(** The observable calls, in the order they happen (the trace keeps the
    most recent first). *)
Inductive event : Type :=
| EvQuery (a : address)                       (* WingControl._query *)
| EvSendOsc (a : address) (value : float)     (* WingControl._send_osc *)
| EvCheckConnection                           (* WingControl.check_connection *)
| EvInitQuerySocket                           (* WingControl._init_query_socket *)
| EvSetFader (ch val : Z)                     (* XTouchExtender.set_fader *)
| EvSetLed (ch : Z) (btn : button) (state : bool)
| EvSetEncoderRing (ch value mode : Z)
| EvMidiOut (msg : midi_msg)                  (* outport.send *)
| EvSendDMX (channel value_1000 : Z)          (* DMXController.sendDMX *)
| EvSerialWrite (channel val_255 : Z)         (* ser.write *)
| EvDmxConnect                                (* DMXController.connect *)
| EvSurfaceOpen.                              (* XTouchExtender.open *)

(** The environment: the outcome of the [n]-th interaction with the
    outside, should it be of the given kind. *)
Record Env : Type := {
  osc_reply : nat -> address -> reply;
  osc_send_ok : nat -> bool;
  socket_init_ok : nat -> bool;
  serial_port_ok : nat -> bool;
  surface_alive : nat -> bool;
  surface_open_ok : nat -> bool
}.

(** ** State *)

Record ChannelState : Type := {
  fader_value : Z;
  last_stable_value : Z;
  is_muted : bool;
  is_touched : bool;
  gain_db : float
}.

Definition ChannelState_default : ChannelState :=
  {| fader_value := 0; last_stable_value := 0; is_muted := false;
     is_touched := false; gain_db := 0.0%float |}.

Record XTouchExtender : Type := {
  selected_page : Z;
  channels : gmap Z ChannelState;
  _last_midi_received : nat
}.

Record WingControl : Type := {
  failed_queries : Z;
  connection_ok : bool;
  working_query_path : option string
}.

Record DMXController : Type := {
  ser_open : bool;
  dmx_stored_values : list Z
}.

Record World : Type := {
  device : XTouchExtender;
  wing : WingControl;
  dmx : DMXController;
  clock : nat;
  trace : list event
}.

Definition XTouchExtender_init : XTouchExtender :=
  {| selected_page := 0;
     channels := list_to_map (List.map (fun i => (i, ChannelState_default)) (range 1 9));
     _last_midi_received := O |}.

Definition WingControl_init : WingControl :=
  {| failed_queries := 0; connection_ok := true; working_query_path := None |}.

Definition DMXController_init : DMXController :=
  {| ser_open := false; dmx_stored_values := replicate 513 0 |}.

Definition World_init : World :=
  {| device := XTouchExtender_init; wing := WingControl_init;
     dmx := DMXController_init; clock := O; trace := [] |}.

Definition with_device (f : XTouchExtender -> XTouchExtender) (w : World) : World :=
  {| device := f (device w); wing := wing w; dmx := dmx w;
     clock := clock w; trace := trace w |}.
Definition with_wing (f : WingControl -> WingControl) (w : World) : World :=
  {| device := device w; wing := f (wing w); dmx := dmx w;
     clock := clock w; trace := trace w |}.
Definition with_dmx (f : DMXController -> DMXController) (w : World) : World :=
  {| device := device w; wing := wing w; dmx := f (dmx w);
     clock := clock w; trace := trace w |}.
Definition with_trace (f : list event -> list event) (w : World) : World :=
  {| device := device w; wing := wing w; dmx := dmx w;
     clock := clock w; trace := f (trace w) |}.
Definition advance (w : World) : World :=
  {| device := device w; wing := wing w; dmx := dmx w;
     clock := S (clock w); trace := trace w |}.

Definition set_channels (m : gmap Z ChannelState) (d : XTouchExtender) : XTouchExtender :=
  {| selected_page := selected_page d; channels := m;
     _last_midi_received := _last_midi_received d |}.
Definition set_selected_page (p : Z) (d : XTouchExtender) : XTouchExtender :=
  {| selected_page := p; channels := channels d;
     _last_midi_received := _last_midi_received d |}.
Definition set_last_midi_received (t : nat) (d : XTouchExtender) : XTouchExtender :=
  {| selected_page := selected_page d; channels := channels d;
     _last_midi_received := t |}.
Definition set_fader_value (v : Z) (c : ChannelState) : ChannelState :=
  {| fader_value := v; last_stable_value := last_stable_value c;
     is_muted := is_muted c; is_touched := is_touched c; gain_db := gain_db c |}.
Definition set_last_stable_value (v : Z) (c : ChannelState) : ChannelState :=
  {| fader_value := fader_value c; last_stable_value := v;
     is_muted := is_muted c; is_touched := is_touched c; gain_db := gain_db c |}.
Definition set_is_touched (b : bool) (c : ChannelState) : ChannelState :=
  {| fader_value := fader_value c; last_stable_value := last_stable_value c;
     is_muted := is_muted c; is_touched := b; gain_db := gain_db c |}.
Definition set_gain_db (g : float) (c : ChannelState) : ChannelState :=
  {| fader_value := fader_value c; last_stable_value := last_stable_value c;
     is_muted := is_muted c; is_touched := is_touched c; gain_db := g |}.

(** ** The monad of the program: state and exceptions *)

Definition M (A : Type) : Type := World -> res A * World.

#[global] Instance M_ret : MRet M := fun A a w => (Ok a, w).
#[global] Instance M_bind : MBind M := fun A B f m w =>
  match m w with
  | (Ok a, w') => f a w'
  | (Raise e, w') => (Raise e, w')
  end.

Definition raise {A : Type} (e : exn) : M A := fun w => (Raise e, w).
Definition lift {A : Type} (r : res A) : M A := fun w => (r, w).
Definition get_world : M World := fun w => (Ok w, w).
Definition modify (f : World -> World) : M unit := fun w => (Ok tt, f w).
Definition emit (e : event) : M unit := modify (with_trace (cons e)).

(** [try: m except Exception: h]. *)
Definition try_except {A : Type} (m : M A) (h : exn -> M A) : M A := fun w =>
  match m w with
  | (Ok a, w') => (Ok a, w')
  | (Raise e, w') => h e w'
  end.

(** [for x in l: body x]. *)
Fixpoint for_each {A : Type} (l : list A) (body : A -> M unit) : M unit :=
  match l with
  | [] => mret tt
  | x :: r => body x;; for_each r body
  end.

Definition when (b : bool) (m : M unit) : M unit := if b then m else mret tt.

(** One interaction with the outside: read the environment at the current
    clock and advance it. *)
Definition interact {A : Type} (f : nat -> A) : M A := fun w =>
  (Ok (f (clock w)), advance w).

(** [device.channels[ch]] and an attribute assignment on it. *)
Definition channel (ch : Z) : M ChannelState := fun w =>
  match channels (device w) !! ch with
  | Some st => (Ok st, w)
  | None => (Raise KeyError, w)
  end.

Definition assign_channel (ch : Z) (f : ChannelState -> ChannelState) : M unit :=
  st ← channel ch;
  modify (with_device (fun d => set_channels (<[ch := f st]> (channels d)) d)).

(** [self._last_midi_received = time.time()]: the stamp is the clock of
    the model, the count of the interactions so far. *)
Definition heard (w : World) : World :=
  with_device (set_last_midi_received (clock w)) w.

Definition stamp_midi_received : M unit := modify heard.

(** ** Observations on a trace and on a state *)

(** The values [set_fader] was called with for strip [ch], most recent
    first. *)
Fixpoint set_fader_calls (ch : Z) (tr : list event) : list Z :=
  match tr with
  | [] => []
  | EvSetFader c v :: r =>
      if c =? ch then v :: set_fader_calls ch r else set_fader_calls ch r
  | _ :: r => set_fader_calls ch r
  end.

(** How often [check_connection] was called. *)
Fixpoint check_calls (tr : list event) : nat :=
  match tr with
  | [] => O
  | EvCheckConnection :: r => S (check_calls r)
  | _ :: r => check_calls r
  end.

(** How often [DMXController.connect] was called. *)
Fixpoint dmx_connect_calls (tr : list event) : nat :=
  match tr with
  | [] => O
  | EvDmxConnect :: r => S (dmx_connect_calls r)
  | _ :: r => dmx_connect_calls r
  end.

(** The arguments of the [sendDMX] calls, most recent first. *)
Fixpoint sendDMX_calls (tr : list event) : list (Z * Z) :=
  match tr with
  | [] => []
  | EvSendDMX c v :: r => (c, v) :: sendDMX_calls r
  | _ :: r => sendDMX_calls r
  end.

Definition strip (w : World) (ch : Z) : option ChannelState :=
  channels (device w) !! ch.

(** The range invariant of a strip and of the channel table. *)
Definition in_range (st : ChannelState) : Prop :=
  0 <= fader_value st <= 1000 /\ 0 <= last_stable_value st <= 1000.

Definition range_inv (w : World) : Prop :=
  forall ch st, strip w ch = Some st -> in_range st.

(** The channel table has its eight strips. *)
Definition has_strips (w : World) : Prop :=
  forall ch, 1 <= ch <= 8 -> is_Some (strip w ch).

(** The lighting shadow has its 513 entries, each a fader position. *)
Definition shadow_ok (w : World) : Prop :=
  length (dmx_stored_values (dmx w)) = 513%nat /\
  Forall (fun v => 0 <= v <= 1000) (dmx_stored_values (dmx w)).

(** ** Specifications of computations

    [spec I m Q]: from a state in [I], [m] ends in [I] with a result in
    [Q], whether it returns or raises.  [keeps I m] asks nothing of the
    result. *)
Definition spec {A : Type} (I : World -> Prop) (m : M A) (Q : res A -> Prop) : Prop :=
  forall w, I w -> Q (fst (m w)) /\ I (snd (m w)).

Definition keeps {A : Type} (I : World -> Prop) (m : M A) : Prop :=
  spec I m (fun _ => True).

Definition returns {A : Type} (r : res A) : Prop :=
  match r with Ok _ => True | Raise _ => False end.

(** [m] never raises. *)
Definition sure {A : Type} (m : M A) : Prop := forall w, returns (fst (m w)).

(** What an invariant must tolerate to survive the operations of the
    program.  [FrameIO]: the trace entries (a [set_fader] call only on the
    strips in [okfader], a [check_connection] call only if [okcheck], the
    calls into the lighting sink only if [oklight]), the clock and the
    console client's bookkeeping.  [Frame] adds the lighting state and the
    strip updates other than the touch flag, where the two fader fields and
    the lighting shadow take only values in [okval]. *)
Class FrameIO (I : World -> Prop) (okfader : Z -> Prop) (okcheck oklight : Prop) : Prop := {
  frame_emit : forall e w,
    match e with
    | EvSetFader ch _ => okfader ch
    | EvCheckConnection => okcheck
    | EvSendDMX _ _ | EvSerialWrite _ _ | EvDmxConnect => oklight
    | _ => True
    end -> I w -> I (with_trace (cons e) w);
  frame_advance : forall w, I w -> I (advance w);
  frame_wing : forall f w, I w -> I (with_wing f w)
}.

Class Frame (I : World -> Prop) (okval okfader : Z -> Prop) (okcheck oklight : Prop) : Prop := {
  frame_io :: FrameIO I okfader okcheck oklight;
  frame_ser : forall w, I w ->
    I (with_dmx (fun d => {| ser_open := true;
                             dmx_stored_values := dmx_stored_values d |}) w);
  frame_store : forall k x w, I w -> okval x ->
    I (with_dmx (fun d => {| ser_open := ser_open d;
                             dmx_stored_values := <[k := x]> (dmx_stored_values (dmx w)) |}) w);
  frame_gain : forall ch st g w, I w -> strip w ch = Some st ->
    I (with_device (fun d => set_channels (<[ch := set_gain_db g st]> (channels d)) d) w);
  frame_fader : forall ch st v w, okval v -> I w -> strip w ch = Some st ->
    I (with_device (fun d => set_channels (<[ch := set_fader_value v st]> (channels d)) d) w);
  frame_stable : forall ch st v w, okval v -> I w -> strip w ch = Some st ->
    I (with_device (fun d => set_channels (<[ch := set_last_stable_value v st]> (channels d)) d) w);
  frame_zero : okval 0
}.

(** ** Environments and states used as concrete inputs *)

(** A console that never answers; sends, sockets, the serial port and the
    surface all work. *)
Definition env_silent : Env :=
  {| osc_reply := fun _ _ => Timeout; osc_send_ok := fun _ => true;
     socket_init_ok := fun _ => true; serial_port_ok := fun _ => true;
     surface_alive := fun _ => true; surface_open_ok := fun _ => true |}.

(** A console that answers every query with [v]. *)
Definition env_answering (v : osc_arg) : Env :=
  {| osc_reply := fun _ _ => Answer v; osc_send_ok := fun _ => true;
     socket_init_ok := fun _ => true; serial_port_ok := fun _ => true;
     surface_alive := fun _ => true; surface_open_ok := fun _ => true |}.

(** A console whose mute replies carry an infinite float and which is
    silent otherwise. *)
Definition env_infinite_mute : Env :=
  {| osc_reply := fun _ a =>
       match a with
       | AddrMute _ _ => Answer (OFloat PrimFloat.infinity)
       | _ => Timeout
       end;
     osc_send_ok := fun _ => true;
     socket_init_ok := fun _ => true; serial_port_ok := fun _ => true;
     surface_alive := fun _ => true; surface_open_ok := fun _ => true |}.

(** The state with strip [ch] replaced by [f] of it. *)
Definition alter_strip (f : ChannelState -> ChannelState) (ch : Z) (w : World) : World :=
  with_device (fun d => set_channels (alter f ch (channels d)) d) w.

Section Bridge.

(** Python's [float(s)] on a [str]: [None] stands for [ValueError].  The
    builtin is not part of the repository and is taken as a parameter. *)
Variable float_of_str : string -> option float.

(** The outside world the run takes place in. *)
Variable env : Env.

Definition py_float (v : osc_arg) : res float :=
  match v with
  | OInt n => Ok (float_of_Z n)
  | OFloat f => Ok f
  | OStr s => match float_of_str s with Some f => Ok f | None => Raise ValueError end
  end.

(** [str(v) == lit] for a literal that is not the text of a number. *)
Definition py_str_is (v : osc_arg) (lit : string) : bool :=
  match v with
  | OStr s => if string_dec s lit then true else false
  | _ => false
  end.

(** [str(v).upper() in words], for words none of which is the text of a
    float; of the integers only 1 can be among them. *)
Definition py_str_upper_in (v : osc_arg) (words : list string) : bool :=
  match v with
  | OStr s => bool_decide (str_upper s ∈ words)
  | OInt n => bool_decide (n = 1) && bool_decide ("1"%string ∈ words)
  | OFloat _ => false
  end.

(** [except (ValueError, TypeError): h], other exceptions pass. *)
Definition except_value_type {A : Type} (r : res A) (h : res A) : res A :=
  match r with
  | Raise ValueError | Raise TypeError => h
  | _ => r
  end.

(** ** Curve codec (the conversions inside [WingControl.setFader] and
    [WingControl.getFader]) *)

Definition coef_a : float := (-6e-05)%float.
Definition coef_b : float := 0.1359%float.
Definition coef_c : float := (-62.895)%float.

(** [setFader], from the validation to [db_val].  [b**2] and [pos**2] are
    the correctly rounded products. *)
Definition fader_to_db (fader_1000 : Z) : float :=
  let fader_1000 :=
    if (FADER_MIN <=? fader_1000) && (fader_1000 <=? FADER_MAX) then fader_1000
    else Z.max FADER_MIN (Z.min FADER_MAX fader_1000) in
  if fader_1000 <=? FADER_SILENT_THRESHOLD then (-144.0)%float
  else (coef_a * float_of_Z (fader_1000 * fader_1000)
        + coef_b * float_of_Z fader_1000 + coef_c)%float.

(** [getFader], from a reply that is not [None] to the returned value:
    the [try] block with its [except (ValueError, TypeError)]. *)
Definition db_to_fader (raw_val : osc_arg) : res (option Z) :=
  except_value_type
    (if py_str_is raw_val "-oo" then Ok (Some 0)
     else match py_float raw_val with
          | Raise e => Raise e
          | Ok y =>
              if PrimFloat.leb y (-90.0)%float then Ok (Some 0)
              else
                let discriminant :=
                  (coef_b * coef_b - (float_of_Z 4 * coef_a * (coef_c - y)))%float in
                if PrimFloat.ltb discriminant 0%float then Ok (Some 0)
                else
                  let result :=
                    ((- coef_b + PrimFloat.sqrt discriminant)
                     / (float_of_Z 2 * coef_a))%float in
                  match py_int (py_max (float_of_Z FADER_MIN)
                                       (py_min (float_of_Z FADER_MAX) result)) with
                  | Ok n => Ok (Some n)
                  | Raise e => Raise e
                  end
          end)
    (Ok None).

(** [int((gain / GAIN_MAX) * 11)], the LED-ring position of a gain. *)
Definition ring_value (gain : float) : res Z :=
  py_int (gain / GAIN_MAX * float_of_Z 11)%float.

(** The ring position the specification words give:
    [round(gain / GAIN_MAX * 11)]. *)
Definition ring_index_rounded (gain : float) : res Z :=
  py_round (gain / GAIN_MAX * float_of_Z 11)%float.

(** [max(GAIN_MIN, min(GAIN_MAX, gain))]. *)
Definition clamp_gain (gain : float) : float :=
  py_max GAIN_MIN (py_min GAIN_MAX gain).

(** The mute decoder of [getMute], from a reply that is not [None]. *)
Definition mute_words : list string := ["ON"; "MUTE"; "TRUE"; "1"]%string.

Definition mute_of_reply (val : osc_arg) : res bool :=
  except_value_type
    (match py_float val with
     | Raise e => Raise e
     | Ok f => match py_int f with
               | Ok status => Ok (0 <? status)
               | Raise e => Raise e
               end
     end)
    (Ok (py_str_upper_in val mute_words)).

(** ** WingControl *)

Definition _init_query_socket : M unit :=
  emit EvInitQuerySocket;;
  ok ← interact (socket_init_ok env);
  if ok : bool then mret tt else raise OSError.

Definition _query (a : address) : M (option osc_arg) :=
  emit (EvQuery a);;
  r ← interact (fun n => osc_reply env n a);
  match r with
  | Answer result =>
      modify (with_wing (fun g =>
        {| failed_queries := 0; connection_ok := true;
           working_query_path := working_query_path g |}));;
      mret (Some result)
  | Timeout | Garbled =>
      modify (with_wing (fun g =>
        {| failed_queries := failed_queries g + 1; connection_ok := connection_ok g;
           working_query_path := working_query_path g |}));;
      mret None
  end.

Definition _send_osc (a : address) (value : float) : M bool :=
  emit (EvSendOsc a value);;
  interact (osc_send_ok env).

Definition mark_connected : M unit :=
  modify (with_wing (fun g =>
    {| failed_queries := 0; connection_ok := true;
       working_query_path := working_query_path g |})).

Fixpoint probe_paths (test_paths : list string) : M bool :=
  match test_paths with
  | [] => mret false
  | path :: rest =>
      result ← _query (AddrPath path);
      match result with
      | Some _ =>
          modify (with_wing (fun g =>
            {| failed_queries := 0; connection_ok := true;
               working_query_path := Some path |}));;
          mret true
      | None => probe_paths rest
      end
  end.

Definition check_connection : M bool :=
  emit EvCheckConnection;;
  w ← get_world;
  cached ← match working_query_path (wing w) with
           | Some (String _ _ as path) =>
               result ← _query (AddrPath path);
               match result with
               | Some _ => mark_connected;; mret true
               | None => mret false
               end
           | _ => mret false
           end;
  if cached : bool then mret true
  else
    found ← probe_paths ["/"; "/info/name"; "/info"; "/status"]%string;
    if found : bool then mret true
    else
      modify (with_wing (fun g =>
        {| failed_queries := failed_queries g; connection_ok := false;
           working_query_path := working_query_path g |}));;
      try_except _init_query_socket (fun _ => mret tt);;
      mret false.

Definition setFader (target_type : target) (number fader_1000 : Z) : M bool :=
  _send_osc (AddrFdr target_type number) (fader_to_db fader_1000).

Definition getFader (target_type : target) (number : Z) : M (option Z) :=
  raw_val ← _query (AddrFdr target_type number);
  match raw_val with
  | None => mret None
  | Some v => lift (db_to_fader v)
  end.

Definition getMute (target_type : target) (number : Z) : M bool :=
  val ← _query (AddrMute target_type number);
  match val with
  | None => mret false
  | Some v => lift (mute_of_reply v)
  end.

Definition setGain (source_group : osc_arg) (source_num : Z) (gain_db : float) : M bool :=
  _send_osc (AddrGain source_group source_num) (clamp_gain gain_db).

Definition getChannelInputSource (channel : Z) : M (option (osc_arg * Z)) :=
  grp ← _query (AddrConnGrp channel);
  in_num ← _query (AddrConnIn channel);
  match grp, in_num with
  | Some g, Some i =>
      lift (except_value_type
              (match py_float i with
               | Raise e => Raise e
               | Ok f => match py_int f with
                         | Ok n => Ok (Some (g, n))
                         | Raise e => Raise e
                         end
               end)
              (Ok None))
  | _, _ => mret None
  end.

Definition getGain (source_group : osc_arg) (source_num : Z) : M (option float) :=
  raw_val ← _query (AddrGain source_group source_num);
  match raw_val with
  | None => mret None
  | Some v =>
      lift (except_value_type
              (match py_float v with
               | Raise e => Raise e
               | Ok gain => Ok (Some (clamp_gain gain))
               end)
              (Ok None))
  end.

Definition setMute (target_type : target) (number : Z) (state : bool) : M bool :=
  _send_osc (AddrMute target_type number) (if state then 1.0%float else 0.0%float).

(** ** XTouchExtender: the outbound side *)

(** [is_connected] compares the wall clock with [_last_midi_received] and
    tests the port flags; the model has no wall clock, and the environment
    decides the outcome. *)
Definition is_connected : M bool := interact (surface_alive env).

Definition in_1_8 (ch : Z) : bool := (1 <=? ch) && (ch <=? 8).

(** [mido.Message] accepts a data byte only within 0..127 and raises
    [ValueError] otherwise. *)
Definition data_byte (v : Z) : bool := (0 <=? v) && (v <=? 127).

(** The [try] of [set_text] catches what [mido.Message] raises on a
    character code above 127: nothing is sent then. *)
Definition set_text (ch : Z) (text : string) : M unit :=
  when (in_1_8 ch)
    (let data := ([0; 0; 102; 21; 18; (ch - 1) * 7] ++ ljust7 text)%list in
     if forallb data_byte data then emit (EvMidiOut (Sysex data)) else mret tt).

Definition set_fader (ch val : Z) : M unit :=
  emit (EvSetFader ch val);;
  when (in_1_8 ch)
    (let val := Z.max FADER_MIN (Z.min FADER_MAX val) in
     match py_int (float_of_Z val / float_of_Z FADER_MAX * float_of_Z 16383)%float with
     | Ok p => emit (EvMidiOut (Pitchwheel (ch - 1) (p - 8192)))
     | Raise _ => mret tt
     end).

(** Likewise the [try] of [set_encoder_ring], when the encoded value is
    no data byte (a mode above 7 or below 0). *)
Definition set_encoder_ring (ch value mode : Z) : M unit :=
  emit (EvSetEncoderRing ch value mode);;
  when (in_1_8 ch)
    (let cc_num := 47 + ch in
     let encoded_value := Z.lor (Z.shiftl mode 4) (Z.land value 15) in
     if data_byte encoded_value then emit (EvMidiOut (ControlChange cc_num encoded_value))
     else mret tt).

Definition button_note (btn : button) : Z :=
  match btn with Rec => 0 | Solo => 8 | Mute => 16 | Select => 24 end.

Definition set_led (ch : Z) (btn : button) (state : bool) : M unit :=
  emit (EvSetLed ch btn state);;
  when (in_1_8 ch)
    (let note := button_note btn + ch - 1 in
     let velocity := if state then 127 else 0 in
     emit (EvMidiOut (NoteOn note velocity))).

Definition color_index (color_name : string) : Z :=
  let name := str_lower color_name in
  if string_dec name "black" then 0
  else if string_dec name "red" then 1
  else if string_dec name "green" then 2
  else if string_dec name "yellow" then 3
  else if string_dec name "blue" then 4
  else if string_dec name "magenta" then 5
  else if string_dec name "cyan" then 6
  else 7.

Definition set_color (ch : Z) (color_name : string) : M unit :=
  when (in_1_8 ch)
    (emit (EvMidiOut (Sysex [0; 0; 102; 21; 114; ch - 1; color_index color_name]))).

Definition page_texts (page : Z) : list string :=
  if page =? 0 then ["Mic 1"; "Mic 2"; "Beamer"; "BT"; "Saal"; "Foyer"; "PA-Ext"; "Licht"]
  else if page =? 1 then ["In 1"; "In 2"; "In 3"; "In 4"; "In 5"; "In 6"; "In 7"; "In 8"]
  else if page =? 2 then
    ["In 9"; "In 10"; "In 11"; "In 12"; "In 13"; "In 14"; "In 15"; "In 16"]
  else if page =? 3 then
    ["Licht L1"; "Licht L2"; "Licht R1"; "Licht R2"; "DMX 5"; "DMX 6"; "DMX 7"; "DMX 8"]
  else replicate 8 ""%string.

Definition page_colors (page : Z) : list string :=
  if page =? 0 then
    ["cyan"; "cyan"; "green"; "blue"; "white"; "yellow"; "yellow"; "magenta"]
  else if page =? 1 then replicate 8 "red"%string
  else if page =? 2 then replicate 8 "green"%string
  else if page =? 3 then replicate 8 "magenta"%string
  else replicate 8 "white"%string.

Fixpoint enumerate_from {A : Type} (i : Z) (l : list A) : list (Z * A) :=
  match l with
  | [] => []
  | x :: r => (i, x) :: enumerate_from (i + 1) r
  end.

Definition update_page_display (page : Z) : M unit :=
  for_each (enumerate_from 1 (zip (page_texts page) (page_colors page)))
    (fun '(i, (text, color)) => set_text i text;; set_color i color).

(** ** DMXController *)

Definition dmx_connect : M bool :=
  emit EvDmxConnect;;
  ok ← interact (serial_port_ok env);
  if ok : bool then
    modify (with_dmx (fun d =>
      {| ser_open := true; dmx_stored_values := dmx_stored_values d |}));;
    mret true
  else mret false.

Definition sendDMX (channel value_1000 : Z) : M unit :=
  emit (EvSendDMX channel value_1000);;
  w ← get_world;
  when (ser_open (dmx w))
    (val_255 ← lift (py_int (float_of_Z (Z.max 0 (Z.min 1000 value_1000) * 255)
                             / float_of_Z 1000)%float);
     stored ← lift (py_setitem (dmx_stored_values (dmx w)) channel value_1000);
     modify (with_dmx (fun d =>
       {| ser_open := ser_open d; dmx_stored_values := stored |}));;
     emit (EvSerialWrite channel val_255)).

Definition getDMX (channel : Z) : M Z :=
  w ← get_world;
  v ← lift (py_getitem (dmx_stored_values (dmx w)) channel);
  if (0 <=? v) && (v <=? 1000) then mret v else mret 0.

Definition getSaallicht : M Z :=
  w ← get_world;
  let stored := dmx_stored_values (dmx w) in
  v1 ← lift (py_getitem stored 1);
  v2 ← lift (py_getitem stored 2);
  v3 ← lift (py_getitem stored 3);
  v4 ← lift (py_getitem stored 4);
  lift (py_int (float_of_Z (0 + v1 + v2 + v3 + v4) / float_of_Z 4)%float).

(** ** XTouchExtender: page refresh *)

Definition update_page_mutes (page : Z) : M unit :=
  try_except
    (if page =? 0 then
       for_each (range 1 5) (fun ch =>
         muted ← getMute Ch ch; set_led ch Mute muted);;
       set_led 5 Mute false;;
       for_each [5; 6; 7] (fun ch =>
         muted ← getMute Mtx (ch - 4); set_led ch Mute muted);;
       set_led 8 Mute false
     else if page =? 1 then
       for_each (range 1 9) (fun ch =>
         muted ← getMute Ch (ch + 8); set_led ch Mute muted)
     else if page =? 2 then
       for_each (range 1 9) (fun ch =>
         muted ← getMute Ch (ch + 16); set_led ch Mute muted)
     else
       for_each (range 1 9) (fun ch => set_led ch Mute false))
    (fun _ => mret tt).

(** The block [update_page_faders] repeats for every console strip. *)
Definition refresh_fader (target_type : target) (ch number : Z) : M unit :=
  val ← getFader target_type number;
  match val with
  | Some val =>
      set_fader ch val;;
      assign_channel ch (set_fader_value val);;
      assign_channel ch (set_last_stable_value val)
  | None => mret tt
  end.

Definition update_page_faders (page : Z) : M unit :=
  try_except
    (if page =? 0 then
       for_each (range 1 5) (fun ch => refresh_fader Ch ch ch);;
       set_fader 5 0;;
       for_each [(5, 1); (6, 2); (7, 3)] (fun '(ch, mtx_num) => refresh_fader Mtx ch mtx_num);;
       avg ← getSaallicht;
       set_fader 8 avg
     else if page =? 1 then
       for_each (range 1 9) (fun ch => refresh_fader Ch ch (ch + 8))
     else if page =? 2 then
       for_each (range 1 9) (fun ch => refresh_fader Ch ch (ch + 16))
     else if page =? 3 then
       for_each (range 1 9) (fun ch =>
         _ ← getDMX ch;
         v ← getDMX ch;
         set_fader ch v)
     else mret tt)
    (fun _ => mret tt).

(** The gain block of the select handler, of the start-up and of the
    reconnect refresh: read the routing of [wing_ch], then the gain of its
    source, store it and show it on the ring. *)
Definition load_gain (ch wing_ch : Z) : M unit :=
  source ← getChannelInputSource wing_ch;
  match source with
  | Some (grp, num) =>
      gain ← getGain grp num;
      match gain with
      | Some gain =>
          assign_channel ch (set_gain_db gain);;
          ring ← lift (ring_value gain);
          set_encoder_ring ch ring 1
      | None => mret tt
      end
  | None => mret tt
  end.

(** The loop [for i in range(1, 9)] that computes [wing_ch] from the page
    and loads the gain, as the select handler and the reconnect refresh
    have it. *)
Definition load_page_gains : M unit :=
  w ← get_world;
  when (bool_decide (selected_page (device w) ∈ [0; 1; 2]))
    (for_each (range 1 9) (fun i =>
       w ← get_world;
       let page := selected_page (device w) in
       if (page =? 0) && (i <=? 4) then load_gain i i
       else if page =? 1 then load_gain i (i + 8)
       else if page =? 2 then load_gain i (i + 16)
       else mret tt)).

(** ** The reconciliation loop *)

(** The gain block of [sync_gain_for_page]: as [load_gain], but only when
    the gain moved by more than 0.5 dB. *)
Definition sync_gain_strip (ch wing_ch : Z) : M unit :=
  source ← getChannelInputSource wing_ch;
  match source with
  | Some (grp, num) =>
      gain ← getGain grp num;
      match gain with
      | Some gain =>
          st ← channel ch;
          if PrimFloat.ltb 0.5%float (PrimFloat.abs (gain - gain_db st)%float) then
            assign_channel ch (set_gain_db gain);;
            ring ← lift (ring_value gain);
            set_encoder_ring ch ring 1
          else mret tt
      | None => mret tt
      end
  | None => mret tt
  end.

Definition sync_gain_for_page (page : Z) : M unit :=
  try_except
    (if page =? 0 then for_each (range 1 5) (fun ch => sync_gain_strip ch ch)
     else if page =? 1 then for_each (range 1 9) (fun ch => sync_gain_strip ch (ch + 8))
     else if page =? 2 then for_each (range 1 9) (fun ch => sync_gain_strip ch (ch + 16))
     else mret tt)
    (fun _ => mret tt).

(** The fader half of the block [sync_loop] repeats for every console
    strip (lines 927-934 and their three copies). *)
Definition sync_fader (target_type : target) (ch number : Z) : M unit :=
  st ← channel ch;
  if negb (is_touched st) then
    wing_fader ← getFader target_type number;
    match wing_fader with
    | Some wing_fader =>
        st ← channel ch;
        let current := fader_value st in
        when (FADER_DEADBAND <? Z.abs (wing_fader - current))
          (set_fader ch wing_fader);;
        assign_channel ch (set_fader_value wing_fader);;
        assign_channel ch (set_last_stable_value wing_fader)
    | None => mret tt
    end
  else mret tt.

(** The mute half of the same block. *)
Definition sync_mute (target_type : target) (ch number : Z) : M unit :=
  muted ← getMute target_type number;
  set_led ch Mute muted.

Definition sync_strip (target_type : target) (ch number : Z) : M unit :=
  sync_fader target_type ch number;;
  sync_mute target_type ch number.

(** The body of the [try] of one iteration of [sync_loop]: [false] when
    the iteration is skipped by [continue], [true] when it runs through. *)
Definition sync_body : M bool :=
  connected ← is_connected;
  if negb connected then mret false
  else
    w ← get_world;
    let page := selected_page (device w) in
    sync_gain_for_page page;;
    (if page =? 0 then
       for_each (range 1 5) (fun ch => sync_strip Ch ch ch);;
       for_each [(5, 1); (6, 2); (7, 3)] (fun '(ch, mtx_num) => sync_strip Mtx ch mtx_num);;
       avg ← getSaallicht;
       set_fader 8 avg
     else if page =? 1 then
       for_each (range 1 9) (fun ch => sync_strip Ch ch (ch + 8))
     else if page =? 2 then
       for_each (range 1 9) (fun ch => sync_strip Ch ch (ch + 16))
     else mret tt);;
    mret true.

(** One iteration of the [while True] of [sync_loop]; the local variable
    [consecutive_errors] goes in and comes out. *)
Definition sync_iteration (consecutive_errors : Z) : M Z :=
  try_except
    (completed ← sync_body;
     if completed : bool then mret 0 else mret consecutive_errors)
    (fun _ =>
       let consecutive_errors := consecutive_errors + 1 in
       if MAX_SYNC_RETRIES <=? consecutive_errors then
         check_connection;;
         mret 0
       else mret consecutive_errors).

Fixpoint sync_loop (iterations : nat) (consecutive_errors : Z) : M Z :=
  match iterations with
  | O => mret consecutive_errors
  | S n =>
      consecutive_errors ← sync_iteration consecutive_errors;
      sync_loop n consecutive_errors
  end.

(** ** The event handlers of [main] *)

Definition toggle_mute (target_type : target) (ch number : Z) : M unit :=
  current_mute ← getMute target_type number;
  let new_state := negb current_mute in
  setMute target_type number new_state;;
  set_led ch Mute new_state.

Definition on_button (ch : Z) (btn : button) (state : bool) : M unit :=
  if negb state then mret tt
  else
    w ← get_world;
    let page := selected_page (device w) in
    match btn with
    | Mute =>
        if page =? 0 then
          if ch <=? 4 then toggle_mute Ch ch ch
          else if bool_decide (ch ∈ [5; 6; 7]) then toggle_mute Mtx ch (ch - 4)
          else mret tt
        else if page =? 1 then toggle_mute Ch ch (ch + 8)
        else if page =? 2 then toggle_mute Ch ch (ch + 16)
        else mret tt
    | Select =>
        for_each (range 1 9) (fun i =>
          set_led i Select false;;
          set_encoder_ring i 0 0;;
          assign_channel i (set_fader_value 0);;
          assign_channel i (set_last_stable_value 0));;
        modify (with_device (set_selected_page (ch - 1)));;
        set_led ch Select true;;
        update_page_display (ch - 1);;
        update_page_faders (ch - 1);;
        update_page_mutes (ch - 1);;
        load_page_gains
    | _ => mret tt
    end.

Definition on_encoder (ch delta : Z) : M unit :=
  w ← get_world;
  let page := selected_page (device w) in
  let wing_ch :=
    if (page =? 0) && (ch <=? 4) then Some ch
    else if page =? 1 then Some (ch + 8)
    else if page =? 2 then Some (ch + 16)
    else None in
  match wing_ch with
  | None => mret tt
  | Some wing_ch =>
      source ← getChannelInputSource wing_ch;
      match source with
      | None => mret tt
      | Some (grp, num) =>
          st ← channel ch;
          let current_gain := gain_db st in
          let new_gain :=
            if 0 <? delta then (current_gain + GAIN_STEP)%float
            else (current_gain - GAIN_STEP)%float in
          let new_gain := clamp_gain new_gain in
          sent ← setGain grp num new_gain;
          if sent : bool then
            assign_channel ch (set_gain_db new_gain);;
            ring ← lift (ring_value new_gain);
            set_encoder_ring ch ring 1
          else mret tt
      end
  end.

Definition on_fader (ch val : Z) : M unit :=
  st ← channel ch;
  let last_val := last_stable_value st in
  if Z.abs (val - last_val) <? FADER_DEADBAND then mret tt
  else
    assign_channel ch (set_last_stable_value val);;
    w ← get_world;
    let page := selected_page (device w) in
    if page =? 0 then
      if ch <=? 4 then _ ← setFader Ch ch val; mret tt
      else if ch =? 5 then _ ← setFader Mtx 1 val; mret tt
      else if ch =? 6 then _ ← setFader Mtx 2 val; mret tt
      else if ch =? 7 then _ ← setFader Mtx 3 val; mret tt
      else if ch =? 8 then for_each (range 1 5) (fun i => sendDMX i val)
      else mret tt
    else if page =? 1 then _ ← setFader Ch (ch + 8) val; mret tt
    else if page =? 2 then _ ← setFader Ch (ch + 16) val; mret tt
    else if page =? 3 then sendDMX ch val;; set_fader ch val
    else mret tt.

(** ** XTouchExtender: the inbound side *)

(** [int((msg.pitch + 8192) / 16383.0 * FADER_MAX)]. *)
Definition pitch_to_fader (pitch : Z) : res Z :=
  py_int (float_of_Z (pitch + 8192) / 16383.0 * float_of_Z FADER_MAX)%float.

(** The relative-encoder decoding of a control-change value. *)
Definition encoder_delta (value : Z) : Z :=
  if 64 <? value then value - 128
  else if value <? 64 then value
  else 0.

Definition on_note (note : Z) (state : bool) : M unit :=
  if (104 <=? note) && (note <=? 111) then
    assign_channel (note - 103) (set_is_touched state)
  else if (0 <=? note) && (note <=? 7) then on_button (note + 1) Rec state
  else if (8 <=? note) && (note <=? 15) then on_button (note - 7) Solo state
  else if (16 <=? note) && (note <=? 23) then on_button (note - 15) Mute state
  else if (24 <=? note) && (note <=? 31) then on_button (note - 23) Select state
  else mret tt.

Definition _input_callback (msg : midi_msg) : M unit :=
  try_except
    (stamp_midi_received;;
     match msg with
     | Pitchwheel msg_channel pitch =>
         let ch := msg_channel + 1 in
         val ← lift (pitch_to_fader pitch);
         st ← channel ch;
         if is_touched st || bool_decide (ch ∈ [5; 7]) then on_fader ch val
         else mret tt
     | ControlChange control value =>
         if (16 <=? control) && (control <=? 23) then
           on_encoder (control - 15) (encoder_delta value)
         else mret tt
     | NoteOn note velocity => on_note note (0 <? velocity)
     | NoteOff note _ => on_note note false
     | Sysex _ => mret tt
     end)
    (fun _ => mret tt).

(** ** The supervisor loop of [main] *)

Definition _init_display : M unit :=
  for_each (range 1 9) (fun ch =>
    for_each [Rec; Solo; Mute; Select] (fun btn => set_led ch btn false));;
  set_led 1 Select true;;
  update_page_display 0.

Definition surface_open : M bool :=
  emit EvSurfaceOpen;;
  ok ← interact (surface_open_ok env);
  if ok : bool then stamp_midi_received;; _init_display;; mret true else mret false.

Definition reconnect : M bool :=
  success ← surface_open;
  (if success : bool then
     w ← get_world;
     update_page_display (selected_page (device w));;
     set_led (selected_page (device w) + 1) Select true
   else mret tt);;
  mret success.

(** The two-second surface check; [xtouch_reconnect_attempts] goes in and
    comes out. *)
Definition surface_check (xtouch_reconnect_attempts : Z) : M Z :=
  connected ← is_connected;
  if connected : bool then mret xtouch_reconnect_attempts
  else
    success ← reconnect;
    if success : bool then
      w ← get_world;
      update_page_faders (selected_page (device w));;
      update_page_mutes (selected_page (device w));;
      load_page_gains;;
      mret 0
    else
      let attempts := xtouch_reconnect_attempts + 1 in
      if 5 <=? attempts then mret 0 else mret attempts.

(** The sixty-second console check (lines 1336-1344). *)
Definition connection_check : M unit :=
  alive ← check_connection;
  (if negb alive then for_each (range 1 513) (fun i => sendDMX i 0) else mret tt);;
  reopened ← dmx_connect;
  mret tt.

(** What the fader reads of the console can return: every position that
    [getFader] decodes from a reply lies in [okval]. *)
Definition fader_reads (okval : Z -> Prop) : Prop :=
  forall n t k v q,
    osc_reply env n (AddrFdr t k) = Answer v ->
    db_to_fader v = Ok (Some q) -> okval q.

(** Console reads are clamped. *)
Definition reads_clamped : Prop := fader_reads (fun q => 0 <= q <= 1000).

(** The console does not answer: every query times out. *)
Definition console_silent : Prop := forall n a, osc_reply env n a = Timeout.

(** An iteration of the reconciliation loop fails: an exception leaves the
    body of its [try]. *)
Definition tick_fails (w : World) : Prop := exists e, fst (sync_body w) = Raise e.

(** The state is well formed: eight strips, and a shadow of 513 fader
    positions. *)
Definition well_formed (w : World) : Prop := has_strips w /\ shadow_ok w.

(** What a console query leaves alone, seen from strip [ch]: the surface
    state and the [set_fader] calls on the strip. *)
Definition strip_undisturbed (ch : Z) (w0 : World) (w : World) : Prop :=
  device w = device w0 /\
  set_fader_calls ch (trace w) = set_fader_calls ch (trace w0).

(** What [check_connection] leaves alone. *)
Definition lighting_untouched (w0 : World) (w : World) : Prop :=
  dmx w = dmx w0 /\
  sendDMX_calls (trace w) = sendDMX_calls (trace w0) /\
  dmx_connect_calls (trace w) = dmx_connect_calls (trace w0).

(** Strip [c] is held, and the [set_fader] calls on it are those of [w0]. *)
Definition held_strip_quiet (c : Z) (w0 : World) (w : World) : Prop :=
  (exists st, strip w c = Some st /\ is_touched st = true) /\
  selected_page (device w) = selected_page (device w0) /\
  set_fader_calls c (trace w) = set_fader_calls c (trace w0).

(** The [set_fader] calls on strip [c] are those of [w0]. *)
Definition fader_calls_kept (c : Z) (w0 : World) (w : World) : Prop :=
  set_fader_calls c (trace w) = set_fader_calls c (trace w0).

(** The console target of a strip's mute button on a page, as [on_button]
    dispatches it. *)
Definition mute_target (page ch : Z) : option (target * Z) :=
  if page =? 0 then
    if ch <=? 4 then Some (Ch, ch)
    else if bool_decide (ch ∈ [5; 6; 7]) then Some (Mtx, ch - 4)
    else None
  else if page =? 1 then Some (Ch, ch + 8)
  else if page =? 2 then Some (Ch, ch + 16)
  else None.

(** A reply that gives [getMute] nothing to read: none in time, one that
    cannot be decoded, or a text that is neither a number nor one of the
    mute words. *)
Definition unreadable (r : reply) : Prop :=
  match r with
  | Timeout | Garbled => True
  | Answer (OStr s) => float_of_str s = None /\ str_upper s ∉ mute_words
  | Answer _ => False
  end.

(** The trace a mute press leaves that found the console unreadable. *)
Definition mute_press_trace (ch : Z) (t : target) (n : Z) : list event :=
  ((if in_1_8 ch then [EvMidiOut (NoteOn (button_note Mute + ch - 1) 127)] else [])
   ++ [EvSetLed ch Mute true; EvSendOsc (AddrMute t n) 1.0%float;
       EvQuery (AddrMute t n)])%list.

(** The console channel an encoder of a page stands for, as [on_encoder]
    dispatches it. *)
Definition encoder_wing_ch (page ch : Z) : option Z :=
  if (page =? 0) && (ch <=? 4) then Some ch
  else if page =? 1 then Some (ch + 8)
  else if page =? 2 then Some (ch + 16)
  else None.

(** The gain the specification words give: one step per unit of delta. *)
Definition gain_per_delta_unit (current_gain : float) (delta : Z) : float :=
  clamp_gain (current_gain + float_of_Z delta * GAIN_STEP)%float.

(** [GAIN_MIN <= g <= GAIN_MAX], as the float comparisons decide it. *)
Definition gain_in_range (g : float) : bool :=
  PrimFloat.leb GAIN_MIN g && PrimFloat.leb g GAIN_MAX.

(** The console fader a strip's fader stands for on a page, as [on_fader]
    dispatches it. *)
Definition fader_target (page ch : Z) : option (target * Z) :=
  if page =? 0 then
    if ch <=? 4 then Some (Ch, ch)
    else if ch =? 5 then Some (Mtx, 1)
    else if ch =? 6 then Some (Mtx, 2)
    else if ch =? 7 then Some (Mtx, 3)
    else None
  else if page =? 1 then Some (Ch, ch + 8)
  else if page =? 2 then Some (Ch, ch + 16)
  else None.

(** What a query does to the console client's bookkeeping. *)
Definition wing_after (r : reply) (g : WingControl) : WingControl :=
  match r with
  | Answer _ =>
      {| failed_queries := 0; connection_ok := true;
         working_query_path := working_query_path g |}
  | Timeout | Garbled =>
      {| failed_queries := failed_queries g + 1; connection_ok := connection_ok g;
         working_query_path := working_query_path g |}
  end.

(** The value a query returns for a reply. *)
Definition reply_value (r : reply) : option osc_arg :=
  match r with Answer v => Some v | Timeout | Garbled => None end.

(** The inbound messages [_input_callback] drops in a state: a fader move
    on a strip that is not touched and is not strip 5 or 7, or on a strip
    the table does not have; a control change that is no encoder; a note
    that is no button and no touch sensor; a rec or solo button; the
    release of any button; a system-exclusive message. *)
Definition dropped (w : World) (msg : midi_msg) : Prop :=
  match msg with
  | Pitchwheel msg_channel _ =>
      match strip w (msg_channel + 1) with
      | Some st => is_touched st = false /\ msg_channel + 1 <> 5 /\ msg_channel + 1 <> 7
      | None => True
      end
  | ControlChange control _ => control < 16 \/ 23 < control
  | NoteOn note velocity =>
      (note < 104 \/ 111 < note) /\ (note < 16 \/ 31 < note \/ velocity <= 0)
  | NoteOff note _ => note < 104 \/ 111 < note
  | Sysex _ => True
  end.

(** The selected page is [p]. *)
Definition page_is (p : Z) (w : World) : Prop := selected_page (device w) = p.

(** [m] adds to the trace only events in [P]. *)
Definition emits {A : Type} (P : event -> Prop) (m : M A) : Prop :=
  forall w, exists l, trace (snd (m w)) = (l ++ trace w)%list /\ Forall P l.

(** The positions of an encoder ring: one of its twelve LEDs in mode 1, or
    the ring cleared in mode 0. *)
Definition ring_pos_ok (value mode : Z) : Prop :=
  (mode = 1 /\ 0 <= value <= 11) \/ (mode = 0 /\ value = 0).

(** The MIDI messages of the surface driver, each field within the range
    the surface has for it: a pitch bend on one of the eight channels with
    a 14-bit pitch, the control change of an encoder ring, the note of a
    button LED with velocity 0 or 127, a system-exclusive message of
    seven-bit data bytes. *)
Definition midi_ok (m : midi_msg) : Prop :=
  match m with
  | Pitchwheel msg_channel pitch => 0 <= msg_channel <= 7 /\ -8192 <= pitch <= 8191
  | ControlChange control value => 48 <= control <= 55 /\ 0 <= value <= 127
  | NoteOn note velocity => 0 <= note <= 31 /\ (velocity = 0 \/ velocity = 127)
  | NoteOff _ _ => False
  | Sysex data => Forall (fun b => 0 <= b <= 127) data
  end.

(** What goes out: every ring position and every MIDI message is well
    formed; a write to the console, to the lighting sink or a reopening of
    a link only if [writes]. *)
Definition wire_ok (writes : Prop) (e : event) : Prop :=
  match e with
  | EvSetEncoderRing _ value mode => ring_pos_ok value mode
  | EvMidiOut m => midi_ok m
  | EvSendOsc _ _ | EvSendDMX _ _ | EvSerialWrite _ _ | EvDmxConnect | EvSurfaceOpen =>
      writes
  | _ => True
  end.

(** The same with the cleared ring only if [clears]. *)
Definition sent_ok (writes clears : Prop) (e : event) : Prop :=
  match e with
  | EvSetEncoderRing _ value mode =>
      (mode = 1 /\ 0 <= value <= 11) \/ (clears /\ mode = 0 /\ value = 0)
  | EvMidiOut m => midi_ok m
  | EvSendOsc _ _ | EvSendDMX _ _ | EvSerialWrite _ _ | EvDmxConnect | EvSurfaceOpen =>
      writes
  | _ => True
  end.

(** What a reader of the console leaves on the trace: queries, the
    connectivity check with the query socket it may set up anew, and
    commands to the surface, each ring position one of 0..11 in mode 1;
    no write to the console, nothing to the lighting sink, no reopening of
    the lighting link or of the surface. *)
Definition read_only (e : event) : Prop :=
  match e with
  | EvQuery _ | EvCheckConnection | EvInitQuerySocket => True
  | EvSetFader _ _ | EvSetLed _ _ _ => True
  | EvSetEncoderRing _ value mode => mode = 1 /\ 0 <= value <= 11
  | EvMidiOut m => midi_ok m
  | EvSendOsc _ _ | EvSendDMX _ _ | EvSerialWrite _ _ | EvDmxConnect | EvSurfaceOpen =>
      False
  end.

(** A display text whose seven characters are seven-bit codes. *)
Definition text_ok (text : string) : Prop :=
  Forall (fun b => 0 <= b <= 127) (ljust7 text).

(** ** Reasoning rules *)

Lemma bind_run {A B : Type} (m : M A) (k : A -> M B) (w : World) :
  (m ≫= k) w = match m w with
               | (Ok a, w') => k a w'
               | (Raise e, w') => (Raise e, w')
               end.
Proof. reflexivity. Qed.

Lemma bind_ok {A B : Type} (m : M A) (k : A -> M B) (w w' : World) (a : A) :
  m w = (Ok a, w') -> (m ≫= k) w = k a w'.
Proof. intros H. rewrite bind_run, H. reflexivity. Qed.

Lemma bind_raise {A B : Type} (m : M A) (k : A -> M B) (w w' : World) (e : exn) :
  m w = (Raise e, w') -> (m ≫= k) w = (Raise e, w').
Proof. intros H. rewrite bind_run, H. reflexivity. Qed.

Lemma bind_ok_inv {A B : Type} (m : M A) (k : A -> M B) (w w' : World) (b : B) :
  (m ≫= k) w = (Ok b, w') ->
  exists a w1, m w = (Ok a, w1) /\ k a w1 = (Ok b, w').
Proof.
  rewrite bind_run. destruct (m w) as [[a|e] w1]; intros H.
  - exists a, w1. split; [reflexivity | exact H].
  - discriminate.
Qed.

Lemma spec_weaken {A : Type} (I : World -> Prop) (m : M A) (Q Q' : res A -> Prop) :
  spec I m Q -> (forall r, Q r -> Q' r) -> spec I m Q'.
Proof. intros H HQ w Hw. destruct (H w Hw). split; auto. Qed.

Lemma spec_keeps {A : Type} (I : World -> Prop) (m : M A) (Q : res A -> Prop) :
  spec I m Q -> keeps I m.
Proof. intros H. apply (spec_weaken _ _ _ _ H). trivial. Qed.

Lemma spec_ret {A : Type} (I : World -> Prop) (a : A) (Q : res A -> Prop) :
  Q (Ok a) -> spec I (mret a) Q.
Proof. intros H w Hw. split; assumption. Qed.

Lemma spec_bind {A B : Type} (I : World -> Prop) (m : M A) (k : A -> M B)
    (Q : res A -> Prop) (R : res B -> Prop) :
  spec I m Q ->
  (forall a, Q (Ok a) -> spec I (k a) R) ->
  (forall e, Q (Raise e) -> R (Raise e)) ->
  spec I (m ≫= k) R.
Proof.
  intros Hm Hk He w Hw. rewrite bind_run.
  destruct (Hm w Hw) as [HQ HI]. destruct (m w) as [[a|e] w1]; simpl in *.
  - apply (Hk a HQ w1 HI).
  - split; auto.
Qed.

Lemma keeps_ret {A : Type} (I : World -> Prop) (a : A) : keeps I (mret a).
Proof. apply spec_ret. exact Logic.I. Qed.

Lemma keeps_bind {A B : Type} (I : World -> Prop) (m : M A) (k : A -> M B) :
  keeps I m -> (forall a, keeps I (k a)) -> keeps I (m ≫= k).
Proof.
  intros Hm Hk. apply (spec_bind I m k (fun _ => True));
    [exact Hm | intros a _; apply Hk | trivial].
Qed.

Lemma keeps_raise {A : Type} (I : World -> Prop) (e : exn) : keeps I (@raise A e).
Proof. intros w Hw. split; [exact Logic.I | exact Hw]. Qed.

Lemma keeps_lift {A : Type} (I : World -> Prop) (r : res A) : keeps I (lift r).
Proof. intros w Hw. split; [exact Logic.I | exact Hw]. Qed.

Lemma keeps_get_world (I : World -> Prop) : keeps I get_world.
Proof. intros w Hw. split; [exact Logic.I | exact Hw]. Qed.

Lemma keeps_try {A : Type} (I : World -> Prop) (m : M A) (h : exn -> M A) :
  keeps I m -> (forall e, keeps I (h e)) -> keeps I (try_except m h).
Proof.
  intros Hm Hh w Hw. unfold try_except.
  destruct (Hm w Hw) as [_ HI]. destruct (m w) as [[a|e] w1]; simpl in *.
  - split; [exact Logic.I | exact HI].
  - apply (Hh e w1 HI).
Qed.

Lemma keeps_for_each {A : Type} (I : World -> Prop) (l : list A) (body : A -> M unit) :
  (forall x, In x l -> keeps I (body x)) -> keeps I (for_each l body).
Proof.
  induction l as [|x r IH]; intros H; simpl.
  - apply keeps_ret.
  - apply keeps_bind.
    + apply H. left. reflexivity.
    + intros _. apply IH. intros y Hy. apply H. right. exact Hy.
Qed.

Lemma keeps_when (I : World -> Prop) (b : bool) (m : M unit) :
  (b = true -> keeps I m) -> keeps I (when b m).
Proof. intros H. destruct b; simpl; [auto | apply keeps_ret]. Qed.

Lemma keeps_modify (I : World -> Prop) (f : World -> World) :
  (forall w, I w -> I (f w)) -> keeps I (modify f).
Proof. intros H w Hw. split; [exact Logic.I | apply H, Hw]. Qed.

Ltac keeps_step :=
  match goal with
  | |- keeps _ (mret _) => apply keeps_ret
  | |- keeps _ (_ ≫= _) => apply keeps_bind; [|intros ?]
  | |- keeps _ (for_each _ _) => apply keeps_for_each; intros ? ?
  | |- keeps _ (when _ _) => apply keeps_when; intros ?
  | |- keeps _ (try_except _ _) => apply keeps_try; [|intros ?]
  | |- keeps _ (lift _) => apply keeps_lift
  | |- keeps _ (raise _) => apply keeps_raise
  | |- keeps _ get_world => apply keeps_get_world
  | |- keeps _ (if ?b then _ else _) => destruct b
  | |- keeps _ (match ?x with _ => _ end) => destruct x
  | |- keeps _ (let '(_, _) := ?x in _) => destruct x
  | |- spec ?I ?m (fun _ => True) => change (keeps I m)
  end.

Create HintDb keeps.

(** [I (snd (m w))] from a preservation lemma for [m]. *)
Ltac by_keeps lem :=
  match goal with
  | |- ?I (snd (?m ?w)) =>
      let H := fresh in
      assert (H : keeps I m) by (eapply lem; eauto);
      exact (proj2 (H w ltac:(assumption)))
  end.

Ltac keeps_auto := repeat (keeps_step || (progress eauto with keeps)).

Section KeepingIO.

Context {I : World -> Prop} {okval okfader : Z -> Prop} {okcheck oklight : Prop}.
Context `{!FrameIO I okfader okcheck oklight}.

Lemma keeps_emit (e : event) :
  match e with
  | EvSetFader ch _ => okfader ch
  | EvCheckConnection => okcheck
  | EvSendDMX _ _ | EvSerialWrite _ _ | EvDmxConnect => oklight
  | _ => True
  end -> keeps I (emit e).
Proof. intros He. apply keeps_modify. intros w. apply frame_emit, He. Qed.

Lemma keeps_interact {A : Type} (f : nat -> A) : keeps I (interact f).
Proof. intros w Hw. split; [exact Logic.I | apply frame_advance, Hw]. Qed.

Lemma keeps_channel (ch : Z) : keeps I (channel ch).
Proof.
  intros w Hw. unfold channel.
  destruct (channels (device w) !! ch); split; trivial.
Qed.

Lemma keeps_wing (f : WingControl -> WingControl) : keeps I (modify (with_wing f)).
Proof. apply keeps_modify. intros w. apply frame_wing. Qed.

#[local] Hint Resolve keeps_interact keeps_channel keeps_wing : keeps.
#[local] Hint Extern 1 (keeps _ (emit _)) => (apply keeps_emit; exact Logic.I) : keeps.

Lemma keeps__init_query_socket : keeps I _init_query_socket.
Proof. unfold _init_query_socket. keeps_auto. Qed.

Lemma keeps__query (a : address) : keeps I (_query a).
Proof. unfold _query. keeps_auto. Qed.

Lemma keeps__send_osc (a : address) (v : float) : keeps I (_send_osc a v).
Proof. unfold _send_osc. keeps_auto. Qed.

#[local] Hint Resolve keeps__init_query_socket keeps__query keeps__send_osc : keeps.

Lemma keeps_mark_connected : keeps I mark_connected.
Proof. unfold mark_connected. keeps_auto. Qed.

#[local] Hint Resolve keeps_mark_connected : keeps.

Lemma keeps_probe_paths (l : list string) : keeps I (probe_paths l).
Proof. induction l as [|p r IH]; simpl; keeps_auto. Qed.

#[local] Hint Resolve keeps_probe_paths : keeps.

Lemma keeps_check_connection : okcheck -> keeps I check_connection.
Proof.
  intros Hc. unfold check_connection.
  apply keeps_bind; [apply keeps_emit; exact Hc | intros _].
  keeps_auto.
Qed.

#[local] Hint Resolve keeps_check_connection : keeps.

Lemma spec__query (a : address) :
  spec I (_query a)
    (fun r => forall v, r = Ok (Some v) -> exists n, osc_reply env n a = Answer v).
Proof.
  intros w Hw. split; [|apply keeps__query, Hw].
  unfold _query, emit, modify, interact. rewrite !bind_run. simpl.
  destruct (osc_reply env (clock w) a) eqn:E; simpl; intros v0 Hv; try discriminate.
  injection Hv as <-. eauto.
Qed.

Lemma spec_getFader (t : target) (k : Z) :
  fader_reads okval ->
  spec I (getFader t k) (fun r => forall q, r = Ok (Some q) -> okval q).
Proof.
  intros Hr. unfold getFader.
  eapply spec_bind; [apply spec__query | | intros e _ q Hq; discriminate].
  intros [v|] Hv.
  - destruct (Hv v eq_refl) as [n Hn].
    intros w Hw. split; [|exact Hw]. simpl. intros q Hq. eapply Hr; eassumption.
  - apply spec_ret. intros q Hq. discriminate.
Qed.

Lemma keeps_getFader (t : target) (k : Z) : keeps I (getFader t k).
Proof. unfold getFader. keeps_auto. Qed.

Lemma keeps_setFader (t : target) (k v : Z) : keeps I (setFader t k v).
Proof. unfold setFader. keeps_auto. Qed.

Lemma keeps_getMute (t : target) (k : Z) : keeps I (getMute t k).
Proof. unfold getMute. keeps_auto. Qed.

Lemma keeps_setMute (t : target) (k : Z) (b : bool) : keeps I (setMute t k b).
Proof. unfold setMute. keeps_auto. Qed.

Lemma keeps_setGain (g : osc_arg) (k : Z) (x : float) : keeps I (setGain g k x).
Proof. unfold setGain. keeps_auto. Qed.

Lemma keeps_getGain (g : osc_arg) (k : Z) : keeps I (getGain g k).
Proof. unfold getGain. keeps_auto. Qed.

Lemma keeps_getChannelInputSource (c : Z) : keeps I (getChannelInputSource c).
Proof. unfold getChannelInputSource. keeps_auto. Qed.

Lemma keeps_is_connected : keeps I is_connected.
Proof. unfold is_connected. keeps_auto. Qed.

Lemma keeps_set_text (ch : Z) (t : string) : keeps I (set_text ch t).
Proof. unfold set_text. keeps_auto. Qed.

Lemma keeps_set_color (ch : Z) (c : string) : keeps I (set_color ch c).
Proof. unfold set_color. keeps_auto. Qed.

Lemma keeps_set_led (ch : Z) (b : button) (st : bool) : keeps I (set_led ch b st).
Proof. unfold set_led. keeps_auto. Qed.

Lemma keeps_set_encoder_ring (ch v m : Z) : keeps I (set_encoder_ring ch v m).
Proof. unfold set_encoder_ring. keeps_auto. Qed.

Lemma keeps_set_fader (ch v : Z) : okfader ch -> keeps I (set_fader ch v).
Proof.
  intros Hc. unfold set_fader.
  apply keeps_bind; [apply keeps_emit; exact Hc | intros _].
  keeps_auto.
Qed.

Lemma keeps_getDMX (c : Z) : keeps I (getDMX c).
Proof. unfold getDMX. keeps_auto. Qed.

Lemma keeps_getSaallicht : keeps I getSaallicht.
Proof. unfold getSaallicht. keeps_auto. Qed.

#[local] Hint Resolve keeps_getFader keeps_setFader keeps_getMute keeps_setMute keeps_setGain
  keeps_getGain keeps_getChannelInputSource keeps_is_connected keeps_set_text
  keeps_set_color keeps_set_led keeps_set_encoder_ring keeps_getDMX keeps_getSaallicht
  : keeps.


End KeepingIO.

#[local] Hint Resolve keeps_interact keeps_channel keeps_wing keeps__init_query_socket
  keeps__query keeps__send_osc keeps_mark_connected keeps_probe_paths
  keeps_check_connection keeps_getFader keeps_setFader keeps_getMute keeps_setMute
  keeps_setGain keeps_getGain keeps_getChannelInputSource keeps_is_connected
  keeps_set_text keeps_set_color keeps_set_led keeps_set_encoder_ring keeps_getDMX
  keeps_getSaallicht : keeps.
#[local] Hint Extern 1 (keeps _ (emit _)) => (apply keeps_emit; exact Logic.I) : keeps.
#[local] Hint Extern 0 (FrameIO _ _ _ _) => (typeclasses eauto) : keeps.

Section Keeping.

Context {I : World -> Prop} {okval okfader : Z -> Prop} {okcheck oklight : Prop}.
Context `{!Frame I okval okfader okcheck oklight}.

Hypothesis lights_ok : oklight.

Lemma keeps_assign (ch : Z) (f : ChannelState -> ChannelState) :
  (forall st w, I w -> strip w ch = Some st ->
     I (with_device (fun d => set_channels (<[ch := f st]> (channels d)) d) w)) ->
  keeps I (assign_channel ch f).
Proof.
  intros Hf w Hw. unfold assign_channel. rewrite bind_run. unfold channel.
  destruct (channels (device w) !! ch) as [st|] eqn:E; simpl.
  - split; [exact Logic.I | apply Hf; assumption].
  - split; trivial.
Qed.

Lemma keeps_assign_gain (ch : Z) (g : float) : keeps I (assign_channel ch (set_gain_db g)).
Proof. apply keeps_assign. intros. apply frame_gain; assumption. Qed.


Lemma keeps_assign_fader (ch v : Z) :
  okval v -> keeps I (assign_channel ch (set_fader_value v)).
Proof. intros Hv. apply keeps_assign. intros. apply frame_fader; assumption. Qed.

Lemma keeps_assign_stable (ch v : Z) :
  okval v -> keeps I (assign_channel ch (set_last_stable_value v)).
Proof. intros Hv. apply keeps_assign. intros. apply frame_stable; assumption. Qed.

#[local] Hint Resolve keeps_assign_gain : keeps.

Lemma keeps_dmx_connect : keeps I dmx_connect.
Proof.
  unfold dmx_connect.
  apply keeps_bind; [apply keeps_emit; exact lights_ok | intros _].
  keeps_auto.
  apply keeps_modify. intros w. apply frame_ser.
Qed.

Lemma keeps_sendDMX (c v : Z) : okval v -> keeps I (sendDMX c v).
Proof.
  intros Hv w Hw. split; [exact Logic.I|].
  unfold sendDMX, emit, modify, get_world, when, lift. rewrite !bind_run. simpl.
  assert (Hw1 : I (with_trace (cons (EvSendDMX c v)) w))
    by (apply frame_emit; [exact lights_ok | exact Hw]).
  destruct (ser_open (dmx w)); simpl; [|exact Hw1].
  rewrite !bind_run.
  destruct (py_int _) as [n|e]; simpl; [|exact Hw1].
  unfold py_setitem. destruct (py_index _ c) as [k|e]; simpl; [|exact Hw1].
  apply frame_emit; [exact lights_ok|].
  apply (frame_store k v _ Hw1 Hv).
Qed.

#[local] Hint Resolve keeps_dmx_connect : keeps.

Hypothesis reads_ok : fader_reads okval.

Lemma keeps_fader_write (ch v : Z) :
  okval v ->
  keeps I (assign_channel ch (set_fader_value v);;
           assign_channel ch (set_last_stable_value v)).
Proof.
  intros Hv. apply keeps_bind; [apply keeps_assign_fader, Hv | intros _].
  apply keeps_assign_stable, Hv.
Qed.

Lemma keeps_refresh_fader (t : target) (ch k : Z) :
  okfader ch -> keeps I (refresh_fader t ch k).
Proof.
  intros Hc. unfold refresh_fader.
  eapply spec_bind; [apply (spec_getFader t k reads_ok) | | trivial].
  intros [v|] Hv; [|apply keeps_ret].
  apply keeps_bind; [apply keeps_set_fader, Hc | intros _].
  apply keeps_fader_write. apply Hv. reflexivity.
Qed.

Lemma keeps_load_gain (ch wing_ch : Z) : keeps I (load_gain ch wing_ch).
Proof. unfold load_gain. keeps_auto. Qed.

Lemma keeps_sync_gain_strip (ch wing_ch : Z) : keeps I (sync_gain_strip ch wing_ch).
Proof. unfold sync_gain_strip. keeps_auto. Qed.

#[local] Hint Resolve keeps_sync_gain_strip : keeps.

Lemma keeps_sync_gain_for_page (page : Z) : keeps I (sync_gain_for_page page).
Proof. unfold sync_gain_for_page. keeps_auto. Qed.

Lemma keeps_sync_mute (t : target) (ch k : Z) : keeps I (sync_mute t ch k).
Proof. unfold sync_mute. keeps_auto. Qed.

Lemma keeps_sync_fader (t : target) (ch k : Z) :
  okfader ch -> keeps I (sync_fader t ch k).
Proof.
  intros Hc. unfold sync_fader.
  apply keeps_bind; [apply keeps_channel | intros st].
  destruct (negb (is_touched st)); [|apply keeps_ret].
  eapply spec_bind; [apply (spec_getFader t k reads_ok) | | trivial].
  intros [v|] Hv; [|apply keeps_ret].
  apply keeps_bind; [apply keeps_channel | intros st'].
  apply keeps_bind; [apply keeps_when; intros _; apply keeps_set_fader, Hc | intros _].
  apply keeps_fader_write. apply Hv. reflexivity.
Qed.

Lemma keeps_sync_strip (t : target) (ch k : Z) :
  okfader ch -> keeps I (sync_strip t ch k).
Proof.
  intros Hc. unfold sync_strip.
  apply keeps_bind; [apply keeps_sync_fader, Hc | intros _; apply keeps_sync_mute].
Qed.

#[local] Hint Resolve keeps_refresh_fader keeps_load_gain keeps_sync_gain_strip
  keeps_sync_gain_for_page keeps_sync_mute keeps_sync_fader keeps_sync_strip : keeps.

Hypothesis all_faders : forall ch, okfader ch.

Lemma keeps_set_fader_any (ch v : Z) : keeps I (set_fader ch v).
Proof. apply keeps_set_fader, all_faders. Qed.

#[local] Hint Resolve keeps_set_fader_any : keeps.

Lemma keeps_update_page_display (page : Z) : keeps I (update_page_display page).
Proof. unfold update_page_display. keeps_auto. Qed.

Lemma keeps_update_page_mutes (page : Z) : keeps I (update_page_mutes page).
Proof. unfold update_page_mutes. keeps_auto. Qed.



#[local] Hint Resolve keeps_update_page_display keeps_update_page_mutes : keeps.

Lemma keeps_update_page_faders (page : Z) : keeps I (update_page_faders page).
Proof. unfold update_page_faders. keeps_auto. Qed.


#[local] Hint Resolve keeps_update_page_faders : keeps.

Lemma keeps_load_page_gains : keeps I load_page_gains.
Proof. unfold load_page_gains. keeps_auto. Qed.


#[local] Hint Resolve keeps_load_page_gains : keeps.







Lemma keeps_sync_body : keeps I sync_body.
Proof. unfold sync_body. keeps_auto. Qed.

Lemma keeps_sync_iteration (ce : Z) : okcheck -> keeps I (sync_iteration ce).
Proof. intros Hc. pose proof keeps_sync_body. unfold sync_iteration. keeps_auto. Qed.

Lemma keeps_toggle_mute (t : target) (ch k : Z) : keeps I (toggle_mute t ch k).
Proof. unfold toggle_mute. keeps_auto. Qed.

#[local] Hint Resolve keeps_toggle_mute : keeps.

Hypothesis page_ok : forall p w, I w -> I (with_device (set_selected_page p) w).

Lemma keeps_on_button (ch : Z) (btn : button) (state : bool) :
  keeps I (on_button ch btn state).
Proof.
  unfold on_button. keeps_auto.
  - apply keeps_assign_fader, frame_zero.
  - apply keeps_assign_stable, frame_zero.
  - apply keeps_modify. intros w. apply page_ok.
Qed.

Lemma keeps_on_encoder (ch delta : Z) : keeps I (on_encoder ch delta).
Proof. unfold on_encoder. keeps_auto. Qed.

Lemma keeps_on_fader (ch val : Z) : okval val -> keeps I (on_fader ch val).
Proof.
  intros Hv. pose proof (keeps_assign_stable ch val Hv).
  pose proof (fun c => keeps_sendDMX c val Hv).
  unfold on_fader. keeps_auto.
Qed.

#[local] Hint Resolve keeps_on_button keeps_on_encoder : keeps.

Hypothesis touch_ok : forall ch st b w, I w -> strip w ch = Some st ->
  I (with_device (fun d => set_channels (<[ch := set_is_touched b st]> (channels d)) d) w).

Lemma keeps_assign_touch (ch : Z) (b : bool) :
  keeps I (assign_channel ch (set_is_touched b)).
Proof. apply keeps_assign. intros. apply touch_ok; assumption. Qed.

#[local] Hint Resolve keeps_assign_touch : keeps.

Lemma keeps_on_note (note : Z) (state : bool) : keeps I (on_note note state).
Proof. unfold on_note. keeps_auto. Qed.

#[local] Hint Resolve keeps_on_note : keeps.

Hypothesis stamp_ok : forall w, I w -> I (heard w).

Lemma keeps_stamp_midi_received : keeps I stamp_midi_received.
Proof. apply keeps_modify. exact stamp_ok. Qed.

#[local] Hint Resolve keeps_stamp_midi_received : keeps.

Lemma keeps__input_callback (msg : midi_msg) :
  (forall c p v, msg = Pitchwheel c p -> pitch_to_fader p = Ok v -> okval v) ->
  keeps I (_input_callback msg).
Proof.
  intros Hp. unfold _input_callback. apply keeps_try; [|intros; apply keeps_ret].
  apply keeps_bind; [apply keeps_stamp_midi_received | intros _].
  destruct msg as [c p| | | |]; [|keeps_auto..].
  apply (spec_bind I _ _ (fun r => r = pitch_to_fader p));
    [intros w Hw; split; [reflexivity | exact Hw] | | trivial].
  intros v Hv. pose proof (keeps_on_fader (c + 1) v (Hp c p v eq_refl (eq_sym Hv))).
  keeps_auto.
Qed.

Lemma keeps__init_display : keeps I _init_display.
Proof. unfold _init_display. keeps_auto. Qed.

#[local] Hint Resolve keeps__init_display : keeps.

Lemma keeps_surface_open : keeps I surface_open.
Proof. unfold surface_open. keeps_auto. Qed.

#[local] Hint Resolve keeps_surface_open : keeps.

Lemma keeps_reconnect : keeps I reconnect.
Proof. unfold reconnect. keeps_auto. Qed.

#[local] Hint Resolve keeps_reconnect : keeps.

Lemma keeps_surface_check (attempts : Z) : keeps I (surface_check attempts).
Proof. unfold surface_check. keeps_auto. Qed.

Lemma keeps_connection_check : okcheck -> keeps I connection_check.
Proof.
  intros Hc. pose proof (fun c => keeps_sendDMX c 0 frame_zero).
  unfold connection_check. keeps_auto.
Qed.

End Keeping.

(** ** Binary64 arithmetic *)

Lemma pow2s_pos (e : Z) : -2200 <= e -> 0 < pow2s e.
Proof. intros H. unfold pow2s. apply Z.pow_pos_nonneg; lia. Qed.

Lemma pow2s_add (e n : Z) : -2200 <= e -> 0 <= n -> pow2s (e + n) = pow2s e * 2 ^ n.
Proof.
  intros He Hn. unfold pow2s.
  replace (e + n + 2200) with (e + 2200 + n) by lia.
  apply Z.pow_add_r; lia.
Qed.

Lemma pow2s_le (a b : Z) : -2200 <= a -> a <= b -> pow2s a <= pow2s b.
Proof. intros Ha Hab. unfold pow2s. apply Z.pow_le_mono_r; lia. Qed.

Lemma pow2s_lt_inv (a b : Z) : -2200 <= b -> pow2s a < pow2s b -> a < b.
Proof.
  intros Hb H. destruct (Z_lt_le_dec a b) as [|Hle]; [assumption|].
  pose proof (pow2s_le b a Hb Hle). lia.
Qed.

Lemma digits2_pos_bounds (m : positive) :
  2 ^ (Zpos (digits2_pos m) - 1) <= Zpos m < 2 ^ Zpos (digits2_pos m).
Proof.
  induction m as [m IH|m IH|]; cbn [digits2_pos].
  - rewrite Pos2Z.inj_succ.
    replace (Z.succ (Zpos (digits2_pos m)) - 1) with (Z.succ (Zpos (digits2_pos m) - 1)) by lia.
    rewrite !Z.pow_succ_r by lia. lia.
  - rewrite Pos2Z.inj_succ.
    replace (Z.succ (Zpos (digits2_pos m)) - 1) with (Z.succ (Zpos (digits2_pos m) - 1)) by lia.
    rewrite !Z.pow_succ_r by lia. lia.
  - simpl. lia.
Qed.

Lemma Zdigits2_upper (m : Z) (k : Z) :
  0 <= m -> 0 <= k -> m < 2 ^ k -> Zdigits2 m <= k.
Proof.
  intros Hm Hk H. destruct m as [|p|p]; simpl; [lia | | lia].
  destruct (digits2_pos_bounds p) as [Hlo _].
  destruct (Z_lt_le_dec k (Zpos (digits2_pos p))) as [Hlt|]; [|assumption].
  assert (2 ^ k <= 2 ^ (Zpos (digits2_pos p) - 1)) by (apply Z.pow_le_mono_r; lia).
  lia.
Qed.

(** A magnitude below [2^k] has at most [k - e] digits. *)
Lemma Zdigits2_scaled (m e k : Z) :
  0 <= m -> -2200 <= e -> m * pow2s e < pow2s k -> Zdigits2 m + e <= Z.max k e.
Proof.
  intros Hm He H.
  destruct (Z_lt_le_dec e k) as [Hek|Hek].
  - assert (m < 2 ^ (k - e)).
    { replace k with (e + (k - e)) in H by lia.
      rewrite pow2s_add in H by lia.
      pose proof (pow2s_pos e He). nia. }
    pose proof (Zdigits2_upper m (k - e) Hm ltac:(lia) H0). lia.
  - assert (m = 0).
    { pose proof (pow2s_le k e). pose proof (pow2s_pos e He).
      destruct (Z.eq_dec m 0); [assumption|].
      assert (pow2s e <= m * pow2s e) by nia.
      destruct (Z_lt_le_dec k (-2200)).
      - unfold pow2s in H at 2. rewrite Z.pow_neg_r in H by lia. nia.
      - lia. }
    subst m. simpl. lia.
Qed.

Lemma bounded_inv (m : positive) (e : Z) :
  bounded prec emax m e = true ->
  Zpos (digits2_pos m) <= 53 /\ -1074 <= e <= 971 /\
  (-1074 < e -> Zpos (digits2_pos m) = 53).
Proof.
  unfold bounded, canonical_mantissa, fexp, SpecFloat.emin, prec, emax.
  intros H. apply andb_prop in H as [H1 H2].
  apply Z.eqb_eq in H1. apply Z.leb_le in H2. lia.
Qed.

Lemma SFleb_pos (m1 : positive) (e1 : Z) (m2 : positive) (e2 : Z) :
  bounded prec emax m1 e1 = true -> bounded prec emax m2 e2 = true ->
  SFleb (S754_finite false m1 e1) (S754_finite false m2 e2) = true ->
  e1 <= e2 /\ Zpos m1 * pow2s e1 <= Zpos m2 * pow2s e2.
Proof.
  intros B1 B2 H.
  apply bounded_inv in B1 as (D1 & E1 & N1).
  apply bounded_inv in B2 as (D2 & E2 & N2).
  unfold SFleb, SFcompare in H.
  destruct (Z.compare_spec e1 e2) as [->|Hlt|Hgt].
  - split; [lia|]. rewrite Pos.compare_cont_spec in H. cbn in H.
    pose proof (pow2s_pos e2 ltac:(lia)).
    destruct (Pos.compare_spec m1 m2); try discriminate; nia.
  - split; [lia|].
    pose proof (digits2_pos_bounds m1) as [_ U1].
    pose proof (digits2_pos_bounds m2) as [L2 _].
    rewrite (N2 ltac:(lia)) in L2.
    assert (Zpos m1 < 2 ^ 53).
    { eapply Z.lt_le_trans; [exact U1|]. apply Z.pow_le_mono_r; lia. }
    replace e2 with (e1 + (e2 - e1)) by lia. rewrite pow2s_add by lia.
    pose proof (pow2s_pos e1 ltac:(lia)).
    assert (2 ^ 1 <= 2 ^ (e2 - e1)) by (apply Z.pow_le_mono_r; lia).
    change (2 ^ 1) with 2 in *. change (2 ^ (53 - 1)) with 4503599627370496 in L2.
    set (x := 2 ^ (e2 - e1)) in *. set (p := pow2s e1) in *.
    assert (Z.pos m1 * p <= 9007199254740992 * p) by (apply Z.mul_le_mono_nonneg_r; lia).
    assert (4503599627370496 * (p * 2) <= Z.pos m2 * (p * x)).
    { apply Z.mul_le_mono_nonneg; try lia. apply Z.mul_le_mono_nonneg_l; lia. }
    lia.
  - discriminate.
Qed.

Lemma SFcompare_neg (m1 : positive) (e1 : Z) (m2 : positive) (e2 : Z) :
  SFcompare (S754_finite true m1 e1) (S754_finite true m2 e2)
  = SFcompare (S754_finite false m2 e2) (S754_finite false m1 e1).
Proof.
  unfold SFcompare. rewrite (Z.compare_antisym e1 e2).
  destruct (e1 ?= e2); cbn; try reflexivity.
  rewrite !Pos.compare_cont_spec. rewrite (Pos.compare_antisym m1 m2).
  destruct (m1 ?= m2)%positive; reflexivity.
Qed.

Lemma SFleb_neg (m1 : positive) (e1 : Z) (m2 : positive) (e2 : Z) :
  bounded prec emax m1 e1 = true -> bounded prec emax m2 e2 = true ->
  SFleb (S754_finite true m1 e1) (S754_finite true m2 e2) = true ->
  e2 <= e1 /\ Zpos m2 * pow2s e2 <= Zpos m1 * pow2s e1.
Proof.
  intros B1 B2 H. apply SFleb_pos; try assumption.
  unfold SFleb in *. rewrite <- SFcompare_neg. exact H.
Qed.

(** Truncation of a magnitude below an integer bound. *)
Lemma shiftl_below (m e n : Z) :
  0 <= m -> -2200 <= e -> m * pow2s e < n * pow2s 0 -> 0 <= Z.shiftl m e < n.
Proof.
  intros Hm He H. split; [apply Z.shiftl_nonneg; exact Hm|].
  destruct (Z_lt_le_dec e 0) as [Hneg|Hpos].
  - rewrite <- (Z.opp_involutive e) at 1. rewrite Z.shiftl_opp_r, Z.shiftr_div_pow2 by lia.
    apply Z.div_lt_upper_bound; [apply Z.pow_pos_nonneg; lia|].
    replace 0 with (e + - e) in H by lia. rewrite (pow2s_add e (- e)) in H by lia.
    pose proof (pow2s_pos e He). nia.
  - rewrite Z.shiftl_mul_pow2 by lia.
    replace e with (0 + e) in H at 1 by lia. rewrite (pow2s_add 0 e) in H by lia.
    pose proof (pow2s_pos 0 ltac:(lia)). nia.
Qed.

(** ** Rounding *)

Lemma shr_1_m (r : shr_record) :
  0 <= shr_m r -> 0 <= shr_m (shr_1 r) /\ 2 * shr_m (shr_1 r) <= shr_m r.
Proof.
  destruct r as [m r s]. cbn [shr_m]. intros H.
  destruct m as [|[p|p|]|p]; cbn; lia.
Qed.

Lemma iter_shr_1_m (p : positive) (r : shr_record) :
  0 <= shr_m r ->
  0 <= shr_m (SpecFloat.iter_pos shr_1 p r) /\ shr_m (SpecFloat.iter_pos shr_1 p r) * 2 ^ Zpos p <= shr_m r.
Proof.
  revert r. induction p as [p IH|p IH|]; intros r Hr; cbn [SpecFloat.iter_pos].
  - destruct (shr_1_m r Hr) as [H0 H1].
    destruct (IH _ H0) as [H2 H3]. destruct (IH _ H2) as [H4 H5].
    split; [assumption|].
    replace (Zpos p~1) with (Zpos p + Zpos p + 1) by lia.
    rewrite !Z.pow_add_r by lia. change (2 ^ 1) with 2.
    pose proof (Z.pow_pos_nonneg 2 (Zpos p) ltac:(lia) ltac:(lia)).
    nia.
  - destruct (IH _ Hr) as [H2 H3]. destruct (IH _ H2) as [H4 H5].
    split; [assumption|].
    replace (Zpos p~0) with (Zpos p + Zpos p) by lia.
    rewrite !Z.pow_add_r by lia.
    pose proof (Z.pow_pos_nonneg 2 (Zpos p) ltac:(lia) ltac:(lia)).
    nia.
  - destruct (shr_1_m r Hr). change (2 ^ 1) with 2. lia.
Qed.

Lemma shr_m_of_loc (m : Z) (l : location) : shr_m (shr_record_of_loc m l) = m.
Proof. destruct l as [|[| |]]; reflexivity. Qed.

Lemma shr_fexp_m (m e : Z) (l : location) :
  0 <= m -> -2200 <= e ->
  let e' := Z.max e (fexp prec emax (Zdigits2 m + e)) in
  0 <= shr_m (fst (shr_fexp prec emax m e l)) /\
  snd (shr_fexp prec emax m e l) = e' /\
  shr_m (fst (shr_fexp prec emax m e l)) * pow2s e' <= m * pow2s e.
Proof.
  intros Hm He e'. unfold shr_fexp, shr.
  pose proof (shr_m_of_loc m l) as Hl.
  pose proof (pow2s_pos e He) as Hp.
  destruct (fexp prec emax (Zdigits2 m + e) - e) as [|p|p] eqn:En; cbn [fst snd].
  - rewrite Hl. unfold e'. split; [lia|]. split; [lia|].
    replace (Z.max e _) with e by lia. lia.
  - destruct (iter_shr_1_m p (shr_record_of_loc m l) ltac:(lia)) as [H0 H1].
    rewrite Hl in H1. split; [assumption|]. split; [unfold e'; lia|].
    replace e' with (e + Zpos p) by (unfold e'; lia).
    rewrite pow2s_add by lia. nia.
  - rewrite Hl. unfold e'. split; [lia|]. split; [lia|].
    replace (Z.max e _) with e by lia. lia.
Qed.

Lemma round_nearest_even_le (m : Z) (l : location) :
  m <= round_nearest_even m l <= m + 1.
Proof.
  unfold round_nearest_even. destruct l as [|[| |]]; try lia.
  destruct (Z.even m); lia.
Qed.

(** The result of rounding: its magnitude exceeds the truncated input by
    at most one unit in the last place. *)
Lemma binary_round_aux_mag (sx : bool) (mx ex : Z) (lx : location) :
  0 <= mx -> -2200 <= ex ->
  exists m e,
    0 <= m /\ ex <= e /\
    m * pow2s e
    <= mx * pow2s ex + pow2s (Z.max ex (fexp prec emax (Zdigits2 mx + ex))) /\
    binary_round_aux prec emax sx mx ex lx
    = match m with
      | Z0 => S754_zero sx
      | Zpos p => if e <=? emax - prec then S754_finite sx p e else S754_infinity sx
      | Zneg _ => S754_nan
      end.
Proof.
  intros Hm He. unfold binary_round_aux.
  destruct (shr_fexp_m mx ex lx Hm He) as (H0 & H1 & H2).
  destruct (shr_fexp prec emax mx ex lx) as [mrs' e'] eqn:E1. cbn [fst snd] in *.
  set (m1 := round_nearest_even (shr_m mrs') (loc_of_shr_record mrs')).
  pose proof (round_nearest_even_le (shr_m mrs') (loc_of_shr_record mrs')) as Hr.
  fold m1 in Hr.
  assert (He' : -2200 <= e') by lia.
  destruct (shr_fexp_m m1 e' loc_Exact ltac:(lia) He') as (H3 & H4 & H5).
  destruct (shr_fexp prec emax m1 e' loc_Exact) as [mrs'' e''] eqn:E2. cbn [fst snd] in *.
  exists (shr_m mrs''), e''. split; [assumption|]. split; [lia|]. split.
  - cbv zeta in H1, H2, H4, H5. rewrite <- H1 in H2 |- *. rewrite <- H4 in H5.
    pose proof (pow2s_pos e' He').
    assert (m1 * pow2s e' <= shr_m mrs' * pow2s e' + pow2s e') by nia.
    lia.
  - reflexivity.
Qed.

Lemma SFdiv_core_mag (m1 : positive) (e1 : Z) (m2 : positive) (e2 : Z) :
  -1100 <= e1 - e2 ->
  exists q e' l,
    SFdiv_core_binary prec emax (Zpos m1) e1 (Zpos m2) e2 = (q, e', l) /\
    0 <= q /\
    e' = Z.min (fexp prec emax (Zpos (digits2_pos m1) + e1 - (Zpos (digits2_pos m2) + e2)))
               (e1 - e2) /\
    q * Zpos m2 * pow2s e' <= Zpos m1 * pow2s (e1 - e2).
Proof.
  intros He. unfold SFdiv_core_binary. cbn [Zdigits2].
  set (e' := Z.min _ (e1 - e2)).
  assert (He' : -1100 <= e').
  { unfold e', fexp, SpecFloat.emin, prec, emax. lia. }
  set (s := e1 - e2 - e').
  assert (Hs : 0 <= s) by (unfold s, e'; lia).
  set (m' := match s with Z.pos _ => Z.shiftl (Zpos m1) s | 0 => Zpos m1 | Z.neg _ => 0 end).
  assert (Hm' : m' = Zpos m1 * 2 ^ s).
  { unfold m'. destruct s as [|p|p]; [simpl; lia | | lia].
    rewrite Z.shiftl_mul_pow2 by lia. reflexivity. }
  pose proof (Z_div_mod m' (Zpos m2) ltac:(lia)) as Hdiv.
  destruct (Z.div_eucl m' (Zpos m2)) as [q r]. destruct Hdiv as [Hq Hr].
  exists q, e', (new_location (Zpos m2) r).
  split; [reflexivity|].
  assert (Hq0 : 0 <= q).
  { assert (0 <= m') by (rewrite Hm'; apply Z.mul_nonneg_nonneg; [lia | apply Z.pow_nonneg; lia]).
    nia. }
  split; [exact Hq0|]. split; [reflexivity|].
  replace (e1 - e2) with (e' + s) by (unfold s; lia).
  rewrite pow2s_add by lia.
  pose proof (pow2s_pos e' ltac:(lia)).
  assert (q * Zpos m2 <= Zpos m1 * 2 ^ s) by lia.
  nia.
Qed.

(** ** The LED-ring position of a gain in range *)

Lemma Prim2SF_GAIN_MAX : Prim2SF GAIN_MAX = S754_finite false 6333186975989760 (-47).
Proof. reflexivity. Qed.

Lemma Prim2SF_GAIN_MIN : Prim2SF GAIN_MIN = S754_finite true 5629499534213120 (-51).
Proof. reflexivity. Qed.

Lemma Prim2SF_11 : Prim2SF (float_of_Z 11) = S754_finite false 6192449487634432 (-49).
Proof. reflexivity. Qed.

(** A result of rounding whose magnitude is below [2^k]. *)
Lemma binary_round_aux_small (sx : bool) (mx ex : Z) (lx : location) (k B : Z) :
  0 <= mx -> -2200 <= ex -> ex <= k - 53 -> -1021 <= k <= 971 ->
  mx * pow2s ex <= B -> B < pow2s k ->
  binary_round_aux prec emax sx mx ex lx = S754_zero sx \/
  exists m e,
    binary_round_aux prec emax sx mx ex lx = S754_finite sx m e /\
    ex <= e <= k /\ Zpos m * pow2s e <= B + pow2s (k - 53).
Proof.
  intros Hm He Hek Hk HB HBk.
  destruct (binary_round_aux_mag sx mx ex lx Hm He) as (m & e & Hm0 & Hee & Hmag & Hres).
  assert (Hd : Zdigits2 mx + ex <= k).
  { pose proof (Zdigits2_scaled mx ex k Hm He ltac:(lia)). lia. }
  assert (HE : pow2s (Z.max ex (fexp prec emax (Zdigits2 mx + ex))) <= pow2s (k - 53)).
  { apply pow2s_le; [lia|]. unfold fexp, SpecFloat.emin, prec, emax. lia. }
  destruct m as [|p|p]; [left; exact Hres | right | lia].
  assert (Hek' : e <= k).
  { pose proof (pow2s_pos e ltac:(lia)).
    assert (pow2s (k - 53) * 2 ^ 53 = pow2s k).
    { rewrite <- pow2s_add by lia. f_equal. lia. }
    assert (pow2s e < pow2s (k + 1)).
    { rewrite (pow2s_add k 1) by lia. change (2 ^ 1) with 2.
      assert (pow2s e <= Zpos p * pow2s e) by nia.
      pose proof (pow2s_pos (k - 53) ltac:(lia)).
      change (2 ^ 53) with 9007199254740992 in *. lia. }
    pose proof (pow2s_lt_inv e (k + 1) ltac:(lia) H1). lia. }
  exists p, e. split; [|split; lia].
  rewrite Hres. replace (e <=? emax - prec) with true; [reflexivity|].
  symmetry. apply Z.leb_le. unfold emax, prec. lia.
Qed.

(** The float [g / 45.0 * 11] for a finite [g] of magnitude at most 45:
    its sign is that of [g], and 45 times its magnitude exceeds 11 times
    the magnitude of [g] by at most [45 * 2^-47]. *)
Lemma ring_quotient_mag (s : bool) (m : positive) (e : Z) :
  bounded prec emax m e = true -> e <= -47 ->
  Zpos m * pow2s e <= 6333186975989760 * pow2s (-47) ->
  let r := SF64mul (SF64div (S754_finite s m e) (S754_finite false 6333186975989760 (-47)))
                   (S754_finite false 6192449487634432 (-49)) in
  r = S754_zero s \/
  exists m' e',
    r = S754_finite s m' e' /\ -2200 <= e' /\
    45 * (Zpos m' * pow2s e') <= 11 * (Zpos m * pow2s e) + 45 * pow2s (-47).
Proof.
  intros Hb He Hle r. unfold r, SF64div, SFdiv.
  pose proof (bounded_inv m e Hb) as (Hd & Hrange & _).
  destruct (SFdiv_core_mag m e 6333186975989760 (-47) ltac:(lia))
    as (q & e' & l & Hcore & Hq0 & He' & Hq).
  rewrite Hcore. change (Zpos (digits2_pos 6333186975989760)) with 53 in He'.
  assert (He'r : -1074 <= e' <= -53).
  { rewrite He'. unfold fexp, SpecFloat.emin, prec, emax. lia. }
  replace (e - -47) with (e + 47) in Hq by lia.
  rewrite (pow2s_add e 47) in Hq by lia.
  pose proof (pow2s_add (-47) 47 ltac:(lia) ltac:(lia)) as H47.
  change (-47 + 47) with 0 in H47.
  change (2 ^ 47) with 140737488355328 in Hq, H47.
  pose proof (pow2s_pos 0 ltac:(lia)) as P0.
  pose proof (pow2s_add (-52) 52 ltac:(lia) ltac:(lia)) as H52.
  change (-52 + 52) with 0 in H52. change (2 ^ 52) with 4503599627370496 in H52.
  pose proof (pow2s_add (-52) 4 ltac:(lia) ltac:(lia)) as H48.
  change (-52 + 4) with (-48) in H48. change (2 ^ 4) with 16 in H48.
  pose proof (pow2s_add (-52) 5 ltac:(lia) ltac:(lia)) as H47'.
  change (-52 + 5) with (-47) in H47'. change (2 ^ 5) with 32 in H47'.
  pose proof (pow2s_add (-52) 57 ltac:(lia) ltac:(lia)) as H5.
  change (-52 + 57) with 5 in H5. change (2 ^ 57) with 144115188075855872 in H5.
  pose proof (pow2s_add (-52) 53 ltac:(lia) ltac:(lia)) as H1.
  change (-52 + 53) with 1 in H1. change (2 ^ 53) with 9007199254740992 in H1.
  pose proof (pow2s_add (-52) 56 ltac:(lia) ltac:(lia)) as H4.
  change (-52 + 56) with 4 in H4. change (2 ^ 56) with 72057594037927936 in H4.
  pose proof (pow2s_pos (-52) ltac:(lia)) as P52.
  destruct (binary_round_aux_small (xorb s false) q e' l 1 (q * pow2s e'))
    as [Hz|(mq & eq & Hres & Heq & Hmq)]; try lia.
  - rewrite Hz. left. cbn. destruct s; reflexivity.
  - rewrite Hres. unfold SF64mul, SFmul.
    change (1 - 53) with (-52) in Hmq.
    destruct (binary_round_aux_small (xorb (xorb s false) false)
                (Zpos (mq * 6192449487634432)) (eq + -49) loc_Exact 5
                (11 * (Zpos mq * pow2s eq)))
      as [Hz|(m2 & e2 & Hres2 & He2 & Hm2)]; try lia.
    + rewrite Pos2Z.inj_mul.
      replace (pow2s eq) with (pow2s (eq + -49) * 2 ^ 49)
        by (rewrite <- pow2s_add by lia; f_equal; lia).
      change (2 ^ 49) with 562949953421312. lia.
    + rewrite Hz. left. destruct s; reflexivity.
    + right. exists m2, e2. rewrite Hres2.
      split; [destruct s; reflexivity|]. split; [lia|].
      change (5 - 53) with (-48) in Hm2. lia.
Qed.

Lemma ring_value_in_range (gain : float) :
  gain_in_range gain = true ->
  exists n, ring_value gain = Ok n /\ 0 <= n <= 11.
Proof.
  unfold gain_in_range. intros H. apply andb_prop in H as [Hlo Hhi].
  rewrite leb_spec, Prim2SF_GAIN_MIN in Hlo. rewrite leb_spec, Prim2SF_GAIN_MAX in Hhi.
  pose proof (Prim2SF_valid gain) as Hv.
  unfold ring_value, py_int.
  rewrite mul_spec, div_spec, Prim2SF_GAIN_MAX, Prim2SF_11.
  pose proof (pow2s_pos 0 ltac:(lia)) as P0.
  pose proof (pow2s_add (-51) 51 ltac:(lia) ltac:(lia)) as H51.
  change (-51 + 51) with 0 in H51. change (2 ^ 51) with 2251799813685248 in H51.
  pose proof (pow2s_add (-51) 4 ltac:(lia) ltac:(lia)) as H47.
  change (-51 + 4) with (-47) in H47. change (2 ^ 4) with 16 in H47.
  pose proof (pow2s_pos (-51) ltac:(lia)) as P51.
  destruct (Prim2SF gain) as [s| s| |s m e]; try discriminate.
  - exists 0. split; [destruct s; reflexivity | lia].
  - destruct s; discriminate.
  - cbn [valid_binary] in Hv. destruct s.
    + destruct (SFleb_neg 5629499534213120 (-51) m e eq_refl Hv Hlo) as [He Hm].
      destruct (ring_quotient_mag true m e Hv ltac:(lia) ltac:(lia))
        as [->|(m' & e' & -> & He' & Hmag)].
      * exists 0. split; [reflexivity | lia].
      * exists 0. split; [|lia].
        destruct (shiftl_below (Zpos m') e' 1 ltac:(lia) He' ltac:(lia)) as [L U].
        f_equal. lia.
    + destruct (SFleb_pos m e 6333186975989760 (-47) Hv eq_refl Hhi) as [He Hm].
      destruct (ring_quotient_mag false m e Hv He Hm)
        as [->|(m' & e' & -> & He' & Hmag)].
      * exists 0. split; [reflexivity | lia].
      * exists (Z.shiftl (Zpos m') e'). split; [reflexivity|].
        destruct (shiftl_below (Zpos m') e' 12 ltac:(lia) He' ltac:(lia)) as [L U].
        lia.
Qed.

(** ** Clamped conversions to [int] *)

Lemma Prim2SF_1000 :
  Prim2SF (float_of_Z FADER_MAX) = S754_finite false 8796093022208000 (-43).
Proof. reflexivity. Qed.

Lemma py_int_clamped (x : float) :
  exists n,
    py_int (py_max (float_of_Z FADER_MIN) (py_min (float_of_Z FADER_MAX) x)) = Ok n /\
    0 <= n <= 1000.
Proof.
  unfold py_max, py_min.
  destruct (PrimFloat.ltb x (float_of_Z FADER_MAX)) eqn:Hhi.
  - destruct (PrimFloat.ltb (float_of_Z FADER_MIN) x) eqn:Hlo.
    + rewrite ltb_spec, Prim2SF_1000 in Hhi. rewrite ltb_spec in Hlo.
      change (Prim2SF (float_of_Z FADER_MIN)) with (S754_zero false) in Hlo.
      pose proof (Prim2SF_valid x) as Hv. unfold py_int.
      destruct (Prim2SF x) as [s| s| |s m e]; try discriminate.
      * destruct s; discriminate.
      * destruct s; [discriminate|]. cbn [valid_binary] in Hv.
        assert (Hle : SFleb (S754_finite false m e)
                        (S754_finite false 8796093022208000 (-43)) = true).
        { unfold SFltb in Hhi. unfold SFleb.
          destruct (SFcompare _ _) as [[| |]|]; congruence. }
        destruct (SFleb_pos m e 8796093022208000 (-43) Hv eq_refl Hle) as [He Hm].
        pose proof (bounded_inv m e Hv) as (_ & Hr & _).
        pose proof (pow2s_add (-43) 43 ltac:(lia) ltac:(lia)) as H43.
        change (-43 + 43) with 0 in H43. change (2 ^ 43) with 8796093022208 in H43.
        pose proof (pow2s_pos (-43) ltac:(lia)).
        destruct (shiftl_below (Zpos m) e 1001 ltac:(lia) ltac:(lia) ltac:(lia)) as [L U].
        eexists. split; [reflexivity | lia].
    + exists 0. split; [reflexivity | lia].
  - exists 1000. split; [reflexivity | lia].
Qed.

Lemma db_to_fader_clamped (v : osc_arg) (q : Z) :
  db_to_fader v = Ok (Some q) -> 0 <= q <= 1000.
Proof.
  unfold db_to_fader, except_value_type.
  destruct (py_str_is v "-oo"); [intros [= <-]; lia|].
  destruct (py_float v) as [y|[]]; try discriminate.
  destruct (PrimFloat.leb y (-90.0)); [intros [= <-]; lia|].
  match goal with |- context [PrimFloat.ltb ?d 0] => destruct (PrimFloat.ltb d 0) end;
    [intros [= <-]; lia|].
  match goal with |- context [py_int (py_max _ (py_min _ ?r))] =>
    destruct (py_int_clamped r) as (n & -> & Hn) end.
  intros [= <-]. exact Hn.
Qed.

Lemma console_reads_clamped : reads_clamped.
Proof. intros n t k v q _ H. exact (db_to_fader_clamped v q H). Qed.

(** ** The range invariant *)

Lemma range_inv_insert (ch : Z) (st' : ChannelState) (w : World) :
  in_range st' -> range_inv w ->
  range_inv (with_device (fun d => set_channels (<[ch := st']> (channels d)) d) w).
Proof.
  intros Hst Hw c s. unfold strip. simpl.
  destruct (decide (ch = c)) as [->|Hne].
  - rewrite lookup_insert_eq. intros [= <-]. exact Hst.
  - rewrite lookup_insert_ne by exact Hne. apply Hw.
Qed.

#[local] Instance range_inv_frame :
  Frame range_inv (fun v => 0 <= v <= 1000) (fun _ => True) True True.
Proof.
  split; [split|..]; try (intros; assumption); try lia.
  - intros ch st g w Hw Hs. apply range_inv_insert; [apply (Hw ch st Hs) | exact Hw].
  - intros ch st v w Hv Hw Hs. apply range_inv_insert; [|exact Hw].
    destruct (Hw ch st Hs). split; simpl; assumption.
  - intros ch st v w Hv Hw Hs. apply range_inv_insert; [|exact Hw].
    destruct (Hw ch st Hs). split; simpl; assumption.
Qed.

Lemma range_inv_touch (ch : Z) (st : ChannelState) (b : bool) (w : World) :
  range_inv w -> strip w ch = Some st ->
  range_inv (with_device
    (fun d => set_channels (<[ch := set_is_touched b st]> (channels d)) d) w).
Proof. intros Hw Hs. apply range_inv_insert; [apply (Hw ch st Hs) | exact Hw]. Qed.

Lemma range_In (lo hi x : Z) : lo <= x < hi -> In x (range lo hi).
Proof.
  intros Hx. unfold range. apply in_map_iff.
  exists (Z.to_nat (x - lo)). split; [lia|]. apply in_seq. lia.
Qed.

Lemma forallb_range (f : Z -> bool) (lo hi x : Z) :
  forallb f (range lo hi) = true -> lo <= x < hi -> f x = true.
Proof. intros H Hx. apply (proj1 (forallb_forall f _) H), range_In, Hx. Qed.

(** Pitch-bend decoding maps the 14-bit range onto [0, 1000]. *)
Lemma pitch_to_fader_range (pitch : Z) :
  -8192 <= pitch <= 8191 ->
  exists v, pitch_to_fader pitch = Ok v /\ 0 <= v <= 1000.
Proof.
  intros Hp.
  assert (H : forallb (fun p => match pitch_to_fader p with
                                | Ok v => (0 <=? v) && (v <=? 1000)
                                | Raise _ => false
                                end) (range (-8192) 8192) = true)
    by (vm_compute; reflexivity).
  apply forallb_range with (x := pitch) in H; [|lia].
  destruct (pitch_to_fader pitch) as [v|]; [|discriminate].
  exists v. split; [reflexivity | lia].
Qed.

Lemma range_inv_init : range_inv World_init.
Proof.
  intros ch st. unfold strip. cbn [device channels World_init XTouchExtender_init].
  intros H. apply elem_of_list_to_map_2 in H.
  apply list_elem_of_In, in_map_iff in H. destruct H as [i [[= _ <-] _]].
  unfold in_range. simpl. lia.
Qed.

(** C9. For every strip, [0 <= fader_value <= 1000] and
    [0 <= last_stable_value <= 1000] hold initially and are preserved by
    every operation that writes these fields: an iteration of the
    reconciliation loop, an inbound surface message (fader move, button
    press with the page switch, encoder turn, touch), the fader-move,
    button and page-refresh handlers called directly, and the reconnect
    refresh.  The two givens hold: every fader position decoded from a
    console reply lies in [0, 1000], and the pitch decoding maps the 14-bit
    range into [0, 1000]. *)
Theorem range_invariant :
  range_inv World_init /\
  reads_clamped /\
  (forall p, -8192 <= p <= 8191 ->
     exists v, pitch_to_fader p = Ok v /\ 0 <= v <= 1000) /\
  (forall w, range_inv w ->
     (forall ce, range_inv (snd (sync_iteration ce w))) /\
     (forall msg, (forall c p, msg = Pitchwheel c p -> -8192 <= p <= 8191) ->
                  range_inv (snd (_input_callback msg w))) /\
     (forall ch val, 0 <= val <= 1000 -> range_inv (snd (on_fader ch val w))) /\
     (forall ch btn state, range_inv (snd (on_button ch btn state w))) /\
     (forall page, range_inv (snd (update_page_faders page w))) /\
     (forall attempts, range_inv (snd (surface_check attempts w)))).
Proof.
  split; [exact range_inv_init|].
  split; [exact console_reads_clamped|].
  split; [exact pitch_to_fader_range|].
  pose proof console_reads_clamped as Hreads.
  intros w Hw.
  assert (Hall : forall ch : Z, (fun _ : Z => True) ch) by (intros; exact Logic.I).
  refine (conj _ (conj _ (conj _ (conj _ (conj _ _))))).
  - intros ce. by_keeps keeps_sync_iteration.
  - intros msg Hmsg.
    assert (H : keeps range_inv (_input_callback msg)).
    { eapply keeps__input_callback; eauto using range_inv_touch.
      intros c p v -> Hv.
      destruct (pitch_to_fader_range p (Hmsg c p eq_refl)) as [v' [E Hv']].
      rewrite E in Hv. injection Hv as <-. exact Hv'. }
    exact (proj2 (H w Hw)).
  - intros ch val Hval. by_keeps keeps_on_fader.
  - intros ch btn state. by_keeps keeps_on_button.
  - intros page. by_keeps keeps_update_page_faders.
  - intros attempts. by_keeps keeps_surface_check.
Qed.

(** ** Computations that never raise *)

Lemma returns_Ok {A : Type} (r : res A) : returns r -> exists a, r = Ok a.
Proof. destruct r as [a|e]; [eauto | contradiction]. Qed.

Lemma sure_run {A : Type} (m : M A) (w : World) :
  sure m -> exists a w', m w = (Ok a, w').
Proof.
  intros H. specialize (H w). destruct (m w) as [[a|e] w'] eqn:E; simpl in H.
  - eauto.
  - contradiction.
Qed.

Lemma sure_ret {A : Type} (a : A) : sure (mret a).
Proof. intros w. exact Logic.I. Qed.

Lemma sure_bind {A B : Type} (m : M A) (k : A -> M B) :
  sure m -> (forall a, sure (k a)) -> sure (m ≫= k).
Proof.
  intros Hm Hk w. rewrite bind_run. specialize (Hm w).
  destruct (m w) as [[a|e] w1]; simpl in *; [apply Hk | contradiction].
Qed.

Lemma sure_modify (f : World -> World) : sure (modify f).
Proof. intros w. exact Logic.I. Qed.

Lemma sure_emit (e : event) : sure (emit e).
Proof. apply sure_modify. Qed.

Lemma sure_interact {A : Type} (f : nat -> A) : sure (interact f).
Proof. intros w. exact Logic.I. Qed.

Lemma sure_get_world : sure get_world.
Proof. intros w. exact Logic.I. Qed.

Lemma sure_when (b : bool) (m : M unit) : sure m -> sure (when b m).
Proof. intros H. destruct b; [exact H | apply sure_ret]. Qed.

Lemma sure_for_each {A : Type} (l : list A) (body : A -> M unit) :
  (forall x, sure (body x)) -> sure (for_each l body).
Proof.
  intros H. induction l as [|x r IH]; simpl.
  - apply sure_ret.
  - apply sure_bind; [apply H | intros _; exact IH].
Qed.

Lemma sure_try {A : Type} (m : M A) (h : exn -> M A) :
  (forall e, sure (h e)) -> sure (try_except m h).
Proof.
  intros Hh w. unfold try_except.
  destruct (m w) as [[a|e] w1]; [exact Logic.I | apply Hh].
Qed.

Create HintDb sure.

Ltac sure_step :=
  match goal with
  | |- sure (mret _) => apply sure_ret
  | |- sure (_ ≫= _) => apply sure_bind; [|intros ?]
  | |- sure (for_each _ _) => apply sure_for_each; intros ?
  | |- sure (when _ _) => apply sure_when
  | |- sure (try_except _ _) => apply sure_try; intros ?
  | |- sure (emit _) => apply sure_emit
  | |- sure (modify _) => apply sure_modify
  | |- sure (interact _) => apply sure_interact
  | |- sure get_world => apply sure_get_world
  | |- sure (if ?b then _ else _) => destruct b
  | |- sure (match ?x with _ => _ end) => destruct x
  end.

Ltac sure_auto := repeat (sure_step || (progress eauto with sure)).

Lemma sure__query (a : address) : sure (_query a).
Proof. unfold _query. sure_auto. Qed.

Lemma sure__send_osc (a : address) (v : float) : sure (_send_osc a v).
Proof. unfold _send_osc. sure_auto. Qed.

#[local] Hint Resolve sure__query sure__send_osc : sure.

Lemma sure_probe_paths (l : list string) : sure (probe_paths l).
Proof. induction l as [|p r IH]; simpl; sure_auto. Qed.

#[local] Hint Resolve sure_probe_paths : sure.

Lemma sure_check_connection : sure check_connection.
Proof. unfold check_connection, mark_connected. sure_auto. Qed.

Lemma sure_dmx_connect : sure dmx_connect.
Proof. unfold dmx_connect. sure_auto. Qed.

Lemma sure_set_fader (ch v : Z) : sure (set_fader ch v).
Proof. unfold set_fader. sure_auto. Qed.

Lemma sure_set_led (ch : Z) (b : button) (st : bool) : sure (set_led ch b st).
Proof. unfold set_led. sure_auto. Qed.

Lemma sure_setMute (t : target) (k : Z) (b : bool) : sure (setMute t k b).
Proof. unfold setMute. sure_auto. Qed.

#[local] Hint Resolve sure_check_connection sure_dmx_connect sure_set_fader sure_set_led
  sure_setMute : sure.

(** ** The lighting shadow *)

Lemma py_index_inside {A : Type} (l : list A) (i : Z) :
  - Z.of_nat (length l) <= i < Z.of_nat (length l) ->
  py_index l i = Ok (Z.to_nat (if 0 <=? i then i else Z.of_nat (length l) + i)).
Proof.
  intros Hi. unfold py_index.
  destruct (Z.leb_spec 0 i), (Z.ltb_spec i (Z.of_nat (length l))); simpl; try lia;
    try reflexivity.
  destruct (Z.leb_spec (- Z.of_nat (length l)) i), (Z.ltb_spec i 0); simpl; try lia.
  reflexivity.
Qed.

Lemma py_index_outside {A : Type} (l : list A) (i : Z) :
  i < - Z.of_nat (length l) \/ Z.of_nat (length l) <= i ->
  py_index l i = Raise IndexError.
Proof.
  intros Hi. unfold py_index.
  destruct (Z.leb_spec 0 i), (Z.ltb_spec i (Z.of_nat (length l))); simpl; try lia;
    try reflexivity;
    destruct (Z.leb_spec (- Z.of_nat (length l)) i), (Z.ltb_spec i 0); simpl; try lia;
    reflexivity.
Qed.

(** C8, as amended. With the shadow of 513 entries, [getDMX] returns for
    every channel in [-513, 512] (the indices Python accepts, negative ones
    counting from the end): the shadow value if it lies in [0, 1000] and 0
    otherwise, leaving the state as it is; for every other channel it
    raises [IndexError]. *)
Theorem getDMX_within_index_range (w : World) (channel : Z) :
  length (dmx_stored_values (dmx w)) = 513%nat ->
  (-513 <= channel <= 512 ->
   exists x,
     dmx_stored_values (dmx w)
       !! Z.to_nat (if 0 <=? channel then channel else 513 + channel) = Some x /\
     getDMX channel w = (Ok (if (0 <=? x) && (x <=? 1000) then x else 0), w)) /\
  (channel < -513 \/ 512 < channel -> getDMX channel w = (Raise IndexError, w)).
Proof.
  intros Hlen. split.
  - intros Hc.
    assert (Hi := py_index_inside (dmx_stored_values (dmx w)) channel).
    rewrite Hlen in Hi. specialize (Hi ltac:(lia)).
    change (Z.of_nat 513) with 513 in Hi.
    set (k := Z.to_nat (if 0 <=? channel then channel else 513 + channel)) in *.
    assert (Hk : (k < length (dmx_stored_values (dmx w)))%nat).
    { rewrite Hlen. subst k. destruct (Z.leb_spec 0 channel); lia. }
    destruct (lookup_lt_is_Some_2 _ _ Hk) as [x Hx].
    exists x. split; [exact Hx|].
    unfold getDMX, get_world, lift, py_getitem. rewrite !bind_run. simpl.
    rewrite Hi, Hx. simpl. destruct ((0 <=? x) && (x <=? 1000)); reflexivity.
  - intros Hc.
    assert (Ho := py_index_outside (dmx_stored_values (dmx w)) channel).
    rewrite Hlen in Ho. specialize (Ho ltac:(lia)).
    unfold getDMX, get_world, lift, py_getitem. rewrite !bind_run. simpl.
    rewrite Ho. reflexivity.
Qed.

(** ** The sixty-second console check *)

#[local] Instance lighting_untouched_frame (w0 : World) :
  FrameIO (lighting_untouched w0) (fun _ => True) True False.
Proof.
  split.
  - intros e w He Hw. destruct e; try exact Hw; contradiction.
  - intros w Hw. exact Hw.
  - intros f w Hw. exact Hw.
Qed.

Lemma sendDMX_zero_run (i : Z) (w : World) :
  0 <= i < Z.of_nat (length (dmx_stored_values (dmx w))) ->
  sendDMX i 0 w =
    (Ok tt,
     if ser_open (dmx w) then
       with_trace (cons (EvSerialWrite i 0))
         (with_dmx (fun d => {| ser_open := ser_open d;
                                dmx_stored_values :=
                                  <[Z.to_nat i := 0]> (dmx_stored_values (dmx w)) |})
            (with_trace (cons (EvSendDMX i 0)) w))
     else with_trace (cons (EvSendDMX i 0)) w).
Proof.
  intros Hi. unfold sendDMX, emit, modify, get_world, when, lift.
  rewrite !bind_run. simpl.
  destruct (ser_open (dmx w)); [|reflexivity].
  rewrite !bind_run.
  change (py_int _) with (Ok (A := Z) 0). simpl.
  unfold py_setitem. rewrite py_index_inside by lia.
  destruct (Z.leb_spec 0 i); [|lia]. reflexivity.
Qed.

Lemma blackout_run (l : list Z) (w : World) :
  (forall i, In i l -> 0 <= i < 513) ->
  length (dmx_stored_values (dmx w)) = 513%nat ->
  exists w2,
    for_each l (fun i => sendDMX i 0) w = (Ok tt, w2) /\
    sendDMX_calls (trace w2)
    = (rev (List.map (fun i => (i, 0)) l) ++ sendDMX_calls (trace w))%list /\
    dmx_connect_calls (trace w2) = dmx_connect_calls (trace w) /\
    ser_open (dmx w2) = ser_open (dmx w) /\
    length (dmx_stored_values (dmx w2)) = 513%nat /\
    (forall k, dmx_stored_values (dmx w) !! k = Some 0 ->
               dmx_stored_values (dmx w2) !! k = Some 0) /\
    (ser_open (dmx w) = true ->
     forall i, In i l -> dmx_stored_values (dmx w2) !! Z.to_nat i = Some 0).
Proof.
  revert w. induction l as [|i r IH]; intros w Hl Hlen.
  - exists w. simpl. repeat split; auto. intros _ i [].
  - assert (Hi : 0 <= i < 513) by (apply Hl; left; reflexivity).
    pose proof (sendDMX_zero_run i w ltac:(rewrite Hlen; lia)) as Hrun.
    set (w1 := if ser_open (dmx w) then _ else _) in Hrun.
    assert (H1 : sendDMX_calls (trace w1) = (i, 0) :: sendDMX_calls (trace w) /\
                 dmx_connect_calls (trace w1) = dmx_connect_calls (trace w) /\
                 ser_open (dmx w1) = ser_open (dmx w) /\
                 length (dmx_stored_values (dmx w1)) = 513%nat /\
                 (forall k, dmx_stored_values (dmx w) !! k = Some 0 ->
                            dmx_stored_values (dmx w1) !! k = Some 0) /\
                 (ser_open (dmx w) = true ->
                  dmx_stored_values (dmx w1) !! Z.to_nat i = Some 0)).
    { subst w1. destruct (ser_open (dmx w)) eqn:Es; simpl.
      - repeat split; auto.
        + rewrite length_insert. exact Hlen.
        + intros k Hk. destruct (decide (Z.to_nat i = k)) as [<-|Hne].
          * apply list_lookup_insert_eq. rewrite Hlen. lia.
          * rewrite list_lookup_insert_ne by exact Hne. exact Hk.
        + intros _. apply list_lookup_insert_eq. rewrite Hlen. lia.
      - repeat split; auto. discriminate. }
    destruct H1 as (Hs1 & Hc1 & Ho1 & Hl1 & Hz1 & Hi1).
    destruct (IH w1 (fun j Hj => Hl j (or_intror Hj)) Hl1)
      as (w2 & Hrun2 & Hs2 & Hc2 & Ho2 & Hl2 & Hz2 & Hi2).
    exists w2. simpl for_each. rewrite (bind_ok _ _ _ _ _ Hrun).
    split; [exact Hrun2|]. split.
    { rewrite Hs2, Hs1. simpl. rewrite <- app_assoc. reflexivity. }
    split; [congruence|]. split; [congruence|]. split; [exact Hl2|].
    split; [auto|].
    intros Hopen j [<-|Hj].
    + apply Hz2, Hi1, Hopen.
    + apply Hi2; [congruence | exact Hj].
Qed.

Lemma dmx_connect_run (w : World) :
  exists ok w3,
    dmx_connect w = (Ok ok, w3) /\
    trace w3 = EvDmxConnect :: trace w /\
    dmx_stored_values (dmx w3) = dmx_stored_values (dmx w).
Proof.
  unfold dmx_connect, emit, modify, interact. rewrite !bind_run. simpl.
  destruct (serial_port_ok env (clock w)); simpl; eauto.
Qed.


(** ** Failure escalation in the reconciliation loop *)

#[local] Instance check_calls_frame (n : nat) :
  Frame (fun w => check_calls (trace w) = n) (fun _ => True) (fun _ => True) False True.
Proof.
  split; [split|..]; try (intros; assumption); try exact Logic.I.
  intros e w He Hw. destruct e; try exact Hw. contradiction.
Qed.

Lemma check_connection_calls (w : World) :
  check_calls (trace (snd (check_connection w))) = S (check_calls (trace w)).
Proof.
  unfold check_connection. rewrite bind_run.
  change (emit EvCheckConnection w) with (Ok tt, with_trace (cons EvCheckConnection) w).
  cbv iota beta.
  match goal with
  | |- check_calls (trace (snd (?m ?w1))) = ?n =>
      assert (H : keeps (fun w => check_calls (trace w) = n) m) by keeps_auto;
      exact (proj2 (H w1 eq_refl))
  end.
Qed.

Lemma sync_body_no_check (w : World) :
  check_calls (trace (snd (sync_body w))) = check_calls (trace w).
Proof.
  assert (H : keeps (fun w' => check_calls (trace w') = check_calls (trace w)) sync_body).
  { eapply keeps_sync_body; eauto. intros n t k v q _ _. exact Logic.I. }
  exact (proj2 (H w eq_refl)).
Qed.

Lemma sync_iteration_completed (ce : Z) (w w' : World) (completed : bool) :
  sync_body w = (Ok completed, w') ->
  sync_iteration ce w = (Ok (if completed then 0 else ce), w').
Proof.
  intros H. unfold sync_iteration, try_except. rewrite (bind_ok _ _ _ _ _ H).
  destruct completed; reflexivity.
Qed.

Lemma sync_iteration_failed (ce : Z) (w : World) :
  tick_fails w ->
  (ce + 1 < MAX_SYNC_RETRIES ->
   sync_iteration ce w = (Ok (ce + 1), snd (sync_body w))) /\
  (MAX_SYNC_RETRIES <= ce + 1 ->
   fst (sync_iteration ce w) = Ok 0 /\
   snd (sync_iteration ce w) = snd (check_connection (snd (sync_body w)))).
Proof.
  intros [e He]. unfold sync_iteration, try_except. rewrite bind_run.
  destruct (sync_body w) as [[b|e'] w'] eqn:E; simpl in He; [discriminate|].
  simpl snd. split; intros Hce.
  - destruct (Z.leb_spec MAX_SYNC_RETRIES (ce + 1)); [lia | reflexivity].
  - destruct (Z.leb_spec MAX_SYNC_RETRIES (ce + 1)); [|lia].
    rewrite bind_run.
    destruct (sure_run check_connection w' sure_check_connection) as (b & w'' & Hc).
    rewrite Hc. split; reflexivity.
Qed.

#[local] Instance well_formed_frame :
  Frame well_formed (fun v => 0 <= v <= 1000) (fun _ => True) True True.
Proof.
  assert (Hins : forall ch (st st' : ChannelState) w,
            strip w ch = Some st -> well_formed w ->
            well_formed (with_device
              (fun d => set_channels (<[ch := st']> (channels d)) d) w)).
  { intros ch st st' w Hs [Hw Hsh]. split; [|exact Hsh].
    intros c Hc. unfold strip. simpl.
    destruct (decide (ch = c)) as [->|Hne].
    - rewrite lookup_insert_eq. eauto.
    - rewrite lookup_insert_ne by exact Hne. apply Hw, Hc. }
  split; [split|..]; try (intros; assumption); try lia; eauto.
  intros k x w [Hw [Hlen Hall]] Hx. split; [exact Hw|]. split; simpl.
  - rewrite length_insert. exact Hlen.
  - apply Forall_insert; assumption.
Qed.

Lemma spec_sure {A : Type} (I : World -> Prop) (m : M A) :
  sure m -> keeps I m -> spec I m returns.
Proof. intros Hs Hk w Hw. split; [apply Hs | apply (Hk w Hw)]. Qed.

Lemma spec_for_each_returns {A : Type} (I : World -> Prop) (l : list A)
    (body : A -> M unit) :
  (forall x, In x l -> spec I (body x) returns) -> spec I (for_each l body) returns.
Proof.
  induction l as [|x r IH]; intros H; simpl.
  - apply spec_ret. exact Logic.I.
  - eapply spec_bind; [apply H; left; reflexivity | | intros e He; exact He].
    intros _ _. apply IH. intros y Hy. apply H. right. exact Hy.
Qed.

Lemma saallicht_quotient (s : Z) :
  0 <= s <= 4000 -> py_int (float_of_Z s / float_of_Z 4)%float = Ok (s / 4).
Proof.
  intros Hs.
  assert (H : forallb (fun s => match py_int (float_of_Z s / float_of_Z 4)%float with
                                | Ok q => q =? s / 4
                                | Raise _ => false
                                end) (range 0 4001) = true)
    by (vm_compute; reflexivity).
  apply forallb_range with (x := s) in H; [|lia].
  destruct (py_int _) as [q|]; [|discriminate].
  apply Z.eqb_eq in H. congruence.
Qed.

Lemma shadow_entry (w : World) (i : Z) :
  shadow_ok w -> 0 <= i <= 512 ->
  exists x, py_getitem (dmx_stored_values (dmx w)) i = Ok x /\ 0 <= x <= 1000.
Proof.
  intros [Hlen Hall] Hi. unfold py_getitem.
  rewrite py_index_inside by (rewrite Hlen; lia).
  destruct (Z.leb_spec 0 i); [|lia].
  destruct (lookup_lt_is_Some_2 (dmx_stored_values (dmx w)) (Z.to_nat i)) as [x Hx].
  { rewrite Hlen. lia. }
  rewrite Hx. exists x. split; [reflexivity|].
  apply (proj1 (Forall_lookup _ _) Hall _ _ Hx).
Qed.

Lemma getSaallicht_returns (w : World) :
  shadow_ok w -> exists avg, getSaallicht w = (Ok avg, w) /\ 0 <= avg <= 1000.
Proof.
  intros Hs.
  destruct (shadow_entry w 1 Hs ltac:(lia)) as (v1 & E1 & H1).
  destruct (shadow_entry w 2 Hs ltac:(lia)) as (v2 & E2 & H2).
  destruct (shadow_entry w 3 Hs ltac:(lia)) as (v3 & E3 & H3).
  destruct (shadow_entry w 4 Hs ltac:(lia)) as (v4 & E4 & H4).
  exists ((0 + v1 + v2 + v3 + v4) / 4).
  unfold getSaallicht, get_world, lift. rewrite !bind_run. cbv iota beta zeta.
  rewrite E1. cbv iota beta. rewrite !bind_run, E2. cbv iota beta.
  rewrite !bind_run, E3. cbv iota beta. rewrite !bind_run, E4. cbv iota beta.
  rewrite saallicht_quotient by lia. split; [reflexivity|].
  split; [apply Z.div_pos; lia | apply Z.div_le_upper_bound; lia].
Qed.

Section Silence.

Hypothesis silent : console_silent.

Lemma _query_silent (a : address) (w : World) :
  exists w', _query a w = (Ok None, w').
Proof.
  unfold _query, emit, modify, interact. rewrite !bind_run. simpl.
  rewrite silent. simpl. eauto.
Qed.

Lemma getFader_silent (t : target) (k : Z) (w : World) :
  exists w', getFader t k w = (Ok None, w').
Proof.
  unfold getFader. destruct (_query_silent (AddrFdr t k) w) as [w' H].
  rewrite (bind_ok _ _ _ _ _ H). eauto.
Qed.

Lemma getMute_silent (t : target) (k : Z) (w : World) :
  exists w', getMute t k w = (Ok false, w').
Proof.
  unfold getMute. destruct (_query_silent (AddrMute t k) w) as [w' H].
  rewrite (bind_ok _ _ _ _ _ H). eauto.
Qed.

Lemma getChannelInputSource_silent (c : Z) (w : World) :
  exists w', getChannelInputSource c w = (Ok None, w').
Proof.
  unfold getChannelInputSource.
  destruct (_query_silent (AddrConnGrp c) w) as [w1 H1].
  destruct (_query_silent (AddrConnIn c) w1) as [w2 H2].
  rewrite (bind_ok _ _ _ _ _ H1), (bind_ok _ _ _ _ _ H2). eauto.
Qed.

Lemma spec_channel (ch : Z) :
  1 <= ch <= 8 -> spec well_formed (channel ch) returns.
Proof.
  intros Hch w Hw. unfold channel. destruct Hw as [Hs Hsh].
  destruct (Hs ch Hch) as [st Hst]. unfold strip in Hst. rewrite Hst.
  split; [exact Logic.I | split; assumption].
Qed.

Lemma spec_getFader_silent (t : target) (k : Z) :
  spec well_formed (getFader t k) (fun r => r = Ok None).
Proof.
  intros w Hw. split.
  - destruct (getFader_silent t k w) as [w' H]. rewrite H. reflexivity.
  - apply (keeps_getFader t k w Hw).
Qed.

Lemma spec_getMute_silent (t : target) (k : Z) :
  spec well_formed (getMute t k) returns.
Proof.
  intros w Hw. split.
  - destruct (getMute_silent t k w) as [w' H]. rewrite H. exact Logic.I.
  - apply (keeps_getMute t k w Hw).
Qed.

Lemma sync_strip_silent (t : target) (ch k : Z) :
  1 <= ch <= 8 -> spec well_formed (sync_strip t ch k) returns.
Proof.
  intros Hch. unfold sync_strip.
  eapply spec_bind with (Q := returns); [| |intros e He; exact He].
  - unfold sync_fader.
    eapply spec_bind; [apply spec_channel, Hch | | intros e He; exact He].
    intros st _. destruct (negb (is_touched st)); [|apply spec_ret; exact Logic.I].
    eapply spec_bind; [apply spec_getFader_silent | | intros e He; discriminate].
    intros [v|] Hv; [discriminate|]. apply spec_ret. exact Logic.I.
  - intros _ _. unfold sync_mute.
    eapply spec_bind; [apply spec_getMute_silent | | intros e He; exact He].
    intros muted _. apply spec_sure; [apply sure_set_led | apply keeps_set_led].
Qed.

Lemma sync_body_silent : spec well_formed sync_body returns.
Proof.
  assert (Hreads : fader_reads (fun v => 0 <= v <= 1000)).
  { intros n t' k' v q Hv. rewrite silent in Hv. discriminate. }
  unfold sync_body.
  eapply spec_bind with (Q := returns);
    [apply (spec_sure well_formed is_connected); [apply sure_interact | apply keeps_is_connected]
    | | intros e He; exact He].
  intros connected _. destruct (negb connected); [apply spec_ret; exact Logic.I|].
  eapply spec_bind with (Q := returns);
    [apply spec_sure; [apply sure_get_world | apply keeps_get_world]
    | | intros e He; exact He].
  intros w0 _. cbv zeta.
  eapply spec_bind with (Q := returns); [| |intros e He; exact He].
  { apply spec_sure; [unfold sync_gain_for_page; sure_auto|].
    eapply keeps_sync_gain_for_page; eauto. }
  intros _ _.
  eapply spec_bind with (Q := returns);
    [| intros _ _; apply spec_ret; exact Logic.I | intros e He; exact He].
  destruct (selected_page (device w0) =? 0).
  { eapply spec_bind with (Q := returns); [| |intros e He; exact He].
    { apply spec_for_each_returns. intros ch Hch. apply sync_strip_silent.
      apply in_map_iff in Hch. destruct Hch as (k & <- & Hk). apply in_seq in Hk. lia. }
    intros _ _.
    eapply spec_bind with (Q := returns); [| |intros e He; exact He].
    { apply spec_for_each_returns. intros [ch mtx] Hch. apply sync_strip_silent.
      simpl in Hch. destruct Hch as [[= <- <-]|[[= <- <-]|[[= <- <-]|[]]]]; lia. }
    intros _ _.
    eapply spec_bind with (Q := returns); [| |intros e He; exact He].
    { intros w [Hs Hsh]. destruct (getSaallicht_returns w Hsh) as (avg & E & _).
      rewrite E. split; [exact Logic.I | split; assumption]. }
    intros avg _. apply spec_sure; [apply sure_set_fader|].
    apply keeps_set_fader. exact Logic.I. }
  destruct (selected_page (device w0) =? 1).
  { apply spec_for_each_returns. intros ch Hch. apply sync_strip_silent.
    apply in_map_iff in Hch. destruct Hch as (k & <- & Hk). apply in_seq in Hk. lia. }
  destruct (selected_page (device w0) =? 2).
  { apply spec_for_each_returns. intros ch Hch. apply sync_strip_silent.
    apply in_map_iff in Hch. destruct Hch as (k & <- & Hk). apply in_seq in Hk. lia. }
  apply spec_ret. exact Logic.I.
Qed.

(** With a silent console no number of iterations calls
    [check_connection]. *)
Lemma sync_loop_silent (n : nat) (ce : Z) (w : World) :
  well_formed w ->
  check_calls (trace (snd (sync_loop n ce w))) = check_calls (trace w) /\
  returns (fst (sync_loop n ce w)).
Proof.
  revert ce w. induction n as [|n IH]; intros ce w Hw; [split; [reflexivity|exact Logic.I]|].
  simpl sync_loop. rewrite bind_run.
  destruct (sync_body_silent w Hw) as [Hr Hw'].
  destruct (sync_body w) as [[b|e] w'] eqn:E; simpl in Hr, Hw'; [|contradiction].
  rewrite (sync_iteration_completed ce w w' b E).
  pose proof (sync_body_no_check w) as Hn. rewrite E in Hn. simpl in Hn.
  destruct (IH (if b then 0 else ce) w' Hw') as [H1 H2].
  split; [congruence | exact H2].
Qed.

End Silence.

(** C3, as amended. Three consecutive failed iterations of the
    reconciliation loop, an iteration failing when an exception leaves its
    body, cause exactly one console connectivity check, after the third,
    and reset the failure counter to zero; one failure or two cause none.
    A query timeout is not a failure: with a console that never answers, no
    number of iterations calls the connectivity check. *)
Theorem failure_escalation (w0 : World) :
  let r1 := sync_iteration 0 w0 in
  let r2 := sync_iteration 1 (snd r1) in
  let r3 := sync_iteration 2 (snd r2) in
  (tick_fails w0 -> tick_fails (snd r1) -> tick_fails (snd r2) ->
   fst r1 = Ok 1 /\ check_calls (trace (snd r1)) = check_calls (trace w0) /\
   fst r2 = Ok 2 /\ check_calls (trace (snd r2)) = check_calls (trace w0) /\
   fst r3 = Ok 0 /\ check_calls (trace (snd r3)) = S (check_calls (trace w0))) /\
  (console_silent -> well_formed w0 ->
   forall n ce, check_calls (trace (snd (sync_loop n ce w0))) = check_calls (trace w0)).
Proof.
  cbv zeta. split.
  - intros F0 F1 F2.
    destruct (sync_iteration_failed 0 w0 F0) as [E1 _].
    specialize (E1 ltac:(unfold MAX_SYNC_RETRIES; lia)).
    rewrite E1 in F1, F2 |- *. cbn [fst snd] in F1, F2 |- *.
    destruct (sync_iteration_failed 1 _ F1) as [E2 _].
    specialize (E2 ltac:(unfold MAX_SYNC_RETRIES; lia)).
    rewrite E2 in F2 |- *. cbn [fst snd] in F2 |- *.
    destruct (sync_iteration_failed 2 _ F2) as [_ E3].
    destruct (E3 ltac:(unfold MAX_SYNC_RETRIES; lia)) as [E3a E3b].
    rewrite E3a, E3b, check_connection_calls, !sync_body_no_check.
    repeat split; reflexivity.
  - intros Hs Hw n ce. apply (sync_loop_silent Hs n ce w0 Hw).
Qed.

(** ** The fader half of the reconciliation block *)

#[local] Instance strip_undisturbed_frame (ch : Z) (w0 : World) :
  FrameIO (strip_undisturbed ch w0) (fun c => c <> ch) True True.
Proof.
  split.
  - intros e w He Hw. destruct e; try exact Hw.
    destruct Hw as [Hd Ht]. split; [exact Hd|]. simpl.
    destruct (Z.eqb_spec ch0 ch); [contradiction | exact Ht].
  - intros w Hw. exact Hw.
  - intros f w Hw. exact Hw.
Qed.

Lemma channel_run (ch : Z) (st : ChannelState) (w : World) :
  strip w ch = Some st -> channel ch w = (Ok st, w).
Proof. intros H. unfold channel. unfold strip in H. rewrite H. reflexivity. Qed.

Lemma assign_run (ch : Z) (f : ChannelState -> ChannelState) (st : ChannelState)
    (w : World) :
  strip w ch = Some st ->
  assign_channel ch f w
  = (Ok tt, with_device (fun d => set_channels (<[ch := f st]> (channels d)) d) w).
Proof.
  intros H. unfold assign_channel.
  rewrite (bind_ok _ _ _ _ _ (channel_run ch st w H)). reflexivity.
Qed.

Lemma set_fader_run (ch v : Z) (w : World) :
  exists w',
    set_fader ch v w = (Ok tt, w') /\
    device w' = device w /\
    set_fader_calls ch (trace w') = v :: set_fader_calls ch (trace w).
Proof.
  unfold set_fader, emit, modify, when. rewrite bind_run. cbv iota beta.
  destruct (in_1_8 ch).
  - destruct (py_int _) as [p|e]; eexists; (split; [reflexivity|]); simpl;
      rewrite Z.eqb_refl; split; reflexivity.
  - eexists. split; [reflexivity|]. simpl. rewrite Z.eqb_refl. split; reflexivity.
Qed.

Lemma sync_fader_touched (t : target) (ch k : Z) (w : World) (st : ChannelState) :
  strip w ch = Some st -> is_touched st = true ->
  sync_fader t ch k w = (Ok tt, w).
Proof.
  intros Hs Ht. unfold sync_fader. rewrite bind_run. unfold channel.
  unfold strip in Hs. rewrite Hs. cbv iota beta. rewrite Ht. reflexivity.
Qed.

(** C2, as amended. On each tick, for an untouched strip whose console
    fader read returns a value, that value is compared with the strip's
    [fader_value]: it is pushed to the surface exactly when the absolute
    difference exceeds the deadband of 15, and [fader_value] and
    [last_stable_value] are then both set to it; within the deadband
    there is no surface write. *)
Theorem sync_fader_untouched (t : target) (ch k remote : Z) (w w1 : World)
    (st : ChannelState) :
  strip w ch = Some st ->
  is_touched st = false ->
  getFader t k w = (Ok (Some remote), w1) ->
  fst (sync_fader t ch k w) = Ok tt /\
  set_fader_calls ch (trace (snd (sync_fader t ch k w)))
  = ((if FADER_DEADBAND <? Z.abs (remote - fader_value st) then [remote] else [])
     ++ set_fader_calls ch (trace w))%list /\
  (FADER_DEADBAND < Z.abs (remote - fader_value st) ->
   strip (snd (sync_fader t ch k w)) ch
   = Some (set_last_stable_value remote (set_fader_value remote st))).
Proof.
  intros Hs Ht Hg.
  assert (H1 : strip_undisturbed ch w w1).
  { pose proof (keeps_getFader (I := strip_undisturbed ch w) t k w) as H.
    rewrite Hg in H. apply H. split; reflexivity. }
  destruct H1 as [Hd1 Hc1].
  assert (Hs1 : strip w1 ch = Some st) by (unfold strip; rewrite Hd1; exact Hs).
  assert (Hw : exists w2,
             when (FADER_DEADBAND <? Z.abs (remote - fader_value st))
               (set_fader ch remote) w1 = (Ok tt, w2) /\
             device w2 = device w1 /\
             set_fader_calls ch (trace w2)
             = ((if FADER_DEADBAND <? Z.abs (remote - fader_value st)
                 then [remote] else []) ++ set_fader_calls ch (trace w1))%list).
  { destruct (FADER_DEADBAND <? Z.abs (remote - fader_value st)); simpl.
    - apply set_fader_run.
    - exists w1. repeat split. }
  destruct Hw as (w2 & Hr2 & Hd2 & Hc2).
  assert (Hs2 : strip w2 ch = Some st) by (unfold strip; rewrite Hd2; exact Hs1).
  set (w3 := with_device
               (fun d => set_channels (<[ch := set_fader_value remote st]> (channels d)) d)
               w2).
  assert (Hs3 : strip w3 ch = Some (set_fader_value remote st))
    by (unfold strip; simpl; apply lookup_insert_eq).
  assert (Hrun : sync_fader t ch k w
                 = (Ok tt,
                    with_device
                      (fun d => set_channels
                         (<[ch := set_last_stable_value remote (set_fader_value remote st)]>
                            (channels d)) d) w3)).
  { unfold sync_fader.
    rewrite (bind_ok _ _ _ _ _ (channel_run ch st w Hs)), Ht. cbn [negb].
    rewrite (bind_ok _ _ _ _ _ Hg).
    rewrite (bind_ok _ _ _ _ _ (channel_run ch st w1 Hs1)).
    rewrite (bind_ok _ _ _ _ _ Hr2).
    rewrite (bind_ok _ _ _ _ _ (assign_run ch _ st w2 Hs2)).
    apply (assign_run ch _ _ w3 Hs3). }
  rewrite Hrun. cbn [fst snd].
  split; [reflexivity|]. split.
  - simpl. rewrite Hc2, Hc1. reflexivity.
  - intros _. unfold strip. simpl. apply lookup_insert_eq.
Qed.

(** ** Touch arbitration *)

#[local] Instance fader_calls_kept_frame (c : Z) (w0 : World) :
  Frame (fader_calls_kept c w0) (fun _ => True) (fun ch => ch <> c) True True.
Proof.
  split; [split|..]; try (intros; assumption); try exact Logic.I.
  intros e w He Hw. destruct e; try exact Hw.
  unfold fader_calls_kept in *. simpl.
  destruct (Z.eqb_spec ch c); [contradiction | exact Hw].
Qed.

Lemma for_each_ok_inv {A : Type} (x : A) (r : list A) (body : A -> M unit)
    (w w' : World) :
  for_each (x :: r) body w = (Ok tt, w') ->
  exists w1, body x w = (Ok tt, w1) /\ for_each r body w1 = (Ok tt, w').
Proof.
  simpl. intros H. apply bind_ok_inv in H. destruct H as ([] & w1 & H1 & H2). eauto.
Qed.

(** C1 fails on the code. In a tick on page 0 that runs through, the
    surface fader of strip 8 is commanded to the lighting average even
    while the strip is held: exactly one [set_fader] call on strip 8 is
    added, with the value [getSaallicht] returns. *)
Theorem sync_body_drives_held_strip_8 (w w' : World) (st : ChannelState) :
  selected_page (device w) = 0 ->
  strip w 8 = Some st ->
  is_touched st = true ->
  sync_body w = (Ok true, w') ->
  exists avg w2,
    getSaallicht w2 = (Ok avg, w2) /\
    set_fader_calls 8 (trace w') = avg :: set_fader_calls 8 (trace w).
Proof.
  intros Hpage Hs Ht Hrun.
  assert (Hall : fader_reads (fun _ : Z => True)) by (intros n t k v q _ _; exact Logic.I).
  unfold sync_body in Hrun.
  apply bind_ok_inv in Hrun. destruct Hrun as (connected & wa & Hc & Hrun).
  assert (Ha : fader_calls_kept 8 w wa).
  { pose proof (keeps_is_connected (I := fader_calls_kept 8 w) w eq_refl) as H.
    rewrite Hc in H. apply H. }
  assert (Hpa : selected_page (device wa) = 0).
  { unfold is_connected, interact in Hc. injection Hc as _ <-. exact Hpage. }
  destruct connected; cbn [negb] in Hrun; [|discriminate].
  apply bind_ok_inv in Hrun. destruct Hrun as (w0 & wa' & Hg & Hrun).
  unfold get_world in Hg. injection Hg as <- <-.
  cbv zeta in Hrun. rewrite Hpa in Hrun. change (0 =? 0) with true in Hrun. cbv iota in Hrun.
  apply bind_ok_inv in Hrun. destruct Hrun as ([] & wb & Hgain & Hrun).
  assert (Hb : fader_calls_kept 8 w wb).
  { assert (H : keeps (fader_calls_kept 8 w) (sync_gain_for_page 0))
      by (eapply keeps_sync_gain_for_page; eauto).
    specialize (H wa Ha). rewrite Hgain in H. apply H. }
  apply bind_ok_inv in Hrun. destruct Hrun as ([] & wc & Hblock & Hret).
  injection Hret as <-.
  apply bind_ok_inv in Hblock. destruct Hblock as ([] & w1 & Hin & Hblock).
  assert (H1 : fader_calls_kept 8 w w1).
  { assert (H : keeps (fader_calls_kept 8 w)
                  (for_each (range 1 5) (fun ch => sync_strip Ch ch ch))).
    { apply keeps_for_each. intros ch Hch. eapply keeps_sync_strip; eauto.
      apply in_map_iff in Hch. destruct Hch as (i & <- & Hi). apply in_seq in Hi. lia. }
    specialize (H wb Hb). rewrite Hin in H. apply H. }
  apply bind_ok_inv in Hblock. destruct Hblock as ([] & w2 & Hmtx & Hblock).
  assert (H2 : fader_calls_kept 8 w w2).
  { assert (H : keeps (fader_calls_kept 8 w)
                  (for_each [(5, 1); (6, 2); (7, 3)]
                     (fun '(ch, mtx_num) => sync_strip Mtx ch mtx_num))).
    { apply keeps_for_each. intros [ch m] Hch. eapply keeps_sync_strip; eauto.
      simpl in Hch. destruct Hch as [[= <- <-]|[[= <- <-]|[[= <- <-]|[]]]]; lia. }
    specialize (H w1 H1). rewrite Hmtx in H. apply H. }
  apply bind_ok_inv in Hblock. destruct Hblock as (avg & w3 & Havg & Hset).
  assert (E3 : w3 = w2).
  { unfold getSaallicht, get_world, lift in Havg. rewrite !bind_run in Havg.
    cbv iota beta zeta in Havg.
    repeat match type of Havg with
           | context [py_getitem ?l ?i] => destruct (py_getitem l i); cbv iota beta in Havg;
                                           [rewrite ?bind_run in Havg | discriminate]
           end.
    destruct (py_int _); cbv iota beta in Havg; congruence. }
  subst w3.
  destruct (set_fader_run 8 avg w2) as (w4 & Hr4 & _ & Hc4).
  rewrite Hr4 in Hset. injection Hset as <-.
  exists avg, w2. split; [exact Havg|]. rewrite Hc4, H2. reflexivity.
Qed.

#[local] Instance held_strip_quiet_frame (c : Z) (w0 : World) :
  Frame (held_strip_quiet c w0) (fun _ => True) (fun ch => ch <> c) True True.
Proof.
  assert (Hins : forall ch (st st' : ChannelState) w,
            is_touched st' = is_touched st -> strip w ch = Some st ->
            held_strip_quiet c w0 w ->
            held_strip_quiet c w0 (with_device
              (fun d => set_channels (<[ch := st']> (channels d)) d) w)).
  { intros ch st st' w Ht Hs ((s0 & Hs0 & Ht0) & Hp & Hc).
    split; [|split; assumption]. unfold strip. simpl.
    destruct (decide (ch = c)) as [->|Hne].
    - rewrite lookup_insert_eq. exists st'. split; [reflexivity|]. congruence.
    - rewrite lookup_insert_ne by exact Hne. eauto. }
  split; [split|..]; try (intros; assumption); try exact Logic.I.
  - intros e w He (Hh & Hp & Hc). split; [exact Hh|]. split; [exact Hp|].
    destruct e; try exact Hc. simpl.
    destruct (Z.eqb_spec ch c); [contradiction | exact Hc].
  - intros ch st g w Hw Hs. apply (Hins ch st); auto.
  - intros ch st v w _ Hw Hs. apply (Hins ch st); auto.
  - intros ch st v w _ Hw Hs. apply (Hins ch st); auto.
Qed.

Lemma held_sync_strip (c : Z) (w0 : World) (t : target) (ch k : Z) :
  keeps (held_strip_quiet c w0) (sync_strip t ch k).
Proof.
  assert (Hall : fader_reads (fun _ : Z => True)) by (intros n t' k' v q _ _; exact Logic.I).
  destruct (decide (ch = c)) as [->|Hne]; [|eapply keeps_sync_strip; eauto].
  unfold sync_strip. apply keeps_bind; [|intros _; eapply keeps_sync_mute; eauto].
  intros w Hw. pose proof Hw as ((st & Hs & Ht) & _).
  rewrite (sync_fader_touched t c k w st Hs Ht). split; [exact Logic.I | exact Hw].
Qed.

(** Where the touch arbitration holds: in a tick, a held strip other than
    strip 8 on page 0 receives no [set_fader] call. *)
Lemma held_strip_not_driven (w : World) (c : Z) (st : ChannelState) :
  strip w c = Some st ->
  is_touched st = true ->
  selected_page (device w) <> 0 \/ c <> 8 ->
  set_fader_calls c (trace (snd (sync_body w))) = set_fader_calls c (trace w).
Proof.
  intros Hs Ht Hpc.
  assert (Hall : fader_reads (fun _ : Z => True)) by (intros n t' k' v q _ _; exact Logic.I).
  assert (H : keeps (held_strip_quiet c w) sync_body).
  { unfold sync_body.
    apply keeps_bind; [eapply keeps_is_connected | intros connected].
    destruct (negb connected); [apply keeps_ret|].
    apply (spec_bind _ _ _ (fun r => forall w1, r = Ok w1 -> held_strip_quiet c w w1));
      [intros w1 H1; split; [intros ? [= <-]; exact H1 | exact H1] | | trivial].
    intros w1 H1. specialize (H1 w1 eq_refl). destruct H1 as (_ & Hp1 & _).
    cbv zeta. rewrite Hp1.
    apply keeps_bind; [eapply keeps_sync_gain_for_page; eauto | intros _].
    apply keeps_bind; [|intros _; apply keeps_ret].
    destruct (Z.eqb_spec (selected_page (device w)) 0) as [Hp0|Hp0].
    - assert (Hc8 : 8 <> c) by (destruct Hpc; congruence).
      apply keeps_bind; [apply keeps_for_each; intros; apply held_sync_strip | intros _].
      apply keeps_bind;
        [apply keeps_for_each; intros [ch m] _; apply held_sync_strip | intros _].
      apply keeps_bind; [eapply keeps_getSaallicht | intros avg].
      apply keeps_set_fader. exact Hc8.
    - destruct (selected_page (device w) =? 1);
        [apply keeps_for_each; intros; apply held_sync_strip|].
      destruct (selected_page (device w) =? 2);
        [apply keeps_for_each; intros; apply held_sync_strip | apply keeps_ret]. }
  refine (proj2 (proj2 (proj2 (H w _)))).
  split; [eauto | split; reflexivity].
Qed.

(** ** Mute reads that fail *)

Lemma on_button_mute (ch : Z) (w : World) :
  on_button ch Mute true w
  = match mute_target (selected_page (device w)) ch with
    | Some (t, n) => toggle_mute t ch n w
    | None => (Ok tt, w)
    end.
Proof.
  unfold on_button, mute_target. cbn [negb]. rewrite bind_run.
  cbn [get_world]. 
  destruct (selected_page (device w) =? 0).
  { destruct (ch <=? 4); [reflexivity|]. destruct (bool_decide _); reflexivity. }
  destruct (selected_page (device w) =? 1); [reflexivity|].
  destruct (selected_page (device w) =? 2); reflexivity.
Qed.

Lemma getMute_unreadable (t : target) (n : Z) (w : World) :
  unreadable (osc_reply env (clock w) (AddrMute t n)) ->
  exists w1, getMute t n w = (Ok false, w1) /\
             trace w1 = EvQuery (AddrMute t n) :: trace w.
Proof.
  intros H. unfold getMute, _query, emit, modify, interact.
  rewrite !bind_run. cbn [clock with_trace].
  destruct (osc_reply env (clock w) (AddrMute t n)) as [| |v]; cbn [unreadable] in H.
  - eexists. split; reflexivity.
  - eexists. split; reflexivity.
  - destruct v as [k|f|s]; try contradiction. destruct H as [Hf Hw].
    rewrite !bind_run. cbn.
    unfold mute_of_reply, py_float. rewrite Hf. cbn.
    rewrite bool_decide_eq_false_2 by exact Hw.
    eexists. split; reflexivity.
Qed.

(** C10. A mute read whose query gets no answer in time, an answer that
    cannot be decoded, or a text that is neither a number nor a mute word
    returns [False], and never [None] or an exception.  A press of the mute
    button of a strip with a console target then completes, sends
    [setMute(True)] to that target and lights the strip's mute LED, whatever
    the console's mute state is. *)
Theorem mute_read_failure_reads_unmuted (w : World) (t : target) (n : Z) :
  unreadable (osc_reply env (clock w) (AddrMute t n)) ->
  fst (getMute t n w) = Ok false /\
  forall ch, mute_target (selected_page (device w)) ch = Some (t, n) ->
    fst (on_button ch Mute true w) = Ok tt /\
    trace (snd (on_button ch Mute true w)) = (mute_press_trace ch t n ++ trace w)%list.
Proof.
  intros H. destruct (getMute_unreadable t n w H) as (w1 & Hrun & Htr).
  split; [rewrite Hrun; reflexivity|].
  intros ch Ht. rewrite on_button_mute, Ht. unfold toggle_mute.
  rewrite (bind_ok _ _ _ _ _ Hrun). cbn [negb].
  unfold setMute, _send_osc, set_led, emit, modify, interact, when, mute_press_trace.
  rewrite !bind_run. cbn.
  destruct (in_1_8 ch); cbn; rewrite Htr; split; reflexivity.
Qed.

(** ** Encoder turns *)

Lemma ltb_leb (a b : float) : PrimFloat.ltb a b = true -> PrimFloat.leb a b = true.
Proof.
  rewrite ltb_spec, leb_spec. unfold SFltb, SFleb.
  destruct (SFcompare _ _) as [[| |]|]; congruence.
Qed.

Lemma clamp_gain_cases (g : float) :
  clamp_gain g = GAIN_MIN \/ clamp_gain g = GAIN_MAX \/
  (clamp_gain g = g /\ PrimFloat.ltb GAIN_MIN g = true /\ PrimFloat.ltb g GAIN_MAX = true).
Proof.
  unfold clamp_gain, py_max, py_min.
  destruct (PrimFloat.ltb g GAIN_MAX) eqn:E1.
  - destruct (PrimFloat.ltb GAIN_MIN g) eqn:E2; auto.
  - right. left. reflexivity.
Qed.

Lemma clamp_gain_in_range (g : float) : gain_in_range (clamp_gain g) = true.
Proof.
  unfold gain_in_range.
  destruct (clamp_gain_cases g) as [->|[->|(-> & H1 & H2)]]; try reflexivity.
  rewrite (ltb_leb _ _ H1), (ltb_leb _ _ H2). reflexivity.
Qed.

Lemma clamp_gain_idempotent (g : float) : clamp_gain (clamp_gain g) = clamp_gain g.
Proof.
  destruct (clamp_gain_cases g) as [->|[->|(-> & H1 & H2)]]; try reflexivity.
  unfold clamp_gain, py_max, py_min. rewrite H2, H1. reflexivity.
Qed.

Lemma setGain_run (grp : osc_arg) (num : Z) (g : float) (w : World) :
  setGain grp num g w
  = (Ok (osc_send_ok env (clock w)),
     advance (with_trace (cons (EvSendOsc (AddrGain grp num) (clamp_gain g))) w)).
Proof. reflexivity. Qed.

Lemma set_encoder_ring_run (ch value mode : Z) (w : World) :
  exists w', set_encoder_ring ch value mode w = (Ok tt, w') /\
             device w' = device w /\
             forall e, In e (trace w) -> In e (trace w').
Proof.
  unfold set_encoder_ring, emit, modify, when. rewrite bind_run. cbv iota beta zeta.
  destruct (in_1_8 ch); [destruct (data_byte _)|]; eexists; (split; [reflexivity|]);
    (split; [reflexivity|]); intros e He; simpl; auto.
Qed.

(** C5, amended.  An encoder turn with a delta other than 0, on a strip
    whose input source resolves and whose gain write is sent, moves the
    stored gain by one step of 1.0 dB in the direction of the delta,
    whatever its size, clamps it to [-2.5, 45.0] dB and sends that gain to
    the source; turning up from 44.5 dB stops at 45.0 dB exactly. *)
Theorem on_encoder_steps_once (w w1 : World) (ch delta wing_ch num : Z)
    (grp : osc_arg) (st : ChannelState) :
  delta <> 0 ->
  encoder_wing_ch (selected_page (device w)) ch = Some wing_ch ->
  getChannelInputSource wing_ch w = (Ok (Some (grp, num)), w1) ->
  strip w ch = Some st ->
  osc_send_ok env (clock w1) = true ->
  let new_gain :=
    clamp_gain (if 0 <? delta then (gain_db st + 1.0)%float
                else (gain_db st - 1.0)%float) in
  let w' := snd (on_encoder ch delta w) in
  option_map gain_db (strip w' ch) = Some new_gain /\
  In (EvSendOsc (AddrGain grp num) new_gain) (trace w') /\
  gain_in_range new_gain = true /\
  clamp_gain (44.5 + 1.0)%float = 45.0%float /\
  clamp_gain (45.0 + 1.0)%float = 45.0%float.
Proof.
  intros _ Hwch Hsrc Hs Hsend new_gain.
  assert (Hdev : device w1 = device w).
  { assert (K : keeps (strip_undisturbed ch w) (getChannelInputSource wing_ch))
      by (eapply keeps_getChannelInputSource; typeclasses eauto).
    pose proof (K w (conj eq_refl eq_refl)) as [_ [Hd _]].
    rewrite Hsrc in Hd. exact Hd. }
  assert (Hs1 : strip w1 ch = Some st) by (unfold strip; rewrite Hdev; exact Hs).
  cbv zeta. unfold on_encoder. rewrite bind_run. cbn [get_world].
  unfold encoder_wing_ch in Hwch. rewrite Hwch.
  rewrite (bind_ok _ _ _ _ _ Hsrc).
  rewrite (bind_ok _ _ _ _ _ (channel_run ch st w1 Hs1)).
  rewrite bind_run, setGain_run, Hsend. fold GAIN_STEP. fold new_gain.
  set (w2 := advance _).
  assert (Hs2 : strip w2 ch = Some st) by exact Hs1.
  rewrite (bind_ok _ _ _ _ _ (assign_run ch (set_gain_db new_gain) st w2 Hs2)).
  set (w3 := with_device _ w2).
  assert (Hs3 : strip w3 ch = Some (set_gain_db new_gain st))
    by (unfold strip, w3; simpl; apply lookup_insert_eq).
  assert (Hin : In (EvSendOsc (AddrGain grp num) new_gain) (trace w3)).
  { unfold w3, w2. simpl. left. unfold new_gain. rewrite clamp_gain_idempotent.
    reflexivity. }
  refine (conj _ (conj _ (conj (clamp_gain_in_range _) (conj eq_refl eq_refl)))).
  - rewrite bind_run. unfold lift at 1. destruct (ring_value _) as [ring|e].
    + destruct (set_encoder_ring_run ch ring 1 w3) as (w4 & -> & Hd4 & _).
      unfold strip. cbn [snd]. rewrite Hd4. fold (strip w3 ch). rewrite Hs3. reflexivity.
    + cbn [snd]. rewrite Hs3. reflexivity.
  - rewrite bind_run. unfold lift at 1. destruct (ring_value _) as [ring|e].
    + destruct (set_encoder_ring_run ch ring 1 w3) as (w4 & -> & _ & H4).
      cbn [snd]. apply H4, Hin.
    + cbn [snd]. exact Hin.
Qed.

(** ** The LED ring *)

(** C6, amended.  The ring position shown for a gain is
    [int(gain / 45.0 * 11)], the quotient cut off toward zero and not
    rounded; for every gain in the clamped range [-2.5, 45.0] dB it is
    computed without error and lies in 0..11. *)
Theorem ring_value_within_0_11 (gain : float) :
  gain_in_range gain = true ->
  exists n,
    ring_value gain = Ok n /\ 0 <= n <= 11 /\
    py_int (gain / 45.0 * float_of_Z 11)%float = Ok n.
Proof.
  intros H. destruct (ring_value_in_range gain H) as (n & Hn & Hr).
  exists n. split; [exact Hn|]. split; [exact Hr | exact Hn].
Qed.

(** ** The curve codec *)

(** The round trip of one position through both conversions, as a check
    that evaluates. *)
Lemma roundtrip_all :
  forallb (fun pos => match db_to_fader (OFloat (fader_to_db pos)) with
                      | Ok (Some q) => Z.abs (q - pos) <=? 1
                      | _ => false
                      end) (range 6 1001) = true.
Proof. vm_compute. reflexivity. Qed.

(** C4. For every integer position [pos] in [6, 1000], the dB value that
    [setFader] computes for [pos], read back through the conversion of
    [getFader] (quadratic formula, clamp to [0, 1000], truncation), is a
    position within 1 unit of [pos]. *)
Theorem curve_roundtrip_within_1 (pos : Z) :
  6 <= pos <= 1000 ->
  exists q, db_to_fader (OFloat (fader_to_db pos)) = Ok (Some q) /\ Z.abs (q - pos) <= 1.
Proof.
  intros Hpos.
  pose proof (forallb_range _ 6 1001 pos roundtrip_all ltac:(lia)) as H.
  cbv beta in H.
  destruct (db_to_fader (OFloat (fader_to_db pos))) as [[q|]|]; try discriminate.
  exists q. split; [reflexivity|]. apply Z.leb_le. exact H.
Qed.

(** * Further properties of the code *)

(** ** The console client's reads *)

Lemma _query_run (a : address) (w : World) :
  _query a w
  = (Ok (reply_value (osc_reply env (clock w) a)),
     with_wing (wing_after (osc_reply env (clock w) a))
       (advance (with_trace (cons (EvQuery a)) w))).
Proof.
  unfold _query, emit, modify, interact. rewrite !bind_run. cbn.
  destruct (osc_reply env (clock w) a); reflexivity.
Qed.

Lemma db_to_fader_total (v : osc_arg) :
  exists r, db_to_fader v = Ok r /\
            match r with Some q => 0 <= q <= 1000 | None => True end.
Proof.
  destruct (db_to_fader v) as [[q|]|e] eqn:E.
  - exists (Some q). split; [reflexivity|]. exact (db_to_fader_clamped v q E).
  - exists None. split; [reflexivity | exact Logic.I].
  - exfalso. revert E. unfold db_to_fader, except_value_type.
    destruct (py_str_is v "-oo"); [discriminate|].
    destruct v as [n|f|s]; cbn [py_float].
    3: destruct (float_of_str s) as [f|]; [|discriminate].
    all: destruct (PrimFloat.leb _ _); [discriminate|];
      match goal with
      | |- context [PrimFloat.ltb ?d 0] => destruct (PrimFloat.ltb d 0)
      end; [discriminate|];
      match goal with
      | |- context [py_int (py_max _ (py_min _ ?r))] =>
          destruct (py_int_clamped r) as (n' & -> & _)
      end; discriminate.
Qed.

(** X1. [getFader] never raises, whatever the console replies: it issues
    one query and returns [None] or a position in [0, 1000], and leaves the
    strips and the lighting state alone. *)
Theorem getFader_never_fails (t : target) (k : Z) (w : World) :
  exists r w',
    getFader t k w = (Ok r, w') /\
    match r with Some q => 0 <= q <= 1000 | None => True end /\
    trace w' = EvQuery (AddrFdr t k) :: trace w /\
    device w' = device w /\ dmx w' = dmx w.
Proof.
  unfold getFader. rewrite bind_run, _query_run.
  destruct (osc_reply env (clock w) (AddrFdr t k)) as [| |v]; cbn [reply_value].
  - eexists None, _. repeat split.
  - eexists None, _. repeat split.
  - destruct (db_to_fader_total v) as (r & E & Hr). unfold lift. rewrite E.
    eexists r, _. split; [reflexivity|]. split; [exact Hr|]. repeat split.
Qed.

(** X2. [getGain] never raises: it returns [None] or a gain within
    [-2.5, 45.0] dB, whatever number the console replies; a NaN reads as
    45.0 dB. *)
Theorem getGain_never_fails (grp : osc_arg) (num : Z) (w : World) :
  (exists r w',
     getGain grp num w = (Ok r, w') /\
     match r with Some g => gain_in_range g = true | None => True end /\
     trace w' = EvQuery (AddrGain grp num) :: trace w) /\
  (forall f, PrimFloat.is_nan f = true -> clamp_gain f = 45.0%float).
Proof.
  split.
  - unfold getGain. rewrite bind_run, _query_run.
    destruct (osc_reply env (clock w) (AddrGain grp num)) as [| |v]; cbn [reply_value].
    + eexists None, _. repeat split.
    + eexists None, _. repeat split.
    + unfold lift, except_value_type.
      destruct v as [n|f|s]; cbn [py_float].
      3: destruct (float_of_str s) as [f|].
      all: eexists _, _; (split; [reflexivity|]); split; try reflexivity;
        try apply clamp_gain_in_range; exact Logic.I.
  - intros f Hf. unfold clamp_gain, py_max, py_min.
    assert (E : PrimFloat.ltb f GAIN_MAX = false).
    { rewrite ltb_spec. unfold Prim2SF at 1. rewrite Hf. reflexivity. }
    rewrite E. reflexivity.
Qed.

(** ** The fader law *)

Lemma fader_law_steps :
  forallb (fun p => PrimFloat.ltb (fader_to_db p) (fader_to_db (p + 1))) (range 5 1000)
  = true.
Proof. vm_compute. reflexivity. Qed.

(** X3. The dB value [setFader] sends rises strictly with every step of
    the position from 5 to 1000; at and below 5 it is the floor of
    -144 dB, and a position above 1000 is sent as 1000. *)
Theorem fader_law_shape (pos : Z) :
  (pos <= 5 -> fader_to_db pos = (-144.0)%float) /\
  (5 <= pos < 1000 -> PrimFloat.ltb (fader_to_db pos) (fader_to_db (pos + 1)) = true) /\
  (1000 <= pos -> fader_to_db pos = fader_to_db 1000).
Proof.
  refine (conj _ (conj _ _)).
  - intros H. unfold fader_to_db, FADER_MIN, FADER_MAX, FADER_SILENT_THRESHOLD.
    destruct (Z.leb_spec 0 pos), (Z.leb_spec pos 1000); cbn [andb]; try lia.
    + destruct (Z.leb_spec pos 5); [reflexivity | lia].
    + replace (Z.max 0 (Z.min 1000 pos)) with 0 by lia. reflexivity.
  - intros H. exact (forallb_range _ 5 1000 pos fader_law_steps H).
  - intros H. unfold fader_to_db at 1. unfold FADER_MIN, FADER_MAX.
    destruct (Z.leb_spec 0 pos), (Z.leb_spec pos 1000); cbn [andb]; try lia.
    + replace pos with 1000 by lia. reflexivity.
    + replace (Z.max 0 (Z.min 1000 pos)) with 1000 by lia. reflexivity.
Qed.

(** ** The surface driver's encodings *)

Lemma fader_pitch_roundtrip :
  forallb (fun v =>
      match py_int (float_of_Z v / float_of_Z FADER_MAX * float_of_Z 16383)%float with
      | Ok p =>
          (0 <=? p) && (p <=? 16383) &&
          match pitch_to_fader (p - 8192) with
          | Ok q => q =? (if (v =? 0) || (v =? 1000) then v else v - 1)
          | Raise _ => false
          end
      | Raise _ => false
      end) (range 0 1001) = true.
Proof. vm_compute. reflexivity. Qed.

(** X4. For a strip in 1..8 and a position [val] in [0, 1000],
    [set_fader] sends one pitch-bend message on MIDI channel [ch - 1]
    whose pitch lies in the 14-bit range; decoded as [_input_callback]
    decodes an inbound pitch-bend, that pitch gives [val] at the two ends
    of the range and [val - 1] everywhere between. *)
Theorem set_fader_pitch_decodes (ch val : Z) (w : World) :
  1 <= ch <= 8 -> 0 <= val <= 1000 ->
  exists pitch,
    set_fader ch val w
    = (Ok tt, with_trace (cons (EvMidiOut (Pitchwheel (ch - 1) pitch)))
                (with_trace (cons (EvSetFader ch val)) w)) /\
    -8192 <= pitch <= 8191 /\
    pitch_to_fader pitch = Ok (if (val =? 0) || (val =? 1000) then val else val - 1).
Proof.
  intros Hch Hval.
  pose proof (forallb_range _ 0 1001 val fader_pitch_roundtrip ltac:(lia)) as H.
  cbv beta in H.
  unfold set_fader, emit, modify, when, in_1_8. rewrite bind_run. cbv iota beta.
  destruct (Z.leb_spec 1 ch), (Z.leb_spec ch 8); cbn [andb]; try lia.
  unfold FADER_MIN. replace (Z.max 0 (Z.min FADER_MAX val)) with val
    by (unfold FADER_MAX; lia).
  destruct (py_int _) as [p|]; [|discriminate].
  apply andb_prop in H as [Hp Hq]. apply andb_prop in Hp as [Hp0 Hp1].
  destruct (pitch_to_fader (p - 8192)) as [q|] eqn:Eq; [|discriminate].
  apply Z.eqb_eq in Hq. subst q.
  exists (p - 8192). split; [reflexivity|]. split; [lia | exact Eq].
Qed.

(** X5. The note number [set_led] uses for the LED of a button is the
    note number [_input_callback] decodes to that button: for a strip in
    1..8, an inbound note with the LED's number is dispatched to the
    handler of that same button of that same strip. *)
Theorem led_note_is_button_note (ch : Z) (btn : button) (state : bool) (w : World) :
  1 <= ch <= 8 ->
  on_note (button_note btn + ch - 1) state w = on_button ch btn state w.
Proof.
  intros Hch. unfold on_note.
  destruct btn; cbn [button_note];
    repeat match goal with
    | |- context [?a <=? ?b] => destruct (Z.leb_spec a b); try lia
    end; cbn [andb]; f_equal; f_equal; lia.
Qed.

Lemma ring_code_bits (value mode : Z) :
  0 <= mode ->
  Z.land (Z.lor (Z.shiftl mode 4) (Z.land value 15)) 15 = value mod 16 /\
  Z.shiftr (Z.lor (Z.shiftl mode 4) (Z.land value 15)) 4 = mode.
Proof.
  intros Hm. change 15 with (Z.ones 4). split.
  - rewrite Z.land_lor_distr_l, <- Z.land_assoc, Z.land_diag.
    rewrite (Z.land_ones (Z.shiftl mode 4)) by lia.
    rewrite Z.shiftl_mul_pow2 by lia. rewrite Z.mod_mul by (compute; lia).
    rewrite Z.lor_0_l. rewrite Z.land_ones by lia. reflexivity.
  - rewrite Z.shiftr_lor, Z.shiftr_shiftl_l by lia. rewrite Z.sub_diag, Z.shiftl_0_r.
    rewrite Z.land_ones by lia. rewrite Z.shiftr_div_pow2 by lia.
    rewrite Z.div_small by (apply Z.mod_pos_bound; apply Z.pow_pos_nonneg; lia).
    apply Z.lor_0_r.
Qed.

(** X6. For a strip in 1..8 and a mode in 0..7, [set_encoder_ring] sends
    one control change with number [47 + ch] whose value is a MIDI data
    byte carrying the position modulo 16 in its low four bits and the mode
    above them.  With any other mode the encoded value is no data byte and
    nothing is sent. *)
Theorem set_encoder_ring_code (ch value mode : Z) (w : World) :
  1 <= ch <= 8 ->
  (0 <= mode <= 7 ->
   exists code,
     set_encoder_ring ch value mode w
     = (Ok tt, with_trace (cons (EvMidiOut (ControlChange (47 + ch) code)))
                 (with_trace (cons (EvSetEncoderRing ch value mode)) w)) /\
     0 <= code <= 127 /\
     Z.land code 15 = value mod 16 /\ Z.shiftr code 4 = mode) /\
  (mode < 0 \/ 7 < mode ->
   set_encoder_ring ch value mode w
   = (Ok tt, with_trace (cons (EvSetEncoderRing ch value mode)) w)).
Proof.
  intros Hch.
  assert (Hrun : set_encoder_ring ch value mode w
                 = (if data_byte (Z.lor (Z.shiftl mode 4) (Z.land value 15))
                    then (Ok tt,
                          with_trace
                            (cons (EvMidiOut
                                     (ControlChange (47 + ch)
                                        (Z.lor (Z.shiftl mode 4) (Z.land value 15)))))
                            (with_trace (cons (EvSetEncoderRing ch value mode)) w))
                    else (Ok tt, with_trace (cons (EvSetEncoderRing ch value mode)) w))).
  { unfold set_encoder_ring, emit, modify, when, in_1_8. rewrite bind_run.
    cbv iota beta zeta.
    destruct (Z.leb_spec 1 ch), (Z.leb_spec ch 8); cbn [andb]; try lia.
    destruct (data_byte _); reflexivity. }
  rewrite Hrun. clear Hrun.
  set (code := Z.lor (Z.shiftl mode 4) (Z.land value 15)).
  assert (Hland : 0 <= Z.land value 15) by (apply Z.land_nonneg; right; lia).
  split.
  - intros Hm. destruct (ring_code_bits value mode ltac:(lia)) as [Hlo Hhi].
    fold code in Hlo, Hhi.
    assert (Hc : 0 <= code).
    { apply Z.lor_nonneg. split; [apply Z.shiftl_nonneg; lia | exact Hland]. }
    assert (Hb : 0 <= code <= 127).
    { pose proof (Z.div_mod code 16 ltac:(lia)) as Hdm.
      pose proof Hhi as Hhi'. rewrite Z.shiftr_div_pow2 in Hhi' by lia.
      change (2 ^ 4) with 16 in Hhi'.
      pose proof (Z.mod_pos_bound code 16 ltac:(lia)). lia. }
    exists code. unfold data_byte.
    destruct (Z.leb_spec 0 code), (Z.leb_spec code 127); cbn [andb]; try lia.
    repeat split; try assumption; lia.
  - intros Hm. unfold data_byte.
    destruct (Z.leb_spec 0 code) as [Hc|Hc]; cbn [andb]; [|reflexivity].
    destruct (Z.leb_spec code 127) as [Hc'|Hc']; [|reflexivity].
    exfalso. destruct Hm as [Hm|Hm].
    + assert (Hn : code < 0); [|lia].
      apply Z.lor_neg. left. apply Z.shiftl_neg. exact Hm.
    + destruct (ring_code_bits value mode ltac:(lia)) as [_ Hhi].
      fold code in Hhi. rewrite Z.shiftr_div_pow2 in Hhi by lia.
      change (2 ^ 4) with 16 in Hhi.
      pose proof (Z.div_mod code 16 ltac:(lia)) as Hdm.
      pose proof (Z.mod_pos_bound code 16 ltac:(lia)). lia.
Qed.

(** ** The lighting sink *)

Lemma dmx_wire_values :
  forallb (fun c => match py_int (float_of_Z (c * 255) / float_of_Z 1000)%float with
                    | Ok q => q =? c * 255 / 1000
                    | Raise _ => false
                    end) (range 0 1001) = true.
Proof. vm_compute. reflexivity. Qed.

Lemma dmx_wire_value (v : Z) :
  py_int (float_of_Z (Z.max 0 (Z.min 1000 v) * 255) / float_of_Z 1000)%float
  = Ok (Z.max 0 (Z.min 1000 v) * 255 / 1000).
Proof.
  pose proof (forallb_range _ 0 1001 (Z.max 0 (Z.min 1000 v)) dmx_wire_values ltac:(lia))
    as H.
  cbv beta in H. destruct (py_int _) as [q|]; [|discriminate].
  apply Z.eqb_eq in H. congruence.
Qed.

Lemma sendDMX_open_run (c v : Z) (w : World) :
  ser_open (dmx w) = true ->
  0 <= c < Z.of_nat (length (dmx_stored_values (dmx w))) ->
  sendDMX c v w
  = (Ok tt,
     with_trace (cons (EvSerialWrite c (Z.max 0 (Z.min 1000 v) * 255 / 1000)))
       (with_dmx (fun d => {| ser_open := ser_open d;
                              dmx_stored_values :=
                                <[Z.to_nat c := v]> (dmx_stored_values (dmx w)) |})
          (with_trace (cons (EvSendDMX c v)) w))).
Proof.
  intros Ho Hc. unfold sendDMX, emit, modify, get_world, when, lift.
  rewrite !bind_run. simpl. rewrite Ho. rewrite !bind_run.
  rewrite dmx_wire_value. cbv iota beta.
  unfold py_setitem. rewrite py_index_inside by lia.
  destruct (Z.leb_spec 0 c); [|lia]. reflexivity.
Qed.

Lemma getDMX_within_shadow (w : World) (c : Z) :
  length (dmx_stored_values (dmx w)) = 513%nat ->
  0 <= c <= 512 ->
  exists x,
    dmx_stored_values (dmx w) !! Z.to_nat c = Some x /\
    getDMX c w = (Ok (if (0 <=? x) && (x <=? 1000) then x else 0), w).
Proof.
  intros Hlen Hc.
  assert (Hi := py_index_inside (dmx_stored_values (dmx w)) c).
  rewrite Hlen in Hi. specialize (Hi ltac:(lia)).
  destruct (Z.leb_spec 0 c); [|lia].
  destruct (lookup_lt_is_Some_2 (dmx_stored_values (dmx w)) (Z.to_nat c)) as [x Hx];
    [rewrite Hlen; lia|].
  exists x. split; [exact Hx|].
  unfold getDMX, get_world, lift, py_getitem. rewrite !bind_run. simpl.
  rewrite Hi, Hx. simpl. destruct ((0 <=? x) && (x <=? 1000)); reflexivity.
Qed.


(** X8. With the serial link open and a channel in 0..512, [sendDMX]
    writes one message to the serial port; its value is the argument
    clamped to [0, 1000] and scaled to [value * 255 / 1000] rounded down,
    so it lies in 0..255, while the shadow takes the argument as it came. *)
Theorem sendDMX_wire_value (c v : Z) (w : World) :
  ser_open (dmx w) = true ->
  length (dmx_stored_values (dmx w)) = 513%nat ->
  0 <= c <= 512 ->
  let q := Z.max 0 (Z.min 1000 v) * 255 / 1000 in
  trace (snd (sendDMX c v w)) = EvSerialWrite c q :: EvSendDMX c v :: trace w /\
  0 <= q <= 255 /\
  dmx_stored_values (dmx (snd (sendDMX c v w))) !! Z.to_nat c = Some v.
Proof.
  intros Ho Hlen Hc q.
  rewrite (sendDMX_open_run c v w Ho ltac:(rewrite Hlen; lia)).
  split; [reflexivity|]. split.
  - unfold q. split; [apply Z.div_pos; lia | apply Z.div_le_upper_bound; lia].
  - cbn. apply list_lookup_insert_eq. rewrite Hlen. lia.
Qed.

(** X9. With the serial link closed, [sendDMX] stores and writes nothing
    and does not fail, whatever the channel; with the link open and a
    channel outside [-513, 512] it raises [IndexError] before anything is
    stored or written. *)
Theorem sendDMX_closed_or_outside (c v : Z) (w : World) :
  (ser_open (dmx w) = false ->
   sendDMX c v w = (Ok tt, with_trace (cons (EvSendDMX c v)) w)) /\
  (ser_open (dmx w) = true ->
   length (dmx_stored_values (dmx w)) = 513%nat ->
   c < -513 \/ 512 < c ->
   sendDMX c v w = (Raise IndexError, with_trace (cons (EvSendDMX c v)) w)).
Proof.
  split.
  - intros Ho. unfold sendDMX, emit, modify, get_world, when.
    rewrite !bind_run. simpl. rewrite Ho. reflexivity.
  - intros Ho Hlen Hc. unfold sendDMX, emit, modify, get_world, when, lift.
    rewrite !bind_run. simpl. rewrite Ho. rewrite !bind_run.
    rewrite dmx_wire_value. cbv iota beta.
    unfold py_setitem. rewrite py_index_outside by (rewrite Hlen; lia). reflexivity.
Qed.

Lemma getSaallicht_run (w : World) (v1 v2 v3 v4 : Z) :
  length (dmx_stored_values (dmx w)) = 513%nat ->
  dmx_stored_values (dmx w) !! 1%nat = Some v1 ->
  dmx_stored_values (dmx w) !! 2%nat = Some v2 ->
  dmx_stored_values (dmx w) !! 3%nat = Some v3 ->
  dmx_stored_values (dmx w) !! 4%nat = Some v4 ->
  0 <= v1 + v2 + v3 + v4 <= 4000 ->
  getSaallicht w = (Ok ((v1 + v2 + v3 + v4) / 4), w).
Proof.
  intros Hlen L1 L2 L3 L4 Hsum.
  assert (Hget : forall (k : nat) x, (1 <= k <= 4)%nat ->
            dmx_stored_values (dmx w) !! k = Some x ->
            py_getitem (dmx_stored_values (dmx w)) (Z.of_nat k) = Ok x).
  { intros k x Hk Hx. unfold py_getitem.
    rewrite py_index_inside by (rewrite Hlen; lia).
    destruct (Z.leb_spec 0 (Z.of_nat k)); [|lia].
    rewrite Nat2Z.id, Hx. reflexivity. }
  pose proof (Hget 1%nat v1 ltac:(lia) L1) as E1.
  pose proof (Hget 2%nat v2 ltac:(lia) L2) as E2.
  pose proof (Hget 3%nat v3 ltac:(lia) L3) as E3.
  pose proof (Hget 4%nat v4 ltac:(lia) L4) as E4.
  change (Z.of_nat 1) with 1 in E1. change (Z.of_nat 2) with 2 in E2.
  change (Z.of_nat 3) with 3 in E3. change (Z.of_nat 4) with 4 in E4.
  unfold getSaallicht, get_world, lift. rewrite !bind_run. cbv iota beta zeta.
  rewrite E1. cbv iota beta. rewrite !bind_run, E2. cbv iota beta.
  rewrite !bind_run, E3. cbv iota beta. rewrite !bind_run, E4. cbv iota beta.
  rewrite saallicht_quotient by lia. reflexivity.
Qed.

(** X10. With a shadow of 513 positions in [0, 1000], [getSaallicht]
    returns the sum of the channels 1 to 4 divided by 4 and rounded down,
    a position in [0, 1000], and changes nothing. *)
Theorem getSaallicht_average (w : World) :
  shadow_ok w ->
  exists v1 v2 v3 v4,
    dmx_stored_values (dmx w) !! 1%nat = Some v1 /\
    dmx_stored_values (dmx w) !! 2%nat = Some v2 /\
    dmx_stored_values (dmx w) !! 3%nat = Some v3 /\
    dmx_stored_values (dmx w) !! 4%nat = Some v4 /\
    getSaallicht w = (Ok ((v1 + v2 + v3 + v4) / 4), w) /\
    0 <= (v1 + v2 + v3 + v4) / 4 <= 1000.
Proof.
  intros [Hlen Hall].
  assert (Hget : forall k : nat, (1 <= k <= 4)%nat ->
            exists x, dmx_stored_values (dmx w) !! k = Some x /\ 0 <= x <= 1000).
  { intros k Hk.
    destruct (lookup_lt_is_Some_2 (dmx_stored_values (dmx w)) k) as [x Hx];
      [rewrite Hlen; lia|].
    exists x. split; [exact Hx|]. apply (proj1 (Forall_lookup _ _) Hall _ _ Hx). }
  destruct (Hget 1%nat ltac:(lia)) as (v1 & L1 & R1).
  destruct (Hget 2%nat ltac:(lia)) as (v2 & L2 & R2).
  destruct (Hget 3%nat ltac:(lia)) as (v3 & L3 & R3).
  destruct (Hget 4%nat ltac:(lia)) as (v4 & L4 & R4).
  exists v1, v2, v3, v4. refine (conj L1 (conj L2 (conj L3 (conj L4 _)))).
  split; [apply getSaallicht_run; try assumption; lia|].
  split; [apply Z.div_pos; lia | apply Z.div_le_upper_bound; lia].
Qed.

(** ** The shape of the state *)

Lemma well_formed_init : well_formed World_init.
Proof.
  split.
  - intros ch Hch.
    assert (H : ch = 1 \/ ch = 2 \/ ch = 3 \/ ch = 4 \/ ch = 5 \/ ch = 6 \/ ch = 7 \/ ch = 8)
      by lia.
    destruct H as [->|[->|[->|[->|[->|[->|[->| ->]]]]]]];
      exists ChannelState_default; vm_compute; reflexivity.
  - split; [reflexivity|]. apply Forall_replicate. lia.
Qed.

Lemma well_formed_insert (ch : Z) (st st' : ChannelState) (w : World) :
  strip w ch = Some st -> well_formed w ->
  well_formed (with_device (fun d => set_channels (<[ch := st']> (channels d)) d) w).
Proof.
  intros Hs [Hw Hsh]. split; [|exact Hsh].
  intros c Hc. unfold strip. simpl.
  destruct (decide (ch = c)) as [->|Hne].
  - rewrite lookup_insert_eq. eauto.
  - rewrite lookup_insert_ne by exact Hne. apply Hw, Hc.
Qed.

(** X11. The strip table keeps its eight strips and the lighting shadow
    its 513 entries, each a position in [0, 1000]: this holds at start and
    after every iteration of the reconciliation loop, every inbound surface
    message (pitch values in the 14-bit range), every surface check and
    every console check. *)
Theorem well_formed_invariant :
  well_formed World_init /\
  forall w, well_formed w ->
    (forall ce, well_formed (snd (sync_iteration ce w))) /\
    (forall msg, (forall c p, msg = Pitchwheel c p -> -8192 <= p <= 8191) ->
                 well_formed (snd (_input_callback msg w))) /\
    (forall attempts, well_formed (snd (surface_check attempts w))) /\
    well_formed (snd (connection_check w)).
Proof.
  split; [exact well_formed_init|].
  intros w Hw.
  pose proof console_reads_clamped as Hreads.
  assert (Hall : forall ch : Z, (fun _ : Z => True) ch) by (intros; exact Logic.I).
  assert (Htouch : forall ch st b w0, well_formed w0 -> strip w0 ch = Some st ->
            well_formed (with_device
              (fun d => set_channels (<[ch := set_is_touched b st]> (channels d)) d) w0))
    by (intros ch st b w0 H0 Hs; exact (well_formed_insert ch st _ w0 Hs H0)).
  assert (Hpage : forall p w0, well_formed w0 ->
            well_formed (with_device (set_selected_page p) w0))
    by (intros p w0 H0; exact H0).
  refine (conj _ (conj _ (conj _ _))).
  - intros ce. by_keeps (keeps_sync_iteration (I := well_formed)).
  - intros msg Hmsg.
    assert (H : keeps well_formed (_input_callback msg)).
    { eapply (keeps__input_callback (I := well_formed)); eauto.
      intros c p v -> Hv.
      destruct (pitch_to_fader_range p (Hmsg c p eq_refl)) as [v' [E Hv']].
      rewrite E in Hv. injection Hv as <-. exact Hv'. }
    exact (proj2 (H w Hw)).
  - intros attempts. by_keeps (keeps_surface_check (I := well_formed)).
  - by_keeps (keeps_connection_check (I := well_formed)).
Qed.

(** ** The reconciliation loop and the surface *)

Lemma sync_iteration_surface_down (ce : Z) (w : World) :
  surface_alive env (clock w) = false ->
  sync_iteration ce w = (Ok ce, advance w).
Proof.
  intros H. unfold sync_iteration, try_except, sync_body, is_connected, interact.
  rewrite !bind_run. rewrite H. reflexivity.
Qed.

(** X12. While the surface is not connected, the reconciliation loop does
    nothing: no number of iterations queries the console, commands the
    surface or changes a strip, and the error counter stays as it is. *)
Theorem sync_loop_surface_down (n : nat) (ce : Z) (w : World) :
  (forall k, (clock w <= k)%nat -> surface_alive env k = false) ->
  sync_loop n ce w
  = (Ok ce, {| device := device w; wing := wing w; dmx := dmx w;
               clock := (clock w + n)%nat; trace := trace w |}).
Proof.
  revert w. induction n as [|n IH]; intros w H.
  - simpl. destruct w. cbn. rewrite Nat.add_0_r. reflexivity.
  - simpl sync_loop.
    rewrite (bind_ok _ _ _ _ _ (sync_iteration_surface_down ce w (H _ (le_n _)))).
    rewrite IH; [|intros k Hk; apply H; simpl in Hk; lia].
    simpl. repeat f_equal. lia.
Qed.

Lemma touch_note_run (c : Z) (b : bool) (w : World) (st : ChannelState) :
  1 <= c <= 8 -> strip w c = Some st ->
  on_note (103 + c) b w
  = (Ok tt, with_device
              (fun d => set_channels (<[c := set_is_touched b st]> (channels d)) d) w).
Proof.
  intros Hc Hs. unfold on_note.
  destruct (Z.leb_spec 104 (103 + c)), (Z.leb_spec (103 + c) 111); cbn [andb]; try lia.
  replace (103 + c - 103) with c by lia. apply assign_run, Hs.
Qed.

(** X13. A touch message of the surface (note-on 104..111 with a
    velocity above 0) sets the touch flag of its strip, changes no other
    strip and sends nothing; the iteration of the reconciliation loop that
    follows sends no fader command to that strip, unless it is strip 8 on
    page 0. *)
Theorem touch_holds_fader (c velocity : Z) (w : World) (st : ChannelState) :
  1 <= c <= 8 -> 0 < velocity ->
  strip w c = Some st ->
  selected_page (device w) <> 0 \/ c <> 8 ->
  let w1 := snd (_input_callback (NoteOn (103 + c) velocity) w) in
  strip w1 c = Some (set_is_touched true st) /\
  (forall c', c' <> c -> strip w1 c' = strip w c') /\
  trace w1 = trace w /\
  set_fader_calls c (trace (snd (sync_body w1))) = set_fader_calls c (trace w).
Proof.
  intros Hc Hv Hs Hpc. cbv zeta.
  assert (Hrun : _input_callback (NoteOn (103 + c) velocity) w
                 = (Ok tt, with_device
                      (fun d => set_channels (<[c := set_is_touched true st]> (channels d)) d)
                      (heard w))).
  { unfold _input_callback, try_except, stamp_midi_received, modify.
    rewrite bind_run. cbv iota beta.
    destruct (Z.ltb_spec 0 velocity); [|lia].
    rewrite (touch_note_run c true (heard w) st Hc Hs). reflexivity. }
  rewrite Hrun. cbn [snd].
  set (w1 := with_device _ (heard w)).
  assert (Hs1 : strip w1 c = Some (set_is_touched true st))
    by (unfold strip, w1; simpl; apply lookup_insert_eq).
  split; [exact Hs1|]. split.
  - intros c' Hne. unfold strip, w1. simpl. apply lookup_insert_ne. congruence.
  - split; [reflexivity|].
    rewrite (held_strip_not_driven w1 c (set_is_touched true st) Hs1 eq_refl Hpc).
    reflexivity.
Qed.

(** ** The console connectivity check *)

Lemma probe_paths_spec (l : list string) (w : World) :
  exists found w',
    probe_paths l w = (Ok found, w') /\
    device w' = device w /\ dmx w' = dmx w /\
    (found = true ->
     connection_ok (wing w') = true /\ failed_queries (wing w') = 0 /\
     exists p, In p l /\ working_query_path (wing w') = Some p) /\
    (found = false ->
     connection_ok (wing w') = connection_ok (wing w) /\
     failed_queries (wing w') = failed_queries (wing w) + Z.of_nat (length l) /\
     working_query_path (wing w') = working_query_path (wing w)).
Proof.
  revert w. induction l as [|path rest IH]; intros w.
  - exists false, w. simpl. repeat split; try discriminate; lia.
  - cbn [probe_paths]. rewrite bind_run, _query_run.
    destruct (osc_reply env (clock w) (AddrPath path)) as [| |v]; cbn [reply_value].
    + match goal with |- context [probe_paths rest ?w1] =>
        destruct (IH w1) as (found & w' & Hrun & Hd & Hx & Ht & Hf) end.
      exists found, w'. split; [exact Hrun|]. split; [exact Hd|]. split; [exact Hx|].
      split.
      * intros E. destruct (Ht E) as (H1 & H2 & p & Hp & H3).
        split; [exact H1|]. split; [exact H2|]. exists p. split; [right; exact Hp | exact H3].
      * intros E. destruct (Hf E) as (H1 & H2 & H3). cbn in H1, H2, H3.
        split; [exact H1|]. split; [|exact H3].
        rewrite H2. cbn [length]. lia.
    + match goal with |- context [probe_paths rest ?w1] =>
        destruct (IH w1) as (found & w' & Hrun & Hd & Hx & Ht & Hf) end.
      exists found, w'. split; [exact Hrun|]. split; [exact Hd|]. split; [exact Hx|].
      split.
      * intros E. destruct (Ht E) as (H1 & H2 & p & Hp & H3).
        split; [exact H1|]. split; [exact H2|]. exists p. split; [right; exact Hp | exact H3].
      * intros E. destruct (Hf E) as (H1 & H2 & H3). cbn in H1, H2, H3.
        split; [exact H1|]. split; [|exact H3].
        rewrite H2. cbn [length]. lia.
    + eexists true, _. split; [reflexivity|]. cbn.
      split; [reflexivity|]. split; [reflexivity|]. split; [|discriminate].
      intros _. split; [reflexivity|]. split; [reflexivity|].
      exists path. split; [left; reflexivity | reflexivity].
Qed.

Lemma check_after_cache (w1 : World) :
  exists alive w',
    (found ← probe_paths ["/"; "/info/name"; "/info"; "/status"]%string;
     if found : bool then mret true
     else
       modify (with_wing (fun g =>
         {| failed_queries := failed_queries g; connection_ok := false;
            working_query_path := working_query_path g |}));;
       try_except _init_query_socket (fun _ => mret tt);;
       mret false) w1 = (Ok alive, w') /\
    device w' = device w1 /\ dmx w' = dmx w1 /\
    (alive = true ->
     connection_ok (wing w') = true /\ failed_queries (wing w') = 0 /\
     exists p, working_query_path (wing w') = Some p /\ p <> ""%string) /\
    (alive = false ->
     connection_ok (wing w') = false /\
     working_query_path (wing w') = working_query_path (wing w1) /\
     failed_queries (wing w') = failed_queries (wing w1) + 4 /\
     exists tr, trace w' = EvInitQuerySocket :: tr).
Proof.
  destruct (probe_paths_spec ["/"; "/info/name"; "/info"; "/status"]%string w1)
    as (found & w2 & Hrun & Hd & Hx & Ht & Hf).
  rewrite (bind_ok _ _ _ _ _ Hrun). destruct found.
  - exists true, w2. split; [reflexivity|]. split; [exact Hd|]. split; [exact Hx|].
    split; [|discriminate]. intros _.
    destruct (Ht eq_refl) as (H1 & H2 & p & Hp & H3).
    split; [exact H1|]. split; [exact H2|]. exists p. split; [exact H3|].
    simpl in Hp. destruct Hp as [<-|[<-|[<-|[<-|[]]]]]; discriminate.
  - destruct (Hf eq_refl) as (H1 & H2 & H3).
    unfold _init_query_socket, try_except, emit, modify, interact.
    rewrite !bind_run. cbn.
    destruct (socket_init_ok env (clock w2)); cbn;
      eexists false, _; (split; [reflexivity|]); cbn;
      (split; [exact Hd|]); (split; [exact Hx|]); (split; [discriminate|]);
      intros _; (split; [reflexivity|]); (split; [exact H3|]);
      (split; [rewrite H2; reflexivity | eexists; reflexivity]).
Qed.

(** X14. [check_connection] never raises and touches neither the strips
    nor the lighting state.  When it reports the console alive, the
    connection flag is set, the failure counter is 0 and a query path that
    is not empty is cached; when it reports loss, the flag is cleared, the
    cached path is kept, at least four more failed queries are counted and
    the last thing done is the attempt to open the query socket anew. *)
Theorem check_connection_contract (w : World) :
  exists alive w',
    check_connection w = (Ok alive, w') /\
    device w' = device w /\ dmx w' = dmx w /\
    (alive = true ->
     connection_ok (wing w') = true /\ failed_queries (wing w') = 0 /\
     exists p, working_query_path (wing w') = Some p /\ p <> ""%string) /\
    (alive = false ->
     connection_ok (wing w') = false /\
     working_query_path (wing w') = working_query_path (wing w) /\
     failed_queries (wing w) + 4 <= failed_queries (wing w') /\
     exists tr, trace w' = EvInitQuerySocket :: tr).
Proof.
  unfold check_connection. rewrite bind_run.
  change (emit EvCheckConnection w) with (Ok tt, with_trace (cons EvCheckConnection) w).
  cbv iota beta. rewrite bind_run. cbn [get_world].
  set (w0 := with_trace (cons EvCheckConnection) w).
  assert (Hprobe : forall w1, device w1 = device w -> dmx w1 = dmx w ->
            working_query_path (wing w1) = working_query_path (wing w) ->
            failed_queries (wing w) <= failed_queries (wing w1) ->
            exists alive w',
              (found ← probe_paths ["/"; "/info/name"; "/info"; "/status"]%string;
               if found : bool then mret true
               else
                 modify (with_wing (fun g =>
                   {| failed_queries := failed_queries g; connection_ok := false;
                      working_query_path := working_query_path g |}));;
                 try_except _init_query_socket (fun _ => mret tt);;
                 mret false) w1 = (Ok alive, w') /\
              device w' = device w /\ dmx w' = dmx w /\
              (alive = true ->
               connection_ok (wing w') = true /\ failed_queries (wing w') = 0 /\
               exists p, working_query_path (wing w') = Some p /\ p <> ""%string) /\
              (alive = false ->
               connection_ok (wing w') = false /\
               working_query_path (wing w') = working_query_path (wing w) /\
               failed_queries (wing w) + 4 <= failed_queries (wing w') /\
               exists tr, trace w' = EvInitQuerySocket :: tr)).
  { intros w1 Hd1 Hx1 Hp1 Hf1.
    destruct (check_after_cache w1) as (alive & w' & Hrun & Hd & Hx & Ht & Hf).
    exists alive, w'. split; [exact Hrun|]. split; [congruence|]. split; [congruence|].
    split; [exact Ht|]. intros E. destruct (Hf E) as (H1 & H2 & H3 & H4).
    split; [exact H1|]. split; [congruence|]. split; [lia | exact H4]. }
  destruct (working_query_path (wing w0)) as [[|a s]|] eqn:Ew.
  - rewrite bind_run. cbn [mret M_ret]. cbv iota beta.
    apply Hprobe; first [reflexivity | cbn; lia].
  - rewrite bind_run, bind_run, _query_run.
    destruct (osc_reply env (clock w0) (AddrPath (String a s))) as [| |v];
      cbn [reply_value].
    + cbn [mret M_ret]. cbv iota beta. apply Hprobe; first [reflexivity | cbn; lia].
    + cbn [mret M_ret]. cbv iota beta. apply Hprobe; first [reflexivity | cbn; lia].
    + unfold mark_connected, modify. rewrite !bind_run. cbn.
      eexists true, _. split; [reflexivity|]. cbn.
      split; [reflexivity|]. split; [reflexivity|]. split; [|discriminate].
      intros _. split; [reflexivity|]. split; [reflexivity|].
      exists (String a s). split; [exact Ew | discriminate].
  - rewrite bind_run. cbn [mret M_ret]. cbv iota beta.
    apply Hprobe; first [reflexivity | cbn; lia].
Qed.

(** ** The inbound side of the surface *)

Lemma on_button_released (ch : Z) (btn : button) (w : World) :
  on_button ch btn false w = (Ok tt, w).
Proof. reflexivity. Qed.

Lemma on_button_rec_solo (ch : Z) (state : bool) (w : World) :
  on_button ch Rec state w = (Ok tt, w) /\ on_button ch Solo state w = (Ok tt, w).
Proof. destruct state; split; reflexivity. Qed.

Lemma on_note_dropped (note : Z) (state : bool) (w : World) :
  note < 104 \/ 111 < note ->
  note < 16 \/ 31 < note \/ state = false ->
  on_note note state w = (Ok tt, w).
Proof.
  intros Ht Hb. unfold on_note.
  assert (Hc : note < 0 \/ 0 <= note <= 7 \/ 8 <= note <= 15 \/ 16 <= note <= 23 \/
               24 <= note <= 31 \/ 31 < note) by lia.
  destruct Hc as [Hc|[Hc|[Hc|[Hc|[Hc|Hc]]]]];
    repeat match goal with
    | |- context [?a <=? ?b] => destruct (Z.leb_spec a b); try lia
    end; cbn [andb];
    first [ reflexivity
          | exact (proj1 (on_button_rec_solo _ state w))
          | exact (proj2 (on_button_rec_solo _ state w))
          | destruct Hb as [Hb|[Hb| ->]]; [lia | lia | apply on_button_released] ].
Qed.

(** X15. [_input_callback] drops, without failing and with no effect on
    the state other than the liveness stamp [_last_midi_received], which
    every message refreshes: a fader move on a strip that is not touched,
    unless it is strip 5 or 7, and on a strip number the table does not
    have; every control change outside 16..23; the rec and solo buttons;
    the release of every button; every note that is no button and no touch
    sensor; and system-exclusive messages. *)
Theorem dropped_messages_change_nothing (msg : midi_msg) (w : World) :
  dropped w msg -> _input_callback msg w = (Ok tt, heard w).
Proof.
  intros H. unfold _input_callback, try_except, stamp_midi_received, modify.
  rewrite bind_run. cbv iota beta.
  assert (Hs : forall ch, strip (heard w) ch = strip w ch) by reflexivity.
  generalize dependent (heard w). intros w1 Hs.
  destruct msg as [c p|control value|note velocity|note velocity|data]; cbn [dropped] in H.
  - rewrite bind_run. unfold lift at 1.
    destruct (pitch_to_fader p) as [val|e]; [|reflexivity].
    rewrite bind_run. unfold channel. rewrite <- Hs in H. unfold strip in H.
    destruct (channels (device w1) !! (c + 1)) as [st|]; [|reflexivity].
    destruct H as (Ht & H5 & H7). rewrite Ht.
    rewrite bool_decide_eq_false_2; [reflexivity|].
    intros Hin. apply list_elem_of_In in Hin. simpl in Hin. lia.
  - destruct (Z.leb_spec 16 control), (Z.leb_spec control 23); cbn [andb]; try lia;
      reflexivity.
  - destruct H as [Ht Hb].
    rewrite (on_note_dropped note (0 <? velocity) w1 Ht); [reflexivity|].
    destruct Hb as [Hb|[Hb|Hb]]; [lia | lia |].
    right. right. apply Z.ltb_ge. exact Hb.
  - rewrite (on_note_dropped note false w1 H); [reflexivity | auto].
  - reflexivity.
Qed.

(** ** The fader handler *)

Lemma setFader_run (t : target) (n val : Z) (w : World) :
  setFader t n val w
  = (Ok (osc_send_ok env (clock w)),
     advance (with_trace (cons (EvSendOsc (AddrFdr t n) (fader_to_db val))) w)).
Proof. reflexivity. Qed.

(** X16. [on_fader] compares a move with the strip's [last_stable_value]:
    a move of less than 15 has no effect at all; a move of 15 or more on a
    strip with a console fader sets [last_stable_value] to the new position
    (and leaves [fader_value] as it is) and sends that position, converted
    to dB, to the console fader of the strip on the page. *)
Theorem on_fader_deadband (ch val : Z) (w : World) (st : ChannelState) :
  strip w ch = Some st ->
  (Z.abs (val - last_stable_value st) < 15 -> on_fader ch val w = (Ok tt, w)) /\
  (15 <= Z.abs (val - last_stable_value st) ->
   forall t n, fader_target (selected_page (device w)) ch = Some (t, n) ->
     fst (on_fader ch val w) = Ok tt /\
     trace (snd (on_fader ch val w))
     = EvSendOsc (AddrFdr t n) (fader_to_db val) :: trace w /\
     strip (snd (on_fader ch val w)) ch = Some (set_last_stable_value val st) /\
     (forall c, c <> ch -> strip (snd (on_fader ch val w)) c = strip w c) /\
     dmx (snd (on_fader ch val w)) = dmx w).
Proof.
  intros Hs. unfold on_fader. rewrite (bind_ok _ _ _ _ _ (channel_run ch st w Hs)).
  unfold FADER_DEADBAND. split.
  - intros H. destruct (Z.ltb_spec (Z.abs (val - last_stable_value st)) 15); [|lia].
    reflexivity.
  - intros H t n Ht.
    destruct (Z.ltb_spec (Z.abs (val - last_stable_value st)) 15); [lia|].
    rewrite (bind_ok _ _ _ _ _ (assign_run ch (set_last_stable_value val) st w Hs)).
    rewrite bind_run. cbn [get_world].
    set (w1 := with_device _ w).
    assert (Hp : selected_page (device w1) = selected_page (device w)) by reflexivity.
    assert (Hs1 : strip w1 ch = Some (set_last_stable_value val st))
      by (unfold strip, w1; simpl; apply lookup_insert_eq).
    assert (Ho : forall c, c <> ch -> strip w1 c = strip w c)
      by (intros c Hc; unfold strip, w1; simpl; apply lookup_insert_ne; congruence).
    rewrite Hp. unfold fader_target in Ht.
    assert (Hsend : forall t' n',
              Some (t', n') = Some (t, n) ->
              let r := (_ ← setFader t' n' val; mret tt) w1 in
              fst r = Ok tt /\
              trace (snd r) = EvSendOsc (AddrFdr t n) (fader_to_db val) :: trace w /\
              strip (snd r) ch = Some (set_last_stable_value val st) /\
              (forall c, c <> ch -> strip (snd r) c = strip w c) /\
              dmx (snd r) = dmx w).
    { intros t' n' [= -> ->]. cbv zeta. rewrite bind_run, setFader_run.
      cbn [fst snd mret M_ret]. repeat split; try assumption. }
    destruct (selected_page (device w) =? 0).
    { destruct (ch <=? 4); [apply Hsend, Ht|].
      destruct (ch =? 5); [apply Hsend, Ht|].
      destruct (ch =? 6); [apply Hsend, Ht|].
      destruct (ch =? 7); [apply Hsend, Ht | discriminate]. }
    destruct (selected_page (device w) =? 1); [apply Hsend, Ht|].
    destruct (selected_page (device w) =? 2); [apply Hsend, Ht | discriminate].
Qed.

Lemma lighting_run (l : list Z) (v : Z) (w : World) :
  (forall i, In i l -> 0 <= i < 513) ->
  ser_open (dmx w) = true ->
  length (dmx_stored_values (dmx w)) = 513%nat ->
  exists w2,
    for_each l (fun i => sendDMX i v) w = (Ok tt, w2) /\
    device w2 = device w /\
    ser_open (dmx w2) = true /\
    length (dmx_stored_values (dmx w2)) = 513%nat /\
    (forall c, set_fader_calls c (trace w2) = set_fader_calls c (trace w)) /\
    (forall k, dmx_stored_values (dmx w) !! k = Some v ->
               dmx_stored_values (dmx w2) !! k = Some v) /\
    (forall i, In i l -> dmx_stored_values (dmx w2) !! Z.to_nat i = Some v).
Proof.
  revert w. induction l as [|i r IH]; intros w Hl Ho Hlen.
  - exists w. simpl. repeat split; auto. intros i [].
  - assert (Hi : 0 <= i < 513) by (apply Hl; left; reflexivity).
    pose proof (sendDMX_open_run i v w Ho ltac:(rewrite Hlen; lia)) as Hrun.
    set (w1 := with_trace _ _) in Hrun.
    assert (Hst : dmx_stored_values (dmx w1)
                  = <[Z.to_nat i := v]> (dmx_stored_values (dmx w))) by reflexivity.
    assert (Hlen1 : length (dmx_stored_values (dmx w1)) = 513%nat)
      by (rewrite Hst, length_insert; exact Hlen).
    destruct (IH w1 (fun j Hj => Hl j (or_intror Hj)) Ho Hlen1)
      as (w2 & Hrun2 & Hd2 & Ho2 & Hl2 & Hc2 & Hk2 & Hi2).
    exists w2. simpl for_each. rewrite (bind_ok _ _ _ _ _ Hrun).
    split; [exact Hrun2|]. split; [exact Hd2|]. split; [exact Ho2|].
    split; [exact Hl2|]. split; [intros c; rewrite Hc2; reflexivity|].
    assert (Hkeep : forall k, dmx_stored_values (dmx w) !! k = Some v ->
                              dmx_stored_values (dmx w1) !! k = Some v).
    { intros k Hk. rewrite Hst. destruct (decide (Z.to_nat i = k)) as [<-|Hne].
      - apply list_lookup_insert_eq. rewrite Hlen. lia.
      - rewrite list_lookup_insert_ne by exact Hne. exact Hk. }
    split; [intros k Hk; apply Hk2, Hkeep, Hk|].
    intros j [<-|Hj]; [|apply Hi2, Hj].
    apply Hk2. rewrite Hst. apply list_lookup_insert_eq. rewrite Hlen. lia.
Qed.


(** ** The page switch *)

#[local] Instance page_is_frame (p : Z) :
  Frame (page_is p) (fun _ => True) (fun _ => True) True True.
Proof. split; [split|..]; try (intros; assumption); exact Logic.I. Qed.

Lemma sure_set_encoder_ring (ch value mode : Z) : sure (set_encoder_ring ch value mode).
Proof. unfold set_encoder_ring. sure_auto. Qed.

Lemma spec_assign_well_formed (ch : Z) (f : ChannelState -> ChannelState) :
  1 <= ch <= 8 -> spec well_formed (assign_channel ch f) returns.
Proof.
  intros Hch w Hw. destruct (proj1 Hw ch Hch) as [st Hst].
  rewrite (assign_run ch f st w Hst). split; [exact Logic.I|].
  exact (well_formed_insert ch st _ w Hst Hw).
Qed.

(** X18. In a state with its eight strips, a press of the select button
    of strip [ch] makes page [ch - 1] the selected page, whatever the
    refresh of the display, the faders, the mute LEDs and the gains that
    follows does, and whether or not it fails. *)
Theorem select_switches_page (ch : Z) (w : World) :
  well_formed w ->
  selected_page (device (snd (on_button ch Select true w))) = ch - 1.
Proof.
  intros Hw. unfold on_button. cbn [negb]. rewrite bind_run. cbn [get_world].
  assert (Hreset : spec well_formed
            (for_each (range 1 9) (fun i =>
               set_led i Select false;;
               set_encoder_ring i 0 0;;
               assign_channel i (set_fader_value 0);;
               assign_channel i (set_last_stable_value 0))) returns).
  { apply spec_for_each_returns. intros i Hi.
    assert (Hi8 : 1 <= i <= 8).
    { apply in_map_iff in Hi. destruct Hi as (k & <- & Hk). apply in_seq in Hk. lia. }
    eapply spec_bind with (Q := returns); [| |intros e He; exact He].
    { apply spec_sure; [apply sure_set_led | apply (keeps_set_led (I := well_formed))]. }
    intros _ _.
    eapply spec_bind with (Q := returns); [| |intros e He; exact He].
    { apply spec_sure;
        [apply sure_set_encoder_ring | apply (keeps_set_encoder_ring (I := well_formed))]. }
    intros _ _.
    eapply spec_bind with (Q := returns); [| |intros e He; exact He].
    { apply spec_assign_well_formed, Hi8. }
    intros _ _. apply spec_assign_well_formed, Hi8. }
  destruct (Hreset w Hw) as [Hr _].
  destruct (for_each _ _ w) as [[[]|e] w1] eqn:E; [|contradiction].
  rewrite bind_run, E. cbv iota beta. rewrite bind_run. cbn [modify].
  set (w2 := with_device (set_selected_page (ch - 1)) w1).
  assert (Hall : forall c : Z, (fun _ : Z => True) c) by (intros; exact Logic.I).
  assert (Hreads : fader_reads (fun _ : Z => True))
    by (intros n t k v q _ _; exact Logic.I).
  match goal with
  | |- selected_page (device (snd (?m w2))) = _ =>
      assert (K : keeps (page_is (ch - 1)) m)
  end.
  { apply keeps_bind; [apply (keeps_set_led (I := page_is (ch - 1)))|intros _].
    apply keeps_bind;
      [eapply (keeps_update_page_display (I := page_is (ch - 1))); eauto|intros _].
    apply keeps_bind;
      [eapply (keeps_update_page_faders (I := page_is (ch - 1))); eauto|intros _].
    apply keeps_bind;
      [eapply (keeps_update_page_mutes (I := page_is (ch - 1))); eauto|intros _].
    eapply (keeps_load_page_gains (I := page_is (ch - 1))); eauto. }
  exact (proj2 (K w2 eq_refl)).
Qed.

(** ** What goes out on the wire *)

Lemma emits_nothing {A : Type} (P : event -> Prop) (m : M A) :
  (forall w, trace (snd (m w)) = trace w) -> emits P m.
Proof. intros H w. exists []. split; [apply H | constructor]. Qed.

Lemma emits_ret {A : Type} (P : event -> Prop) (a : A) : emits P (mret a).
Proof. apply emits_nothing. reflexivity. Qed.

Lemma emits_raise {A : Type} (P : event -> Prop) (e : exn) : emits P (@raise A e).
Proof. apply emits_nothing. reflexivity. Qed.

Lemma emits_lift {A : Type} (P : event -> Prop) (r : res A) : emits P (lift r).
Proof. apply emits_nothing. reflexivity. Qed.

Lemma emits_get_world (P : event -> Prop) : emits P get_world.
Proof. apply emits_nothing. reflexivity. Qed.

Lemma emits_interact {A : Type} (P : event -> Prop) (f : nat -> A) : emits P (interact f).
Proof. apply emits_nothing. reflexivity. Qed.

Lemma emits_modify (P : event -> Prop) (f : World -> World) :
  (forall w, trace (f w) = trace w) -> emits P (modify f).
Proof. intros H. apply emits_nothing. exact H. Qed.

Lemma emits_channel (P : event -> Prop) (ch : Z) : emits P (channel ch).
Proof.
  apply emits_nothing. intros w. unfold channel.
  destruct (channels (device w) !! ch); reflexivity.
Qed.

Lemma emits_emit (P : event -> Prop) (e : event) : P e -> emits P (emit e).
Proof. intros H w. exists [e]. split; [reflexivity | repeat constructor; exact H]. Qed.

Lemma emits_bind_res {A B : Type} (P : event -> Prop) (Q : A -> Prop)
    (m : M A) (k : A -> M B) :
  (forall w a w', m w = (Ok a, w') -> Q a) ->
  emits P m -> (forall a, Q a -> emits P (k a)) -> emits P (m ≫= k).
Proof.
  intros HQ Hm Hk w. rewrite bind_run.
  destruct (Hm w) as (l1 & E1 & F1).
  destruct (m w) as [[a|e] w1] eqn:E; simpl in E1.
  - destruct (Hk a (HQ w a w1 E) w1) as (l2 & E2 & F2).
    exists (l2 ++ l1)%list. split.
    + rewrite E2, E1. apply app_assoc.
    + apply Forall_app. split; assumption.
  - exists l1. split; assumption.
Qed.

Lemma emits_bind {A B : Type} (P : event -> Prop) (m : M A) (k : A -> M B) :
  emits P m -> (forall a, emits P (k a)) -> emits P (m ≫= k).
Proof.
  intros Hm Hk. apply (emits_bind_res P (fun _ => True)); auto.
Qed.

Lemma emits_lift_bind {A B : Type} (P : event -> Prop) (r : res A) (k : A -> M B) :
  (forall a, r = Ok a -> emits P (k a)) -> emits P (lift r ≫= k).
Proof.
  intros Hk. apply (emits_bind_res P (fun a => r = Ok a)).
  - intros w a w' [= ->]. reflexivity.
  - apply emits_lift.
  - exact Hk.
Qed.

Lemma emits_try {A : Type} (P : event -> Prop) (m : M A) (h : exn -> M A) :
  emits P m -> (forall e, emits P (h e)) -> emits P (try_except m h).
Proof.
  intros Hm Hh w. unfold try_except.
  destruct (Hm w) as (l1 & E1 & F1).
  destruct (m w) as [[a|e] w1]; simpl in E1.
  - exists l1. split; assumption.
  - destruct (Hh e w1) as (l2 & E2 & F2).
    exists (l2 ++ l1)%list. split.
    + rewrite E2, E1. apply app_assoc.
    + apply Forall_app. split; assumption.
Qed.

Lemma emits_for_each {A : Type} (P : event -> Prop) (l : list A) (body : A -> M unit) :
  (forall x, In x l -> emits P (body x)) -> emits P (for_each l body).
Proof.
  induction l as [|x r IH]; intros H; simpl.
  - apply emits_ret.
  - apply emits_bind.
    + apply H. left. reflexivity.
    + intros _. apply IH. intros y Hy. apply H. right. exact Hy.
Qed.

Lemma emits_when (P : event -> Prop) (b : bool) (m : M unit) :
  (b = true -> emits P m) -> emits P (when b m).
Proof. intros H. destruct b; simpl; [auto | apply emits_ret]. Qed.

Lemma emits_assign (P : event -> Prop) (ch : Z) (f : ChannelState -> ChannelState) :
  emits P (assign_channel ch f).
Proof.
  unfold assign_channel. apply emits_bind; [apply emits_channel|].
  intros st. apply emits_modify. reflexivity.
Qed.

Ltac emits_step :=
  match goal with
  | |- emits _ (mret _) => apply emits_ret
  | |- emits _ (lift _ ≫= _) => apply emits_lift_bind; intros ? ?
  | |- emits _ (_ ≫= _) => apply emits_bind; [|intros ?]
  | |- emits _ (for_each _ _) => apply emits_for_each; intros ? ?
  | |- emits _ (when _ _) => apply emits_when; intros ?
  | |- emits _ (try_except _ _) => apply emits_try; [|intros ?]
  | |- emits _ (lift _) => apply emits_lift
  | |- emits _ (raise _) => apply emits_raise
  | |- emits _ get_world => apply emits_get_world
  | |- emits _ (interact _) => apply emits_interact
  | |- emits _ (channel _) => apply emits_channel
  | |- emits _ (assign_channel _ _) => apply emits_assign
  | |- emits _ (emit _) => apply emits_emit
  | |- emits _ (modify _) => apply emits_modify; reflexivity
  | |- emits _ (if ?b then _ else _) => destruct b
  | |- emits _ (match ?x with _ => _ end) => destruct x
  | |- emits _ (let '(_, _) := ?x in _) => destruct x
  end.

Create HintDb emits.

Ltac emits_auto := repeat (emits_step || (progress eauto with emits)).

Lemma fader_pitch_range (val : Z) (p : Z) :
  py_int (float_of_Z (Z.max FADER_MIN (Z.min FADER_MAX val)) / float_of_Z FADER_MAX
          * float_of_Z 16383)%float = Ok p ->
  0 <= p <= 16383.
Proof.
  intros H.
  pose proof (forallb_range _ 0 1001 (Z.max FADER_MIN (Z.min FADER_MAX val))
                fader_pitch_roundtrip ltac:(unfold FADER_MIN, FADER_MAX; lia)) as Hr.
  cbv beta in Hr. rewrite H in Hr.
  apply andb_prop in Hr as [Hr _]. apply andb_prop in Hr as [H0 H1]. lia.
Qed.

Lemma in_1_8_true (ch : Z) : in_1_8 ch = true -> 1 <= ch <= 8.
Proof. unfold in_1_8. intros H. apply andb_prop in H as [H1 H2]. lia. Qed.

Lemma color_index_range (name : string) : 0 <= color_index name <= 7.
Proof.
  unfold color_index.
  repeat match goal with |- context [string_dec ?a ?b] => destruct (string_dec a b) end;
    lia.
Qed.

(** Every display text of a page passes the check of [set_text]. *)
Lemma page_texts_ok (page : Z) (text : string) :
  In text (page_texts page) -> text_ok text.
Proof.
  unfold page_texts, text_ok.
  repeat match goal with |- context [?a =? ?b] => destruct (a =? b) end;
    cbn [In replicate]; intros H;
    repeat match type of H with
           | _ \/ _ => destruct H as [<-|H]
           | False => destruct H
           end;
    vm_compute; repeat constructor; discriminate.
Qed.

Lemma enumerate_from_In {A : Type} (i k : Z) (x : A) (l : list A) :
  In (i, x) (enumerate_from k l) -> In x l.
Proof.
  revert k. induction l as [|y r IH]; intros k H; simpl in *; [exact H|].
  destruct H as [[= _ ->]|H]; [left; reflexivity | right; exact (IH _ H)].
Qed.

Lemma zip_In_l {A B : Type} (x : A) (y : B) (la : list A) (lb : list B) :
  In (x, y) (zip la lb) -> In x la.
Proof.
  revert lb. induction la as [|a ra IH]; intros [|b rb] H; simpl in *; try contradiction.
  destruct H as [[= -> _]|H]; [left; reflexivity | right; exact (IH _ H)].
Qed.

Section Emitting.

Variables writes clears : Prop.

Lemma emits__query (a : address) : emits (sent_ok writes clears) (_query a).
Proof. unfold _query. emits_auto; try exact Logic.I. Qed.

Lemma emits__send_osc (a :
  address) (v : float) : writes -> emits (sent_ok writes clears) (_send_osc a v).
Proof. intros Hw. unfold _send_osc. emits_auto; try exact Hw. Qed.

#[local] Hint Resolve emits__query emits__send_osc : emits.

Lemma emits_probe_paths (l : list string) : emits (sent_ok writes clears) (probe_paths l).
Proof. induction l as [|p r IH]; simpl; emits_auto. Qed.

#[local] Hint Resolve emits_probe_paths : emits.

Lemma emits_check_connection : emits (sent_ok writes clears) check_connection.
Proof.
  unfold check_connection, mark_connected, _init_query_socket.
  emits_auto; try exact Logic.I.
Qed.

Lemma emits_getFader (t : target) (k : Z) : emits (sent_ok writes clears) (getFader t k).
Proof. unfold getFader. emits_auto. Qed.

Lemma emits_getMute (t : target) (k : Z) : emits (sent_ok writes clears) (getMute t k).
Proof. unfold getMute. emits_auto. Qed.

Lemma emits_getGain (g : osc_arg) (k : Z) : emits (sent_ok writes clears) (getGain g k).
Proof. unfold getGain. emits_auto. Qed.

Lemma emits_getChannelInputSource (c :
  Z) : emits (sent_ok writes clears) (getChannelInputSource c).
Proof. unfold getChannelInputSource. emits_auto. Qed.

Lemma emits_setFader (t :
  target) (k v : Z) : writes -> emits (sent_ok writes clears) (setFader t k v).
Proof. intros Hw. unfold setFader. eauto with emits. Qed.

Lemma emits_setMute (t :
  target) (k : Z) (b : bool) : writes -> emits (sent_ok writes clears) (setMute t k b).
Proof. intros Hw. unfold setMute. eauto with emits. Qed.

Lemma emits_setGain (g :
  osc_arg) (k : Z) (x : float) : writes -> emits (sent_ok writes clears) (setGain g k x).
Proof. intros Hw. unfold setGain. eauto with emits. Qed.

Lemma emits_is_connected : emits (sent_ok writes clears) is_connected.
Proof. unfold is_connected. emits_auto. Qed.

Lemma emits_set_fader (ch v : Z) : emits (sent_ok writes clears) (set_fader ch v).
Proof.
  unfold set_fader. apply emits_bind; [apply emits_emit; exact Logic.I | intros _].
  apply emits_when. intros Hch. apply in_1_8_true in Hch.
  destruct (py_int _) as [p|e] eqn:E; [|apply emits_ret].
  apply fader_pitch_range in E. apply emits_emit. cbn. lia.
Qed.

Lemma emits_set_led (ch :
  Z) (btn : button) (state : bool) : emits (sent_ok writes clears) (set_led ch btn state).
Proof.
  unfold set_led. apply emits_bind; [apply emits_emit; exact Logic.I | intros _].
  apply emits_when. intros Hch. apply in_1_8_true in Hch.
  apply emits_emit. cbn. destruct btn, state; cbn [button_note]; lia.
Qed.

Lemma emits_set_encoder_ring (ch value mode : Z) :
  (mode = 1 /\ 0 <= value <= 11) \/ (clears /\ mode = 0 /\ value = 0) ->
  emits (sent_ok writes clears) (set_encoder_ring ch value mode).
Proof.
  intros Hr. unfold set_encoder_ring.
  apply emits_bind; [apply emits_emit; exact Hr | intros _].
  apply emits_when. intros Hch. apply in_1_8_true in Hch. cbv zeta.
  destruct (data_byte _) eqn:E; [|apply emits_ret].
  apply emits_emit. cbn. unfold data_byte in E. apply andb_prop in E as [E1 E2]. lia.
Qed.

Lemma emits_set_text (ch : Z) (text : string) :
  emits (sent_ok writes clears) (set_text ch text).
Proof.
  unfold set_text. apply emits_when. intros _. cbv zeta.
  destruct (forallb data_byte _) eqn:E; [|apply emits_ret].
  apply emits_emit. cbn [sent_ok midi_ok]. apply List.Forall_forall. intros x Hx.
  rewrite forallb_forall in E. specialize (E x Hx).
  unfold data_byte in E. apply andb_prop in E as [E1 E2]. lia.
Qed.

Lemma emits_set_color (ch :
  Z) (name : string) : emits (sent_ok writes clears) (set_color ch name).
Proof.
  unfold set_color. apply emits_when. intros Hch. apply in_1_8_true in Hch.
  apply emits_emit. cbn. pose proof (color_index_range name).
  repeat (constructor; [lia|]). constructor.
Qed.

#[local] Hint Resolve emits_check_connection emits_getFader emits_getMute emits_getGain
  emits_getChannelInputSource emits_is_connected emits_set_fader emits_set_led
  emits_set_color : emits.

Lemma emits_update_page_display (page :
  Z) : emits (sent_ok writes clears) (update_page_display page).
Proof.
  unfold update_page_display. apply emits_for_each. intros [i [text color]] _.
  apply emits_bind; [apply emits_set_text | intros _; apply emits_set_color].
Qed.

Lemma emits_getDMX (c : Z) : emits (sent_ok writes clears) (getDMX c).
Proof. unfold getDMX. emits_auto. Qed.

Lemma emits_getSaallicht : emits (sent_ok writes clears) getSaallicht.
Proof. unfold getSaallicht. emits_auto. Qed.

Lemma emits_dmx_connect : writes -> emits (sent_ok writes clears) dmx_connect.
Proof. intros Hw. unfold dmx_connect. emits_auto; try exact Hw. Qed.

Lemma emits_sendDMX (c v : Z) : writes -> emits (sent_ok writes clears) (sendDMX c v).
Proof. intros Hw. unfold sendDMX. emits_auto; try exact Hw. Qed.

#[local] Hint Resolve emits_update_page_display emits_getDMX emits_getSaallicht : emits.

Lemma emits_update_page_mutes (page : Z) : emits (sent_ok writes clears) (update_page_mutes page).
Proof. unfold update_page_mutes. emits_auto. Qed.

Lemma emits_refresh_fader (t :
  target) (ch k : Z) : emits (sent_ok writes clears) (refresh_fader t ch k).
Proof. unfold refresh_fader. emits_auto. Qed.

#[local] Hint Resolve emits_refresh_fader : emits.

Lemma emits_update_page_faders (page :
  Z) : emits (sent_ok writes clears) (update_page_faders page).
Proof. unfold update_page_faders. emits_auto. Qed.

Lemma getGain_in_range (grp : osc_arg) (num : Z) (w w' : World) (r : option float) :
  getGain grp num w = (Ok r, w') ->
  match r with Some g => gain_in_range g = true | None => True end.
Proof.
  unfold getGain. rewrite bind_run, _query_run.
  destruct (osc_reply env (clock w) (AddrGain grp num)) as [| |v]; cbn [reply_value].
  - intros [= <- _]. exact Logic.I.
  - intros [= <- _]. exact Logic.I.
  - unfold lift, except_value_type.
    destruct v as [n|f|s]; cbn [py_float].
    3: destruct (float_of_str s) as [f|].
    all: intros [= <- _]; try apply clamp_gain_in_range; exact Logic.I.
Qed.

(** The ring of a gain in range. *)
Lemma emits_ring (ch : Z) (gain : float) :
  gain_in_range gain = true ->
  emits (sent_ok writes clears) (ring ← lift (ring_value gain); set_encoder_ring ch ring 1).
Proof.
  intros Hg. apply emits_lift_bind. intros ring Hr.
  destruct (ring_value_in_range gain Hg) as (n & Hn & Hrange).
  rewrite Hn in Hr. injection Hr as <-.
  apply emits_set_encoder_ring. left. split; [reflexivity | exact Hrange].
Qed.

Lemma emits_load_gain (ch wing_ch : Z) : emits (sent_ok writes clears) (load_gain ch wing_ch).
Proof.
  unfold load_gain. apply emits_bind; [apply emits_getChannelInputSource|].
  intros [[grp num]|]; [|apply emits_ret].
  apply (emits_bind_res (sent_ok writes clears)
           (fun r => match r with Some g => gain_in_range g = true | None => True end)).
  - intros w r w'. apply getGain_in_range.
  - apply emits_getGain.
  - intros [gain|] Hg; [|apply emits_ret].
    apply emits_bind; [apply emits_assign | intros _]. apply emits_ring, Hg.
Qed.

Lemma emits_sync_gain_strip (ch wing_ch :
  Z) : emits (sent_ok writes clears) (sync_gain_strip ch wing_ch).
Proof.
  unfold sync_gain_strip. apply emits_bind; [apply emits_getChannelInputSource|].
  intros [[grp num]|]; [|apply emits_ret].
  apply (emits_bind_res (sent_ok writes clears)
           (fun r => match r with Some g => gain_in_range g = true | None => True end)).
  - intros w r w'. apply getGain_in_range.
  - apply emits_getGain.
  - intros [gain|] Hg; [|apply emits_ret].
    apply emits_bind; [apply emits_channel | intros st].
    destruct (PrimFloat.ltb _ _); [|apply emits_ret].
    apply emits_bind; [apply emits_assign | intros _]. apply emits_ring, Hg.
Qed.

#[local] Hint Resolve emits_update_page_mutes emits_update_page_faders emits_load_gain
  emits_sync_gain_strip : emits.

Lemma emits_load_page_gains : emits (sent_ok writes clears) load_page_gains.
Proof. unfold load_page_gains. emits_auto. Qed.

Lemma emits_sync_gain_for_page (page :
  Z) : emits (sent_ok writes clears) (sync_gain_for_page page).
Proof. unfold sync_gain_for_page. emits_auto. Qed.

Lemma emits_sync_strip (t :
  target) (ch k : Z) : emits (sent_ok writes clears) (sync_strip t ch k).
Proof. unfold sync_strip, sync_fader, sync_mute. emits_auto. Qed.

#[local] Hint Resolve emits_load_page_gains emits_sync_gain_for_page emits_sync_strip : emits.

Lemma emits_sync_body : emits (sent_ok writes clears) sync_body.
Proof. unfold sync_body. emits_auto. Qed.

#[local] Hint Resolve emits_sync_body : emits.

Lemma emits_sync_iteration (ce : Z) : emits (sent_ok writes clears) (sync_iteration ce).
Proof. unfold sync_iteration. emits_auto. Qed.

#[local] Hint Resolve emits_sync_iteration : emits.

Lemma emits_sync_loop (n : nat) (ce : Z) : emits (sent_ok writes clears) (sync_loop n ce).
Proof. revert ce. induction n as [|n IH]; intros ce; simpl; emits_auto. Qed.

Hypothesis may_write : writes.
Hypothesis may_clear : clears.

Lemma emits_toggle_mute (t :
  target) (ch k : Z) : emits (sent_ok writes clears) (toggle_mute t ch k).
Proof. unfold toggle_mute. pose proof emits_setMute. emits_auto. Qed.

#[local] Hint Resolve emits_toggle_mute : emits.

Lemma emits_on_button (ch : Z) (btn : button) (state : bool) :
  emits (sent_ok writes clears) (on_button ch btn state).
Proof.
  unfold on_button. emits_auto.
  apply emits_set_encoder_ring. right. split; [exact may_clear | split; reflexivity].
Qed.

Lemma emits_on_encoder (ch delta : Z) : emits (sent_ok writes clears) (on_encoder ch delta).
Proof.
  unfold on_encoder. apply emits_bind; [apply emits_get_world | intros w0]. cbv zeta.
  match goal with |- emits _ (match ?x with _ => _ end) => destruct x as [wing_ch|] end;
    [|apply emits_ret].
  apply emits_bind; [apply emits_getChannelInputSource|].
  intros [[grp num]|]; [|apply emits_ret].
  apply emits_bind; [apply emits_channel | intros st].
  apply emits_bind; [apply emits_setGain, may_write | intros sent].
  destruct sent; [|apply emits_ret].
  apply emits_bind; [apply emits_assign | intros _].
  apply emits_ring, clamp_gain_in_range.
Qed.

Lemma emits_on_fader (ch val : Z) : emits (sent_ok writes clears) (on_fader ch val).
Proof.
  unfold on_fader. pose proof emits_setFader. pose proof emits_sendDMX. emits_auto.
Qed.

#[local] Hint Resolve emits_on_button emits_on_encoder emits_on_fader : emits.

Lemma emits_on_note (note :
  Z) (state : bool) : emits (sent_ok writes clears) (on_note note state).
Proof. unfold on_note. emits_auto. Qed.

#[local] Hint Resolve emits_on_note : emits.

Lemma emits__input_callback (msg :
  midi_msg) : emits (sent_ok writes clears) (_input_callback msg).
Proof. unfold _input_callback. emits_auto. Qed.

Lemma emits__init_display : emits (sent_ok writes clears) _init_display.
Proof. unfold _init_display. emits_auto. Qed.

#[local] Hint Resolve emits__init_display : emits.

Lemma emits_surface_check (attempts : Z) : emits (sent_ok writes clears) (surface_check attempts).
Proof.
  unfold surface_check, reconnect, surface_open. emits_auto; try exact may_write.
Qed.

Lemma emits_connection_check : emits (sent_ok writes clears) connection_check.
Proof.
  unfold connection_check. pose proof emits_sendDMX. pose proof emits_dmx_connect.
  emits_auto.
Qed.

End Emitting.

Lemma sent_ok_read_only (e : event) : sent_ok False False e -> read_only e.
Proof. destruct e; cbn; tauto. Qed.

Lemma sent_ok_wire_ok (e : event) : sent_ok True True e -> wire_ok True e.
Proof. destruct e; cbn; unfold ring_pos_ok; tauto. Qed.

(** X19. The reconciliation loop only reads: over any number of
    iterations what it does is query the console, check the connection
    (which may set up the query socket anew) and command the surface.  It
    never sends a set message to the console, never writes to the lighting
    sink and never reopens the lighting link or the surface; every MIDI
    message it sends is well formed, and every encoder ring position is one
    of 0..11 in mode 1. *)
Theorem sync_loop_only_reads (n : nat) (ce : Z) (w : World) :
  exists l,
    trace (snd (sync_loop n ce w)) = (l ++ trace w)%list /\
    Forall read_only l.
Proof.
  destruct (emits_sync_loop False False n ce w) as (l & El & Fl).
  exists l. split; [exact El|].
  eapply Forall_impl; [exact Fl | exact sent_ok_read_only].
Qed.

(** X20. Whatever the console replies and whatever the surface sends,
    every MIDI message that an inbound surface message, a surface check or
    a console check makes the bridge send lies within the ranges of the
    surface (pitch bends on channels 0..7 with 14-bit pitches, control
    changes 48..55 and notes 0..31 with seven-bit values, seven-bit
    system-exclusive data), and every encoder ring position is one of
    0..11 in mode 1 or the cleared ring. *)
Theorem outputs_well_formed (w : World) :
  (forall msg, exists l,
     trace (snd (_input_callback msg w)) = (l ++ trace w)%list /\
     Forall (wire_ok True) l) /\
  (forall attempts, exists l,
     trace (snd (surface_check attempts w)) = (l ++ trace w)%list /\
     Forall (wire_ok True) l) /\
  (exists l,
     trace (snd (connection_check w)) = (l ++ trace w)%list /\
     Forall (wire_ok True) l).
Proof.
  assert (K : forall {A : Type} (m : M A),
            emits (sent_ok True True) m ->
            exists l, trace (snd (m w)) = (l ++ trace w)%list /\ Forall (wire_ok True) l).
  { intros A m Hm. destruct (Hm w) as (l & El & Fl). exists l. split; [exact El|].
    eapply Forall_impl; [exact Fl | exact sent_ok_wire_ok]. }
  refine (conj _ (conj _ _)).
  - intros msg. apply K. apply emits__input_callback; exact Logic.I.
  - intros attempts. apply K. apply emits_surface_check; exact Logic.I.
  - apply K. apply emits_connection_check; exact Logic.I.
Qed.

(** ** Replies that are no finite number *)

Lemma mute_of_reply_infinite (f : float) :
  f = PrimFloat.infinity \/ f = PrimFloat.neg_infinity ->
  mute_of_reply (OFloat f) = Raise OverflowError.
Proof. intros [->| ->]; reflexivity. Qed.

(** X21. A mute reply that carries an infinite float makes [getMute]
    raise [OverflowError], which its [except] clause does not catch: a
    press of the mute button of a strip with a console target then fails
    after the query, before anything is sent to the console and before the
    LED is set. *)
Theorem infinite_mute_reply_raises (w : World) (t : target) (n : Z) (f : float) :
  osc_reply env (clock w) (AddrMute t n) = Answer (OFloat f) ->
  f = PrimFloat.infinity \/ f = PrimFloat.neg_infinity ->
  fst (getMute t n w) = Raise OverflowError /\
  forall ch, mute_target (selected_page (device w)) ch = Some (t, n) ->
    fst (on_button ch Mute true w) = Raise OverflowError /\
    trace (snd (on_button ch Mute true w)) = EvQuery (AddrMute t n) :: trace w.
Proof.
  intros Hr Hf.
  assert (Hrun : getMute t n w
                 = (Raise OverflowError,
                    with_wing (wing_after (Answer (OFloat f)))
                      (advance (with_trace (cons (EvQuery (AddrMute t n))) w)))).
  { unfold getMute. rewrite bind_run, _query_run, Hr. cbn [reply_value].
    unfold lift. rewrite (mute_of_reply_infinite f Hf). reflexivity. }
  split; [rewrite Hrun; reflexivity|].
  intros ch Ht. rewrite on_button_mute, Ht. unfold toggle_mute.
  rewrite bind_run, Hrun. split; reflexivity.
Qed.

(** ** The display *)

Lemma str_codes_length (s : string) : length (str_codes s) = String.length s.
Proof. induction s as [|c r IH]; simpl; [reflexivity | rewrite IH; reflexivity]. Qed.

Lemma data_bytes_spec (l : list Z) :
  forallb data_byte l = true <-> Forall (fun b => 0 <= b <= 127) l.
Proof.
  rewrite forallb_forall, List.Forall_forall.
  split; intros H x Hx; specialize (H x Hx); unfold data_byte in *.
  - apply andb_prop in H as [H1 H2]. lia.
  - apply andb_true_intro. split; lia.
Qed.

Lemma set_text_check (ch : Z) (text : string) :
  1 <= ch <= 8 ->
  forallb data_byte ([0; 0; 102; 21; 18; (ch - 1) * 7] ++ ljust7 text)%list
  = forallb data_byte (ljust7 text).
Proof.
  intros Hch. rewrite forallb_app.
  replace (forallb data_byte [0; 0; 102; 21; 18; (ch - 1) * 7]) with true; [reflexivity|].
  symmetry. apply data_bytes_spec. repeat (constructor; [lia|]). constructor.
Qed.

(** X22. For a strip in 1..8 and a text whose first seven characters are
    seven-bit codes, [set_text] sends one system-exclusive message of
    thirteen data bytes: the header of five bytes, the display offset
    [(ch - 1) * 7] and exactly seven characters, the text cut after seven
    characters or padded with spaces.  A text with a character code above
    127 among its first seven is not sent at all, and for a strip number
    outside 1..8 nothing is sent. *)
Theorem set_text_seven_characters (ch : Z) (text : string) (w : World) :
  (1 <= ch <= 8 -> text_ok text ->
   set_text ch text w
   = (Ok tt, with_trace
               (cons (EvMidiOut (Sysex ([0; 0; 102; 21; 18; (ch - 1) * 7]
                                        ++ ljust7 text)%list))) w) /\
   length (ljust7 text) = 7%nat /\
   ljust7 text
   = (take 7 (str_codes text) ++ replicate (7 - String.length text) 32)%list) /\
  (1 <= ch <= 8 -> ~ text_ok text -> set_text ch text w = (Ok tt, w)) /\
  (ch < 1 \/ 8 < ch -> set_text ch text w = (Ok tt, w)).
Proof.
  split; [|split].
  - intros Hch Ht. split; [|split].
    + unfold set_text, when, in_1_8.
      destruct (Z.leb_spec 1 ch), (Z.leb_spec ch 8); cbn [andb]; try lia.
      cbv zeta. rewrite (set_text_check ch text Hch).
      rewrite (proj2 (data_bytes_spec (ljust7 text)) Ht). reflexivity.
    + unfold ljust7. rewrite length_take, length_app, length_replicate. lia.
    + unfold ljust7. rewrite take_app. rewrite str_codes_length.
      f_equal. rewrite take_replicate. f_equal. lia.
  - intros Hch Ht. unfold set_text, when, in_1_8.
    destruct (Z.leb_spec 1 ch), (Z.leb_spec ch 8); cbn [andb]; try lia.
    cbv zeta. rewrite (set_text_check ch text Hch).
    destruct (forallb data_byte (ljust7 text)) eqn:E; [|reflexivity].
    exfalso. apply Ht. apply data_bytes_spec. exact E.
  - intros Hch. unfold set_text, when, in_1_8.
    destruct (Z.leb_spec 1 ch), (Z.leb_spec ch 8); cbn [andb]; try lia; reflexivity.
Qed.

End Bridge.

(** ** Instances of the theorems above at concrete inputs *)

Lemma curve_roundtrip_within_1_witness :
  6 <= 500 <= 1000 /\
  exists q, db_to_fader float_of_digits (OFloat (fader_to_db 500)) = Ok (Some q)
            /\ Z.abs (q - 500) <= 1.
Proof. split; [lia | apply (curve_roundtrip_within_1 float_of_digits 500); lia]. Defined.

Lemma range_invariant_witness :
  range_inv World_init /\
  range_inv (snd (sync_iteration float_of_digits (env_answering (OFloat 0%float)) 0
                    World_init)).
Proof.
  pose proof (range_invariant float_of_digits (env_answering (OFloat 0%float)))
    as (Hi & _ & _ & H).
  split; [exact Hi|].
  apply (proj1 (H World_init Hi) 0).
Defined.

Lemma getDMX_within_index_range_witness :
  length (dmx_stored_values (dmx World_init)) = 513%nat /\
  (exists x, dmx_stored_values (dmx World_init) !! Z.to_nat 8 = Some x /\
             getDMX 8 World_init
             = (Ok (if (0 <=? x) && (x <=? 1000) then x else 0), World_init)).
Proof.
  split; [reflexivity|].
  apply (proj1 (getDMX_within_index_range World_init 8 eq_refl)). lia.
Defined.

(** C8, as stated, fails: channel 513 is past the end of the shadow. *)
Lemma getDMX_513_raises :
  getDMX 513 World_init = (Raise IndexError, World_init) /\
  ~ returns (fst (getDMX 513 World_init)).
Proof. split; [reflexivity | intros H; exact H]. Qed.



Lemma failure_escalation_witness :
  let env := env_infinite_mute in
  let r1 := sync_iteration float_of_digits env 0 World_init in
  let r2 := sync_iteration float_of_digits env 1 (snd r1) in
  let r3 := sync_iteration float_of_digits env 2 (snd r2) in
  tick_fails float_of_digits env World_init /\
  tick_fails float_of_digits env (snd r1) /\
  tick_fails float_of_digits env (snd r2) /\
  fst r3 = Ok 0 /\ check_calls (trace (snd r3)) = 1%nat.
Proof.
  cbv zeta.
  assert (F0 : tick_fails float_of_digits env_infinite_mute World_init)
    by (exists OverflowError; vm_compute; reflexivity).
  assert (F1 : tick_fails float_of_digits env_infinite_mute
                 (snd (sync_iteration float_of_digits env_infinite_mute 0 World_init)))
    by (exists OverflowError; vm_compute; reflexivity).
  assert (F2 : tick_fails float_of_digits env_infinite_mute
                 (snd (sync_iteration float_of_digits env_infinite_mute 1
                    (snd (sync_iteration float_of_digits env_infinite_mute 0 World_init)))))
    by (exists OverflowError; vm_compute; reflexivity).
  destruct (proj1 (failure_escalation float_of_digits env_infinite_mute World_init)
              F0 F1 F2) as (_ & _ & _ & _ & H5 & H6).
  repeat split; assumption.
Defined.

(** C3, as stated, fails: through three iterations every query of the
    console times out (66 of them), and the connectivity check is never
    called. *)
Lemma timeouts_do_not_escalate :
  let w3 := snd (sync_loop float_of_digits env_silent 3 0 World_init) in
  failed_queries (wing w3) = 66 /\
  check_calls (trace w3) = 0%nat /\
  check_calls (trace w3) <> 1%nat.
Proof. vm_compute. repeat split. discriminate. Qed.

Lemma sync_fader_untouched_witness :
  let env := env_answering (OFloat (fader_to_db 517)) in
  let w := alter_strip (fun st => set_last_stable_value 500 (set_fader_value 500 st)) 1
             World_init in
  let w' := snd (sync_fader float_of_digits env Ch 1 1 w) in
  option_map fader_value (strip w' 1) = Some 517 /\
  option_map last_stable_value (strip w' 1) = Some 517 /\
  set_fader_calls 1 (trace w') = [517].
Proof.
  cbv zeta.
  destruct (sync_fader_untouched float_of_digits (env_answering (OFloat (fader_to_db 517)))
              Ch 1 1 517
              (alter_strip (fun st => set_last_stable_value 500 (set_fader_value 500 st)) 1
                 World_init)
              (snd (getFader float_of_digits (env_answering (OFloat (fader_to_db 517)))
                      Ch 1
                      (alter_strip
                         (fun st => set_last_stable_value 500 (set_fader_value 500 st)) 1
                         World_init)))
              (set_last_stable_value 500 (set_fader_value 500 ChannelState_default)))
    as (_ & H3 & H2).
  - reflexivity.
  - reflexivity.
  - vm_compute. reflexivity.
  - specialize (H2 ltac:(vm_compute; reflexivity)).
    rewrite H2, H3. repeat split.
Defined.

(** C2, as stated, fails: the comparison is against [fader_value], not
    [last_stable_value].  With [last_stable_value = 500] and
    [fader_value = 0], a remote value of 510, within 15 of
    [last_stable_value], is pushed to the surface; with
    [last_stable_value = 0] and [fader_value = 500] the same value, 510
    away from [last_stable_value], is not. *)
Lemma deadband_compares_fader_value :
  let env := env_answering (OFloat (fader_to_db 511)) in
  let v := alter_strip (set_last_stable_value 500) 1 World_init in
  let u := alter_strip (set_fader_value 500) 1 World_init in
  fst (getFader float_of_digits env Ch 1 v) = Ok (Some 510) /\
  fst (getFader float_of_digits env Ch 1 u) = Ok (Some 510) /\
  option_map last_stable_value (strip v 1) = Some 500 /\
  Z.abs (510 - 500) <= FADER_DEADBAND /\
  set_fader_calls 1 (trace (snd (sync_fader float_of_digits env Ch 1 1 v))) = [510] /\
  option_map last_stable_value (strip u 1) = Some 0 /\
  FADER_DEADBAND < Z.abs (510 - 0) /\
  set_fader_calls 1 (trace (snd (sync_fader float_of_digits env Ch 1 1 u))) = [].
Proof. vm_compute. repeat split; discriminate. Qed.

(** Lines 933-934 assign both fields outside the deadband test: a remote
    value within the deadband is not pushed, yet the strip's state takes
    it, so the next comparison starts from it. *)
Lemma deadband_overwrite :
  let env := env_answering (OFloat (fader_to_db 511)) in
  let w := alter_strip (fun st => set_last_stable_value 500 (set_fader_value 500 st)) 1
             World_init in
  let w' := snd (sync_fader float_of_digits env Ch 1 1 w) in
  fst (getFader float_of_digits env Ch 1 w) = Ok (Some 510) /\
  set_fader_calls 1 (trace w') = [] /\
  option_map fader_value (strip w' 1) = Some 510 /\
  option_map last_stable_value (strip w' 1) = Some 510.
Proof. vm_compute. repeat split. Qed.

Lemma sync_body_drives_held_strip_8_witness :
  let w := alter_strip (set_is_touched true) 8 World_init in
  let w' := snd (sync_body float_of_digits env_silent w) in
  option_map is_touched (strip w 8) = Some true /\
  exists avg, set_fader_calls 8 (trace w') = [avg].
Proof.
  cbv zeta. split; [reflexivity|].
  destruct (sync_body_drives_held_strip_8 float_of_digits env_silent
              (alter_strip (set_is_touched true) 8 World_init)
              (snd (sync_body float_of_digits env_silent
                      (alter_strip (set_is_touched true) 8 World_init)))
              (set_is_touched true ChannelState_default))
    as (avg & w2 & _ & H).
  - reflexivity.
  - reflexivity.
  - reflexivity.
  - vm_compute. reflexivity.
  - exists avg. exact H.
Defined.

Lemma mute_read_failure_reads_unmuted_witness :
  unreadable float_of_digits (osc_reply env_silent 0 (AddrMute Ch 1)) /\
  fst (getMute float_of_digits env_silent Ch 1 World_init) = Ok false /\
  trace (snd (on_button float_of_digits env_silent 1 Mute true World_init))
  = [EvMidiOut (NoteOn 16 127); EvSetLed 1 Mute true;
     EvSendOsc (AddrMute Ch 1) 1.0%float; EvQuery (AddrMute Ch 1)].
Proof.
  assert (H : unreadable float_of_digits
                (osc_reply env_silent (clock World_init) (AddrMute Ch 1)))
    by exact Logic.I.
  split; [exact H|].
  destruct (mute_read_failure_reads_unmuted float_of_digits env_silent World_init Ch 1 H)
    as [Hread Hpress].
  split; [exact Hread|].
  destruct (Hpress 1 eq_refl) as [_ Htrace]. exact Htrace.
Defined.

Lemma on_encoder_steps_once_witness :
  let env := env_answering (OInt 1) in
  let w' := snd (on_encoder float_of_digits env 1 2 World_init) in
  option_map gain_db (strip w' 1) = Some 1.0%float /\
  In (EvSendOsc (AddrGain (OInt 1) 1) 1.0%float) (trace w').
Proof.
  cbv zeta.
  destruct (on_encoder_steps_once float_of_digits (env_answering (OInt 1)) World_init
              (snd (getChannelInputSource float_of_digits (env_answering (OInt 1)) 1
                      World_init))
              1 2 1 1 (OInt 1) ChannelState_default)
    as (Hg & Hin & _).
  - lia.
  - reflexivity.
  - vm_compute. reflexivity.
  - reflexivity.
  - reflexivity.
  - split; [exact Hg | exact Hin].
Defined.

(** C5, as stated, fails: a turn with delta +2 adds 1.0 dB, not 2.0 dB, and
    a turn with delta 0 takes 1.0 dB off instead of leaving the gain as it
    is. *)
Lemma encoder_delta_size_ignored :
  let env := env_answering (OInt 1) in
  option_map gain_db (strip (snd (on_encoder float_of_digits env 1 2 World_init)) 1)
  = Some 1.0%float /\
  gain_per_delta_unit 0.0%float 2 = 2.0%float /\
  option_map gain_db (strip (snd (on_encoder float_of_digits env 1 0 World_init)) 1)
  = Some (-1.0)%float /\
  gain_per_delta_unit 0.0%float 0 = 0.0%float /\
  PrimFloat.eqb 1.0 2.0 = false /\ PrimFloat.eqb (-1.0) 0.0 = false.
Proof. vm_compute. repeat split. Qed.

Lemma ring_value_within_0_11_witness :
  gain_in_range 44.0%float = true /\
  exists n,
    ring_value 44.0%float = Ok n /\ 0 <= n <= 11 /\
    py_int (44.0 / 45.0 * float_of_Z 11)%float = Ok n.
Proof. split; [reflexivity | apply ring_value_within_0_11; reflexivity]. Defined.

(** C6, as stated, fails: at 44.0 dB the ring shows position 10 where
    rounding gives 11, and at -2.5 dB rounding gives -1, outside 0..11,
    where the ring shows 0. *)
Lemma ring_position_is_truncated :
  ring_value 44.0%float = Ok 10 /\ ring_index_rounded 44.0%float = Ok 11 /\
  gain_in_range (-2.5)%float = true /\
  ring_value (-2.5)%float = Ok 0 /\ ring_index_rounded (-2.5)%float = Ok (-1).
Proof. vm_compute. repeat split. Qed.

Lemma getGain_never_fails_witness :
  PrimFloat.is_nan PrimFloat.nan = true /\ clamp_gain PrimFloat.nan = 45.0%float.
Proof.
  split; [reflexivity|].
  apply (proj2 (getGain_never_fails float_of_digits env_silent (OInt 1) 1 World_init)).
  reflexivity.
Defined.

Lemma fader_law_shape_witness :
  PrimFloat.ltb (fader_to_db 500) (fader_to_db 501) = true /\
  fader_to_db 3 = (-144.0)%float /\ fader_to_db 1200 = fader_to_db 1000.
Proof.
  destruct (fader_law_shape 500) as (_ & H & _).
  destruct (fader_law_shape 3) as (H3 & _ & _).
  destruct (fader_law_shape 1200) as (_ & _ & H1200).
  split; [apply H; lia|]. split; [apply H3; lia | apply H1200; lia].
Defined.

Lemma set_fader_pitch_decodes_witness :
  exists pitch,
    set_fader 3 500 World_init
    = (Ok tt, with_trace (cons (EvMidiOut (Pitchwheel 2 pitch)))
                (with_trace (cons (EvSetFader 3 500)) World_init)) /\
    -8192 <= pitch <= 8191 /\ pitch_to_fader pitch = Ok 499.
Proof. apply (set_fader_pitch_decodes 3 500 World_init); lia. Defined.

Lemma led_note_is_button_note_witness :
  on_note float_of_digits env_silent 18 true World_init
  = on_button float_of_digits env_silent 3 Mute true World_init.
Proof.
  apply (led_note_is_button_note float_of_digits env_silent 3 Mute true World_init). lia.
Defined.

Lemma set_encoder_ring_code_witness :
  (exists code,
     set_encoder_ring 2 10 1 World_init
     = (Ok tt, with_trace (cons (EvMidiOut (ControlChange 49 code)))
                 (with_trace (cons (EvSetEncoderRing 2 10 1)) World_init)) /\
     0 <= code <= 127 /\ Z.land code 15 = 10 /\ Z.shiftr code 4 = 1) /\
  set_encoder_ring 2 10 8 World_init
  = (Ok tt, with_trace (cons (EvSetEncoderRing 2 10 8)) World_init).
Proof.
  split.
  - destruct (set_encoder_ring_code 2 10 1 World_init) as [H _]; [lia|].
    apply H. lia.
  - destruct (set_encoder_ring_code 2 10 8 World_init) as [_ H]; [lia|].
    apply H. lia.
Defined.


Lemma sendDMX_wire_value_witness :
  let w := snd (dmx_connect env_silent World_init) in
  trace (snd (sendDMX 7 1500 w)) = EvSerialWrite 7 255 :: EvSendDMX 7 1500 :: trace w /\
  dmx_stored_values (dmx (snd (sendDMX 7 1500 w))) !! 7%nat = Some 1500.
Proof.
  cbv zeta.
  destruct (sendDMX_wire_value 7 1500 (snd (dmx_connect env_silent World_init))
              eq_refl eq_refl ltac:(lia)) as (H1 & _ & H2).
  split; [exact H1 | exact H2].
Defined.

Lemma sendDMX_closed_or_outside_witness :
  sendDMX 600 5 World_init = (Ok tt, with_trace (cons (EvSendDMX 600 5)) World_init) /\
  fst (sendDMX 600 5 (snd (dmx_connect env_silent World_init))) = Raise IndexError.
Proof.
  split.
  - apply (proj1 (sendDMX_closed_or_outside 600 5 World_init)). reflexivity.
  - rewrite (proj2 (sendDMX_closed_or_outside 600 5
                      (snd (dmx_connect env_silent World_init)))
               eq_refl eq_refl ltac:(lia)).
    reflexivity.
Defined.

Lemma getSaallicht_average_witness :
  shadow_ok World_init /\ getSaallicht World_init = (Ok 0, World_init).
Proof.
  pose proof (proj2 well_formed_init) as Hs.
  split; [exact Hs|].
  destruct (getSaallicht_average World_init Hs)
    as (v1 & v2 & v3 & v4 & L1 & L2 & L3 & L4 & H & _).
  injection L1 as <-. injection L2 as <-. injection L3 as <-. injection L4 as <-.
  exact H.
Defined.

Lemma well_formed_invariant_witness :
  well_formed World_init /\
  well_formed (snd (sync_iteration float_of_digits (env_answering (OFloat 0%float)) 0
                      World_init)).
Proof.
  pose proof (well_formed_invariant float_of_digits (env_answering (OFloat 0%float)))
    as (Hi & H).
  split; [exact Hi|]. apply (proj1 (H World_init Hi) 0).
Defined.

(** A surface that does not answer; the console answers every query. *)
Lemma sync_loop_surface_down_witness :
  let env := {| osc_reply := fun _ _ => Answer (OInt 1); osc_send_ok := fun _ => true;
                socket_init_ok := fun _ => true; serial_port_ok := fun _ => true;
                surface_alive := fun _ => false; surface_open_ok := fun _ => false |} in
  sync_loop float_of_digits env 3 2 World_init
  = (Ok 2, {| device := device World_init; wing := wing World_init;
              dmx := dmx World_init; clock := 3%nat; trace := [] |}).
Proof.
  cbv zeta.
  apply (sync_loop_surface_down float_of_digits
           {| osc_reply := fun _ _ => Answer (OInt 1); osc_send_ok := fun _ => true;
              socket_init_ok := fun _ => true; serial_port_ok := fun _ => true;
              surface_alive := fun _ => false; surface_open_ok := fun _ => false |}
           3 2 World_init).
  intros k _. reflexivity.
Defined.

Lemma touch_holds_fader_witness :
  let env := env_answering (OFloat 0%float) in
  let w1 := snd (_input_callback float_of_digits env (NoteOn 105 127) World_init) in
  option_map is_touched (strip w1 2) = Some true /\
  set_fader_calls 2 (trace (snd (sync_body float_of_digits env w1))) = [].
Proof.
  cbv zeta.
  destruct (touch_holds_fader float_of_digits (env_answering (OFloat 0%float)) 2 127
              World_init ChannelState_default ltac:(lia) ltac:(lia) eq_refl
              ltac:(right; lia)) as (H1 & _ & _ & H4).
  split; [exact (f_equal (option_map is_touched) H1) | exact H4].
Defined.

Lemma dropped_messages_change_nothing_witness :
  dropped World_init (Pitchwheel 2 4000) /\
  _input_callback float_of_digits env_silent (Pitchwheel 2 4000) World_init
  = (Ok tt, heard World_init).
Proof.
  assert (H : dropped World_init (Pitchwheel 2 4000)).
  { cbv [dropped]. change (strip World_init (2 + 1)) with (Some ChannelState_default).
    repeat split; lia. }
  split; [exact H|].
  exact (dropped_messages_change_nothing float_of_digits env_silent _ _ H).
Defined.

Lemma on_fader_deadband_witness :
  on_fader env_silent 2 14 World_init = (Ok tt, World_init) /\
  trace (snd (on_fader env_silent 2 15 World_init))
  = [EvSendOsc (AddrFdr Ch 2) (fader_to_db 15)].
Proof.
  destruct (on_fader_deadband env_silent 2 14 World_init ChannelState_default eq_refl)
    as [H1 _].
  destruct (on_fader_deadband env_silent 2 15 World_init ChannelState_default eq_refl)
    as [_ H2].
  split; [apply H1; simpl; lia|].
  destruct (H2 ltac:(simpl; lia) Ch 2 eq_refl) as (_ & H & _). exact H.
Defined.


Lemma select_switches_page_witness :
  well_formed World_init /\
  selected_page (device (snd (on_button float_of_digits env_silent 4 Select true
                                World_init))) = 3.
Proof.
  split; [exact well_formed_init|].
  exact (select_switches_page float_of_digits env_silent 4 World_init well_formed_init).
Defined.

Lemma infinite_mute_reply_raises_witness :
  fst (getMute float_of_digits env_infinite_mute Ch 1 World_init) = Raise OverflowError /\
  trace (snd (on_button float_of_digits env_infinite_mute 1 Mute true World_init))
  = [EvQuery (AddrMute Ch 1)].
Proof.
  destruct (infinite_mute_reply_raises float_of_digits env_infinite_mute World_init Ch 1
              PrimFloat.infinity eq_refl (or_introl eq_refl)) as [H1 H2].
  split; [exact H1|]. exact (proj2 (H2 1 eq_refl)).
Defined.

Lemma set_text_seven_characters_witness :
  text_ok "Licht L1" /\
  set_text 2 "Licht L1" World_init
  = (Ok tt, with_trace
              (cons (EvMidiOut (Sysex [0; 0; 102; 21; 18; 7;
                                       76; 105; 99; 104; 116; 32; 76]))) World_init) /\
  set_text 2 (String (Ascii.ascii_of_nat 228) "b") World_init = (Ok tt, World_init) /\
  set_text 9 "Licht L1" World_init = (Ok tt, World_init).
Proof.
  assert (Hok : text_ok "Licht L1") by (vm_compute; repeat constructor; discriminate).
  assert (Hno : ~ text_ok (String (Ascii.ascii_of_nat 228) "b")).
  { intros H. apply data_bytes_spec in H. vm_compute in H. discriminate. }
  destruct (set_text_seven_characters 2 "Licht L1" World_init) as [H1 _].
  destruct (set_text_seven_characters 2 (String (Ascii.ascii_of_nat 228) "b") World_init)
    as [_ [H2 _]].
  destruct (set_text_seven_characters 9 "Licht L1" World_init) as [_ [_ H3]].
  split; [exact Hok|].
  split; [exact (proj1 (H1 ltac:(lia) Hok))|].
  split; [apply H2; [lia | exact Hno] | apply H3; lia].
Defined.
